(** * cc-improve: the patch engine of [apply-patches.py]

    A shallow embedding of the text-level patch engine: the format
    classifier, the anchor resolvers, the transform sequence of
    [patch_js] / [patch_css] and the reverser [clean].

    Texts are Python [str] values, modelled as lists of 8-bit characters.
    Python's substring primitives ([in], [find], [replace], [split],
    [join], [strip]) are written out as recursive functions, and the
    regular expressions of the source are terms of a small regex syntax
    run by a backtracking matcher with Python's priorities (leftmost
    match, greedy and lazy repetition, capture groups). *)

From Stdlib Require Import Ascii String List Bool Arith NArith Lia.
Import ListNotations.

Local Open Scope string_scope.
Local Open Scope list_scope.

(** ** Texts *)

Definition text := list ascii.

Coercion list_ascii_of_string : string >-> list.

Definition nl : ascii := Ascii.ascii_of_nat 10.
Definition dq : ascii := Ascii.ascii_of_nat 34.

(** [s.startswith(p)] *)
Fixpoint starts_with (p s : text) : bool :=
  match p, s with
  | [], _ => true
  | a :: p', b :: s' => Ascii.eqb a b && starts_with p' s'
  | _ :: _, [] => false
  end.

(** [s.find(p)]: the index of the first occurrence, [None] for Python's -1. *)
Fixpoint find (p s : text) : option nat :=
  match s with
  | [] => if starts_with p [] then Some 0 else None
  | _ :: s' => if starts_with p s then Some 0 else option_map S (find p s')
  end.

(** [p in s] *)
Definition contains (p s : text) : bool :=
  match find p s with Some _ => true | None => false end.

(** [s.replace(old, new, 1)] *)
Fixpoint replace1 (old new s : text) : text :=
  if starts_with old s then new ++ skipn (length old) s
  else match s with
       | [] => []
       | c :: s' => c :: replace1 old new s'
       end.

(** [s.replace(old, new)] for a non-empty [old]: occurrences are replaced
    left to right without overlap; [skip] counts the characters of the
    occurrence just replaced that are still to be dropped. *)
Fixpoint replace_from (old new : text) (skip : nat) (s : text) : text :=
  match s with
  | [] => []
  | c :: s' =>
      match skip with
      | S k => replace_from old new k s'
      | O => if starts_with old s
             then new ++ replace_from old new (length old - 1) s'
             else c :: replace_from old new 0 s'
      end
  end.

Definition replace_all (old new s : text) : text := replace_from old new 0 s.

(** [s.split('\n')] *)
Fixpoint split_nl (s : text) : list text :=
  match s with
  | [] => [[]]
  | c :: s' =>
      if Ascii.eqb c nl then [] :: split_nl s'
      else match split_nl s' with
           | l :: ls => (c :: l) :: ls
           | [] => [[c]]
           end
  end.

(** ['\n'.join(lines)] *)
Fixpoint join_nl (ls : list text) : text :=
  match ls with
  | [] => []
  | [l] => l
  | l :: ls' => l ++ nl :: join_nl ls'
  end.

(** ** Format classifier *)

Definition PRETTIFIED_THRESHOLD : nat := 5000.

(** [is_prettified]: [len(content.split('\n')) > 5000]. *)
Definition is_prettified (content : text) : bool :=
  Nat.ltb PRETTIFIED_THRESHOLD (length (split_nl content)).

Inductive Encoding := Prettified | Minified.

Definition encoding_of (content : text) : Encoding :=
  if is_prettified content then Prettified else Minified.

(** Occurrences of a character in a pattern, and of a pattern in a text. *)
Definition has_char (c : ascii) (p : text) : bool := existsb (Ascii.eqb c) p.

(** The number of positions of [s] at which [p] occurs. *)
Fixpoint occurrences (p s : text) : nat :=
  match s with
  | [] => 0
  | _ :: s' => (if starts_with p s then 1 else 0) + occurrences p s'
  end.

(** ** Stylesheet transforms: [patch_css] *)

Definition CSS_SELECTOR : text := ".sessionMetrics_cc".
Definition ST_MARKER : text := "/* ST palette */".

Definition custom_css : text :=
  nl :: "/* Custom Session Metrics Bar - cc-improve v12-debug */"
  ++ nl :: ".inputFooter_gGYT1w{flex-wrap:wrap !important}"
  ++ nl :: ".sessionMetrics_cc{flex:0 0 100% !important;order:-1 !important}".

Definition st_css : text :=
  nl :: "/* ST palette */"
  ++ nl :: ":root{--app-claude-orange:#e04040 !important;--app-claude-clay-button-orange:#b82030 !important}"
  ++ nl :: ".inputContainer_cKsPxg{border-color:rgba(224,64,64,0.25) !important}"
  ++ nl :: ".inputContainer_cKsPxg:focus-within{border-color:#e04040 !important;box-shadow:0 0 6px rgba(224,64,64,0.3) !important}"
  ++ nl :: ".inputFooter_gGYT1w{border-top-color:rgba(224,64,64,0.15) !important}".

(** What [patch_css] prints for each of its two blocks. *)
Inductive css_status := CssAppended | CssSkip.

Record css_result := {
  css_content : text;          (* the text in memory at the end *)
  css_changed : bool;          (* the file is rewritten only when set *)
  css_custom : css_status;
  css_palette : css_status;
  css_ok : bool                (* the return value *)
}.

Definition patch_css (content : text) : css_result :=
  let '(content, changed, r1) :=
    if negb (contains CSS_SELECTOR content)
    then (content ++ custom_css, true, CssAppended)
    else (content, false, CssSkip) in
  let '(content, changed, r2) :=
    if negb (contains ST_MARKER content)
    then (content ++ st_css, true, CssAppended)
    else (content, changed, CssSkip) in
  {| css_content := content; css_changed := changed;
     css_custom := r1; css_palette := r2; css_ok := true |}.

(** The stylesheet file after [patch_css]. *)
Definition css_file_after (content : text) : text :=
  let r := patch_css content in
  if css_changed r then css_content r else content.


(** ** Python slices and whitespace *)

(** [s[i:j]] for [0 <= i]. *)
Definition slice (i j : nat) (s : text) : text := firstn (j - i) (skipn i s).

Definition in_range (lo hi : N) (c : ascii) : bool :=
  N.leb lo (N_of_ascii c) && N.leb (N_of_ascii c) hi.

(** [c.isspace()] on the 8-bit characters. *)
Definition is_space (c : ascii) : bool :=
  in_range 9 13 c || in_range 28 32 c
  || N.eqb (N_of_ascii c) 133 || N.eqb (N_of_ascii c) 160.

Fixpoint lstrip (s : text) : text :=
  match s with
  | c :: s' => if is_space c then lstrip s' else s
  | [] => []
  end.

(** [s.rstrip()] *)
Definition rstrip (s : text) : text := rev (lstrip (rev s)).

(** [s.strip()] *)
Definition strip (s : text) : text := rstrip (lstrip s).

(** ** Regular expressions

    The fragment of Python's [re] syntax the source uses.  Repetition is
    always applied to a character class in the source, so [Rep] carries the
    class; [Rep true] is the greedy star, [Rep false] the lazy one. *)
Inductive regex :=
| Lit (l : text)                      (* a literal (escaped) string *)
| Cls (p : ascii -> bool)             (* one character of a class *)
| Seq (r1 r2 : regex)                 (* concatenation *)
| Rep (greedy : bool) (p : ascii -> bool)
| Opt (r : regex)                     (* greedy [r?] *)
| Grp (n : nat) (r : regex)           (* capture group number [n] *)
| Eos.                                (* [$] *)

(** Captured groups, most recent first. *)
Definition captures := list (nat * text).

Fixpoint group (n : nat) (g : captures) : text :=
  match g with
  | [] => []
  | (m, t) :: g' => if Nat.eqb n m then t else group n g'
  end.

(** A match in progress ends with the number of characters consumed and the
    captures. *)
Definition outcome := option (nat * captures).

(** Greedy repetition: the longest run first, then shorter ones; [n] counts
    the characters consumed before [s]. *)
Fixpoint rep_greedy (p : ascii -> bool) (s : text) (n : nat)
                    (k : text -> nat -> outcome) : outcome :=
  match s with
  | c :: s' =>
      if p c then
        match rep_greedy p s' (S n) k with
        | Some x => Some x
        | None => k s n
        end
      else k s n
  | [] => k [] n
  end.

(** Lazy repetition: the shortest run first. *)
Fixpoint rep_lazy (p : ascii -> bool) (s : text) (n : nat)
                  (k : text -> nat -> outcome) : outcome :=
  match k s n with
  | Some x => Some x
  | None =>
      match s with
      | c :: s' => if p c then rep_lazy p s' (S n) k else None
      | [] => None
      end
  end.

(** The backtracking matcher, in continuation-passing style: [s] is the
    text still to be read, [n] the number of characters consumed so far,
    [g] the groups captured so far and [k] what remains to be matched
    after [r]. *)
Fixpoint rmatch (r : regex) (s : text) (n : nat) (g : captures)
                (k : text -> nat -> captures -> outcome) : outcome :=
  match r with
  | Lit l => if starts_with l s then k (skipn (length l) s) (n + length l) g
             else None
  | Cls p => match s with
             | c :: s' => if p c then k s' (S n) g else None
             | [] => None
             end
  | Seq r1 r2 => rmatch r1 s n g (fun s' n' g' => rmatch r2 s' n' g' k)
  | Rep true p => rep_greedy p s n (fun s' n' => k s' n' g)
  | Rep false p => rep_lazy p s n (fun s' n' => k s' n' g)
  | Opt r1 => match rmatch r1 s n g k with
              | Some x => Some x
              | None => k s n g
              end
  | Grp i r1 =>
      rmatch r1 s n g (fun s' n' g' => k s' n' ((i, firstn (n' - n) s) :: g'))
  | Eos => match s with
           | [] => k s n g
           | [c] => if Ascii.eqb c nl then k s n g else None
           | _ => None
           end
  end.

(** [re.match(r, s)]: the length of the match at the start of [s]. *)
Definition match_at (r : regex) (s : text) : option (nat * captures) :=
  rmatch r s 0 [] (fun _ n g => Some (n, g)).

(** A match: where it starts, how long it is, what it captured. *)
Record rmatch_info := { m_start : nat; m_len : nat; m_groups : captures }.

Definition m_end (m : rmatch_info) : nat := m_start m + m_len m.

Definition shift_match (m : rmatch_info) : rmatch_info :=
  {| m_start := S (m_start m); m_len := m_len m; m_groups := m_groups m |}.

(** [re.search(r, s)]: the leftmost match. *)
Fixpoint re_search (r : regex) (s : text) : option rmatch_info :=
  match match_at r s with
  | Some (n, g) => Some {| m_start := 0; m_len := n; m_groups := g |}
  | None =>
      match s with
      | [] => None
      | _ :: s' => option_map shift_match (re_search r s')
      end
  end.

(** [re.sub(r, repl, s, count=1)]; [repl] builds the replacement from the
    captured groups. *)
Definition re_sub1 (r : regex) (repl : captures -> text) (s : text) : text :=
  match re_search r s with
  | Some m => firstn (m_start m) s ++ repl (m_groups m) ++ skipn (m_end m) s
  | None => s
  end.

(** [re.sub(r, repl, s)]: every match, left to right, without overlap;
    [skip] counts the characters of the last match still to be dropped. *)
Fixpoint re_sub_from (r : regex) (repl : captures -> text) (skip : nat)
                     (s : text) : text :=
  match s with
  | [] => match skip, match_at r [] with
          | O, Some (_, g) => repl g
          | _, _ => []
          end
  | c :: s' =>
      match skip with
      | S k => re_sub_from r repl k s'
      | O =>
          match match_at r s with
          | Some (O, g) => repl g ++ c :: re_sub_from r repl 0 s'
          | Some (S n, g) => repl g ++ re_sub_from r repl n s'
          | None => c :: re_sub_from r repl 0 s'
          end
      end
  end.

Definition re_sub (r : regex) (repl : captures -> text) (s : text) : text :=
  re_sub_from r repl 0 s.

(** [list(re.finditer(r, s))] for a pattern that matches no empty string:
    the matches left to right, without overlap; [pos] is the index of the
    head of [s] in the whole text. *)
Fixpoint finditer_from (r : regex) (pos skip : nat) (s : text) : list rmatch_info :=
  match s with
  | [] => []
  | _ :: s' =>
      match skip with
      | S k => finditer_from r (S pos) k s'
      | O =>
          match match_at r s with
          | Some (n, g) =>
              {| m_start := pos; m_len := n; m_groups := g |}
              :: finditer_from r (S pos) (n - 1) s'
          | None => finditer_from r (S pos) 0 s'
          end
      end
  end.

Definition finditer (r : regex) (s : text) : list rmatch_info :=
  finditer_from r 0 0 s.

(** ** JavaScript identifiers *)

Definition is_alpha (c : ascii) : bool := in_range 97 122 c || in_range 65 90 c.
Definition is_digit (c : ascii) : bool := in_range 48 57 c.

(** [[\$_a-zA-Z]] *)
Definition is_id_start (c : ascii) : bool :=
  Ascii.eqb c "$" || Ascii.eqb c "_" || is_alpha c.

(** [[\$_a-zA-Z0-9]] *)
Definition is_id_char (c : ascii) : bool := is_id_start c || is_digit c.

(** [_JS_ID]: an identifier starting with [$], [_] or a letter. *)
Definition _JS_ID : regex := Seq (Cls is_id_start) (Rep true is_id_char).

Definition any_char (_ : ascii) : bool := true.
Definition not_char (c : ascii) (x : ascii) : bool := negb (Ascii.eqb x c).

(** [r1 r2 ... rn] *)
Fixpoint seq (rs : list regex) : regex :=
  match rs with
  | [] => Lit []
  | [r] => r
  | r :: rs' => Seq r (seq rs')
  end.

(** [p+], greedy *)
Definition plus (p : ascii -> bool) : regex := Seq (Cls p) (Rep true p).

(** ** Anchor resolvers *)

(** [detect_css_module_var]: the style-module handle before [.inputFooter]. *)
Definition detect_css_module_var (content : text) : text :=
  match re_search (Seq (Grp 1 _JS_ID) (Lit ".inputFooter")) content with
  | Some m => group 1 (m_groups m)
  | None => "WJ"
  end.

(** [detect_react_var]: the UI-library handle of the
    [return XX.default.createElement("div",{className:CSS.inputFooter}] site. *)
Definition detect_react_var (content css_var : text) : text :=
  let pattern :=
    seq [Lit "return "; Grp 1 _JS_ID;
         Lit (".default.createElement(" ++ dq :: "div" ++ dq :: ",{className:"
              ++ css_var ++ ".inputFooter}")] in
  match re_search pattern content with
  | Some m => group 1 (m_groups m)
  | None =>
      let loose :=
        seq [Grp 1 _JS_ID;
             Lit (".default.createElement(" ++ dq :: "div" ++ dq :: ",{className:");
             _JS_ID; Lit ".inputFooter}"] in
      match re_search loose content with
      | Some m => group 1 (m_groups m)
      | None => "n4"
      end
  end.

Definition CC_MetricsBar : text := "CC_MetricsBar".

(** [detect_footer_component]: the first child rendered inside the
    [inputFooter] container. *)
Definition detect_footer_component (content css_var : text) : text :=
  let pattern :=
    seq [Lit ("className:" ++ css_var ++ ".inputFooter},"); Grp 1 _JS_ID;
         Lit ".default.createElement("; Grp 2 _JS_ID] in
  match re_search pattern content with
  | Some m =>
      let comp := group 2 (m_groups m) in
      if list_eq_dec ascii_dec comp CC_MetricsBar then
        let pattern2 :=
          seq [Lit "createElement(CC_MetricsBar"; Rep true (not_char ")");
               Lit "),"; Grp 1 _JS_ID; Lit ".default.createElement(";
               Grp 2 _JS_ID] in
        match re_search pattern2 content with
        | Some m2 => group 2 (m_groups m2)
        | None => comp
        end
      else comp
  | None => "dP1"
  end.

(** [content.find(f'className:{css_var}.inputFooter')], then the spelling
    with a space after the colon. *)
Definition find_footer_pos (content css_var : text) : option nat :=
  match find ("className:" ++ css_var ++ ".inputFooter") content with
  | Some p => Some p
  | None => find ("className: " ++ css_var ++ ".inputFooter") content
  end.

Definition SEARCH_WINDOW : nat := 5000.

(** [content[max(0, footer_pos - 5000):footer_pos]] *)
Definition footer_chunk (content : text) (footer_pos : nat) : text :=
  slice (footer_pos - SEARCH_WINDOW) footer_pos content.

(** [detect_signal_hook]: the call that opens the body of the last function
    defined in the window before the footer. *)
Definition detect_signal_hook (content css_var : text) : text :=
  match find_footer_pos content css_var with
  | None => "_Z"
  | Some footer_pos =>
      let chunk := footer_chunk content footer_pos in
      let fn_matches :=
        finditer (seq [Lit "function "; _JS_ID; Lit "({";
                       plus (not_char "}"); Lit "}){"]) chunk in
      let fn_matches :=
        match fn_matches with
        | [] => finditer (seq [Lit "function "; _JS_ID; Lit "(";
                               plus (not_char ")"); Lit "){"]) chunk
        | _ => fn_matches
        end in
      match rev fn_matches with
      | [] => "_Z"
      | last_match :: _ =>
          let body_start := m_end last_match in
          let body := slice body_start (body_start + 30) chunk in
          match match_at (Seq (Grp 1 _JS_ID) (Lit "()")) body with
          | Some (_, g) => group 1 g
          | None => "_Z"
          end
      end
  end.

(** [detect_footer_function]: the name of the last [function NAME(] in the
    window before the footer; [None] when there is none. *)
Definition detect_footer_function (content css_var : text) : option text :=
  match find_footer_pos content css_var with
  | None => None
  | Some footer_pos =>
      let chunk := footer_chunk content footer_pos in
      let matches :=
        finditer (seq [Lit "function "; Grp 1 _JS_ID; Lit "("]) chunk in
      match rev matches with
      | [] => None
      | last_match :: _ => Some (group 1 (m_groups last_match))
      end
  end.

(** ** The literals of the transform catalog

    Each constant is written as its lines; a line is the list of its pieces
    between double quotes. *)

Fixpoint join_dq (segs : list string) : text :=
  match segs with
  | [] => []
  | [x] => list_ascii_of_string x
  | x :: segs' => list_ascii_of_string x ++ dq :: join_dq segs'
  end.

Definition of_lines (ls : list (list string)) : text :=
  join_nl (map join_dq ls).

(** The injected component, with the placeholders [n4], [_Z] and [__DUSTIN_B64__]. *)
Definition _METRICS_TEMPLATE : text :=
  of_lines [
    [];
    ["var _ccSessionStart = Date.now();"];
    ["var _ccAccent = "; "#e04040"; ";"];
    ["var _ccDim = "; "rgba(255,255,255,0.55)"; ";"];
    ["function _ccV(t) { return n4.default.createElement("; "span"; ", { className: "; "cc-accent"; ", style: { color: _ccAccent } }, t); }"];
    ["var _ccP = {"];
    ["  brain: [["; "path"; ",{d:"; "M12 18V5"; "}],["; "path"; ",{d:"; "M15 13a4.17 4.17 0 0 1-3-4 4.17 4.17 0 0 1-3 4"; "}],["; "path"; ",{d:"; "M17.598 6.5A3 3 0 1 0 12 5a3 3 0 1 0-5.598 1.5"; "}],["; "path"; ",{d:"; "M17.997 5.125a4 4 0 0 1 2.526 5.77"; "}],["; "path"; ",{d:"; "M18 18a4 4 0 0 0 2-7.464"; "}],["; "path"; ",{d:"; "M19.967 17.483A4 4 0 1 1 12 18a4 4 0 1 1-7.967-.517"; "}],["; "path"; ",{d:"; "M6 18a4 4 0 0 1-2-7.464"; "}],["; "path"; ",{d:"; "M6.003 5.125a4 4 0 0 0-2.526 5.77"; "}]],"];
    ["  dollar: [["; "line"; ",{x1:"; "12"; ",x2:"; "12"; ",y1:"; "2"; ",y2:"; "22"; "}],["; "path"; ",{d:"; "M17 5H9.5a3.5 3.5 0 0 0 0 7h5a3.5 3.5 0 0 1 0 7H6"; "}]],"];
    ["  layers: [["; "path"; ",{d:"; "M12.83 2.18a2 2 0 0 0-1.66 0L2.6 6.08a1 1 0 0 0 0 1.83l8.58 3.91a2 2 0 0 0 1.66 0l8.58-3.9a1 1 0 0 0 0-1.83z"; "}],["; "path"; ",{d:"; "M2 12a1 1 0 0 0 .58.91l8.6 3.91a2 2 0 0 0 1.65 0l8.58-3.9A1 1 0 0 0 22 12"; "}],["; "path"; ",{d:"; "M2 17a1 1 0 0 0 .58.91l8.6 3.91a2 2 0 0 0 1.65 0l8.58-3.9A1 1 0 0 0 22 17"; "}]],"];
    ["  arrowDown: [["; "path"; ",{d:"; "M12 17V3"; "}],["; "path"; ",{d:"; "m6 11 6 6 6-6"; "}],["; "path"; ",{d:"; "M19 21H5"; "}]],"];
    ["  arrowUp: [["; "path"; ",{d:"; "m18 9-6-6-6 6"; "}],["; "path"; ",{d:"; "M12 3v14"; "}],["; "path"; ",{d:"; "M5 21h14"; "}]],"];
    ["  zap: [["; "path"; ",{d:"; "M4 14a1 1 0 0 1-.78-1.63l9.9-10.2a.5.5 0 0 1 .86.46l-1.92 6.02A1 1 0 0 0 13 10h7a1 1 0 0 1 .78 1.63l-9.9 10.2a.5.5 0 0 1-.86-.46l1.92-6.02A1 1 0 0 0 11 14z"; "}]],"];
    ["  calDays: [["; "path"; ",{d:"; "M8 2v4"; "}],["; "path"; ",{d:"; "M16 2v4"; "}],["; "rect"; ",{width:"; "18"; ",height:"; "18"; ",x:"; "3"; ",y:"; "4"; ",rx:"; "2"; "}],["; "path"; ",{d:"; "M3 10h18"; "}],["; "path"; ",{d:"; "M8 14h.01"; "}],["; "path"; ",{d:"; "M12 14h.01"; "}],["; "path"; ",{d:"; "M16 14h.01"; "}],["; "path"; ",{d:"; "M8 18h.01"; "}],["; "path"; ",{d:"; "M12 18h.01"; "}],["; "path"; ",{d:"; "M16 18h.01"; "}]],"];
    ["  timer: [["; "line"; ",{x1:"; "10"; ",x2:"; "14"; ",y1:"; "2"; ",y2:"; "2"; "}],["; "line"; ",{x1:"; "12"; ",x2:"; "15"; ",y1:"; "14"; ",y2:"; "11"; "}],["; "circle"; ",{cx:"; "12"; ",cy:"; "14"; ",r:"; "8"; "}]],"];
    ["  refresh: [["; "path"; ",{d:"; "M3 12a9 9 0 0 1 9-9 9.75 9.75 0 0 1 6.74 2.74L21 8"; "}],["; "path"; ",{d:"; "M21 3v5h-5"; "}],["; "path"; ",{d:"; "M21 12a9 9 0 0 1-9 9 9.75 9.75 0 0 1-6.74-2.74L3 16"; "}],["; "path"; ",{d:"; "M8 16H3v5"; "}]],"];
    ["  clock: [["; "path"; ",{d:"; "M12 6v6l4 2"; "}],["; "circle"; ",{cx:"; "12"; ",cy:"; "12"; ",r:"; "10"; "}]],"];
    ["  calClock: [["; "path"; ",{d:"; "M16 14v2.2l1.6 1"; "}],["; "path"; ",{d:"; "M16 2v4"; "}],["; "path"; ",{d:"; "M21 7.5V6a2 2 0 0 0-2-2H5a2 2 0 0 0-2 2v14a2 2 0 0 0 2 2h3.5"; "}],["; "path"; ",{d:"; "M3 10h5"; "}],["; "path"; ",{d:"; "M8 2v4"; "}],["; "circle"; ",{cx:"; "16"; ",cy:"; "16"; ",r:"; "6"; "}]],"];
    ["  dot: [["; "circle"; ",{cx:"; "12"; ",cy:"; "12"; ",r:"; "10"; "}],["; "circle"; ",{cx:"; "12"; ",cy:"; "12"; ",r:"; "1"; "}]],"];
    ["  msgSquare: [["; "path"; ",{d:"; "M21 15a2 2 0 0 1-2 2H7l-4 4V5a2 2 0 0 1 2-2h14a2 2 0 0 1 2 2z"; "}]],"];
    ["  gauge: [["; "path"; ",{d:"; "m12 14 4-4"; "}],["; "path"; ",{d:"; "M3.34 19a10 10 0 1 1 17.32 0"; "}]],"];
    ["  folder: [["; "path"; ",{d:"; "M20 20a2 2 0 0 0 2-2V8a2 2 0 0 0-2-2h-7.9a2 2 0 0 1-1.69-.9L9.6 3.9A2 2 0 0 0 7.93 3H4a2 2 0 0 0-2 2v13a2 2 0 0 0 2 2z"; "}]],"];
    ["  gitBr: [["; "line"; ",{x1:"; "6"; ",x2:"; "6"; ",y1:"; "3"; ",y2:"; "15"; "}],["; "circle"; ",{cx:"; "18"; ",cy:"; "6"; ",r:"; "3"; "}],["; "circle"; ",{cx:"; "6"; ",cy:"; "18"; ",r:"; "3"; "}],["; "path"; ",{d:"; "M18 9a9 9 0 0 1-9 9"; "}]],"];
    ["};"];
    ["function _ccIcon(name, sz, clr) {"];
    ["  var paths = _ccP[name];"];
    ["  if (!paths) return null;"];
    ["  var children = paths.map(function(p) {"];
    ["    var tag = p[0], a = p[1], props = { fill: "; "none"; ", stroke: clr || _ccAccent, strokeWidth: "; "2"; ", strokeLinecap: "; "round"; ", strokeLinejoin: "; "round"; " };"];
    ["    for (var k in a) props[k] = a[k];"];
    ["    if (tag === "; "circle"; " && name === "; "dot"; " && a.r === "; "1"; ") { props.fill = clr || _ccAccent; }"];
    ["    return n4.default.createElement(tag, props);"];
    ["  });"];
    ["  return n4.default.createElement("; "svg"; ", { xmlns: "; "http://www.w3.org/2000/svg"; ", width: sz || 12, height: sz || 12, viewBox: "; "0 0 24 24"; ", fill: "; "none"; ", style: { display: "; "inline-block"; ", verticalAlign: "; "middle"; ", marginRight: "; "3px"; ", flexShrink: 0 } }, children);"];
    ["}"];
    ["function _ccBar(pct, color, w) {"];
    ["  var p = Math.min(100, Math.max(0, pct));"];
    ["  return n4.default.createElement("; "span"; ", { style: { display: "; "inline-flex"; ", alignItems: "; "center"; ", verticalAlign: "; "middle"; ", width: (w || 50) + "; "px"; ", height: "; "6px"; ", background: "; "rgba(255,255,255,0.08)"; ", borderRadius: "; "3px"; ", overflow: "; "hidden"; ", margin: "; "0 3px"; " } },"];
    ["    n4.default.createElement("; "span"; ", { style: { width: p + "; "%"; ", height: "; "100%"; ", background: color, borderRadius: "; "3px"; ", transition: "; "width 0.3s ease"; " } })"];
    ["  );"];
    ["}"];
    ["var _ccDustinImg = "; "data:image/png;base64,__DUSTIN_B64__"; ";"];
    ["function _ccAvatar() {"];
    ["  return n4.default.createElement("; "div"; ", { style: { display: "; "flex"; ", flexDirection: "; "column"; ", alignItems: "; "center"; ", gap: "; "2px"; ", flexShrink: 0 } },"];
    ["    n4.default.createElement("; "img"; ", { src: _ccDustinImg, style: { width: "; "48px"; ", height: "; "48px"; ", borderRadius: "; "6px"; ", border: "; "1px solid rgba(255,255,255,0.12)"; ", background: "; "rgba(255,255,255,0.04)"; ", objectFit: "; "contain"; " } }),"];
    ["    n4.default.createElement("; "span"; ", { style: { fontSize: "; "8px"; ", fontWeight: "; "bold"; ", letterSpacing: "; "1.5px"; ", background: "; "linear-gradient(90deg, #e04040, #ff6644, #e04040)"; ", WebkitBackgroundClip: "; "text"; ", WebkitTextFillColor: "; "transparent"; ", textShadow: "; "none"; " } }, "; "DUSTIN"; ")"];
    ["  );"];
    ["}"];
    ["function CC_MetricsBar({ session: S }) {"];
    ["  _Z();"];
    ["  n4.useEffect(function() {"];
    ["    S.requestUsageUpdate();"];
    ["    var _t = setInterval(function() { S.requestUsageUpdate(); }, 60000);"];
    ["    return function() { clearInterval(_t); };"];
    ["  }, []);"];
    ["  var _compactRef = n4.useRef({ count: 0, prevTokens: 0, wasLow: false });"];
    ["  var ud = S.usageData.value;"];
    ["  var model = S.currentMainLoopModel.value || "; "\u2014"; ";"];
    ["  var cost = ud.totalCost != null ? ud.totalCost.toFixed(4) : "; "0.0000"; ";"];
    ["  var busy = S.busy.value;"];
    ["  var rawIn = ud.inputTokens || 0;"];
    ["  var outTok = ud.outputTokens || 0;"];
    ["  var cacheCr = ud.cacheCreation || 0;"];
    ["  var cacheRd = ud.cacheRead || 0;"];
    ["  var totalIn = rawIn + cacheCr + cacheRd;"];
    ["  var cachePct = totalIn > 0 ? Math.round(cacheRd / totalIn * 100) : 0;"];
    ["  var totalTok = ud.totalTokens || 0;"];
    ["  var ctxWin = ud.contextWindow || 0;"];
    ["  var maxOut = ud.maxOutputTokens || 0;"];
    ["  var effectiveCtx = ctxWin - maxOut - 13000;"];
    ["  var ctxPct = effectiveCtx > 0 && totalTok > 0 ? Math.round(totalTok / effectiveCtx * 100) : 0;"];
    ["  var util = S.utilization.value;"];
    ["  var u5h = util && util.fiveHour ? util.fiveHour.utilization : null;"];
    ["  var u7d = util && util.sevenDay ? util.sevenDay.utilization : null;"];
    ["  var now = Date.now();"];
    ["  var lastMod = S.lastModifiedTime.value || now;"];
    ["  var ageSec = Math.floor((now - lastMod) / 1000);"];
    ["  var ageStr = ageSec < 60 ? ageSec + "; "s"; " : Math.floor(ageSec / 60) + "; "m"; ";"];
    ["  var sesMin = Math.floor((now - _ccSessionStart) / 60000);"];
    ["  var sesStr = sesMin < 60 ? sesMin + "; "m"; " : Math.floor(sesMin / 60) + "; "h"; " + (sesMin % 60) + "; "m"; ";"];
    ["  var _days = ["; "Sun"; ","; "Mon"; ","; "Tue"; ","; "Wed"; ","; "Thu"; ","; "Fri"; ","; "Sat"; "];"];
    ["  var r5h = util && util.fiveHour && util.fiveHour.resetsAt ? new Date(util.fiveHour.resetsAt) : null;"];
    ["  var r7d = util && util.sevenDay && util.sevenDay.resetsAt ? new Date(util.sevenDay.resetsAt) : null;"];
    ["  var r5hTime = r5h ? (r5h.getHours() < 10 ? "; "0"; " : "; EmptyString; ") + r5h.getHours() + "; ":"; " + (r5h.getMinutes() < 10 ? "; "0"; " : "; EmptyString; ") + r5h.getMinutes() : null;"];
    ["  var r5hMs = r5h ? Math.max(0, r5h.getTime() - now) : 0;"];
    ["  var r5hMin = Math.floor(r5hMs / 60000);"];
    ["  var r5hCd = r5hMs <= 0 ? "; "soon"; " : r5hMin < 60 ? r5hMin + "; "m"; " : Math.floor(r5hMin / 60) + "; "h"; " + (r5hMin % 60 < 10 ? "; "0"; " : "; EmptyString; ") + (r5hMin % 60) + "; "m"; ";"];
    ["  var r5hPct = r5hMs > 0 ? Math.min(100, Math.round((1 - r5hMs / 18000000) * 100)) : 100;"];
    ["  var r7dTime = r7d ? _days[r7d.getDay()] + "; " "; " + (r7d.getHours() < 10 ? "; "0"; " : "; EmptyString; ") + r7d.getHours() + "; ":"; " + (r7d.getMinutes() < 10 ? "; "0"; " : "; EmptyString; ") + r7d.getMinutes() : null;"];
    ["  var r7dMs = r7d ? Math.max(0, r7d.getTime() - now) : 0;"];
    ["  var r7dDays = Math.floor(r7dMs / 86400000);"];
    ["  var r7dHrs = Math.floor((r7dMs % 86400000) / 3600000);"];
    ["  var r7dCd = r7dMs <= 0 ? "; "soon"; " : r7dDays > 0 ? r7dDays + "; "d"; " + r7dHrs + "; "h"; " : r7dHrs + "; "h"; ";"];
    ["  var r7dPct = r7dMs > 0 ? Math.min(100, Math.round((1 - r7dMs / 604800000) * 100)) : 100;"];
    ["  var sep = { display: "; "inline"; ", opacity: "; "0.3"; ", margin: "; "0 3px"; " };"];
    ["  var row = { display: "; "flex"; ", gap: "; "6px"; ", alignItems: "; "center"; ", flexWrap: "; "wrap"; ", width: "; "100%"; " };"];
    ["  var itm = { display: "; "inline-flex"; ", alignItems: "; "center"; ", gap: "; "3px"; " };"];
    ["  var u5hStr = u5h != null ? Math.floor(u5h) + "; "%"; " : "; "--"; ";"];
    ["  var u7dStr = u7d != null ? Math.floor(u7d) + "; "%"; " : "; "--"; ";"];
    ["  var thinkLvl = S.thinkingLevel ? (S.thinkingLevel.value || "; "off"; ") : "; "off"; ";"];
    ["  var thinkColors = { off: _ccDim, low: "; "#44bb44"; ", medium: "; "#ddaa00"; ", high: "; "#ff4444"; " };"];
    ["  var thinkClr = thinkColors[thinkLvl] || _ccDim;"];
    ["  var msgCount = S.messages && S.messages.value ? S.messages.value.length : 0;"];
    ["  var outPct = maxOut > 0 && outTok > 0 ? Math.round(outTok / maxOut * 100) : 0;"];
    ["  var outMaxStr = maxOut > 0 ? (maxOut / 1000).toFixed(0) + "; "k"; " : "; "?"; ";"];
    ["  var costVal = parseFloat(cost);"];
    ["  var costRate = sesMin > 0 ? (costVal / sesMin * 60) : 0;"];
    ["  var costRateStr = costRate > 0 ? "; "$"; " + costRate.toFixed(2) + "; "/hr"; " : "; "--"; ";"];
    ["  var throughput = sesMin > 0 ? Math.round((rawIn + outTok) / sesMin) : 0;"];
    ["  var throughStr = throughput > 0 ? throughput.toLocaleString() + "; " tok/min"; " : "; "--"; ";"];
    ["  var cwdRaw = S.cwd && S.cwd.value ? S.cwd.value : "; EmptyString; ";"];
    ["  var cwdStr = cwdRaw.replace(/^\/home\/[^/]+/, "; "~"; ");"];
    ["  var cwdParts = cwdStr.split("; "/"; ");"];
    ["  if (cwdParts.length > 3) cwdStr = "; "~/"; " + cwdParts.slice(-2).join("; "/"; ");"];
    ["  var gitBr = S.gitBranch && S.gitBranch.value ? S.gitBranch.value : "; EmptyString; ";"];
    ["  if (_compactRef.current.prevTokens > 500 && totalTok < 100 && !_compactRef.current.wasLow) {"];
    ["    _compactRef.current.count += 1;"];
    ["    _compactRef.current.wasLow = true;"];
    ["  }"];
    ["  if (totalTok > 500) {"];
    ["    _compactRef.current.wasLow = false;"];
    ["  }"];
    ["  _compactRef.current.prevTokens = totalTok;"];
    ["  var compactCount = _compactRef.current.count;"];
    ["  return n4.default.createElement("; "div"; ", {"];
    ["    className: "; "sessionMetrics_cc"; ","];
    ["    style: {"];
    ["      display: "; "flex"; ","];
    ["      flexDirection: "; "row"; ","];
    ["      fontSize: "; "11px"; ","];
    ["      padding: "; "3px 6px"; ","];
    ["      borderBottom: "; ".5px solid rgba(224,64,64,0.15)"; ","];
    ["      gap: "; "8px"; ","];
    ["      alignItems: "; "center"; ","];
    ["      color: _ccDim,"];
    ["      overflow: "; "hidden"; ","];
    ["    },"];
    ["  },"];
    ["    n4.default.createElement("; "div"; ", { style: { display: "; "flex"; ", flexDirection: "; "column"; ", gap: "; "2px"; ", minWidth: 0 } },"];
    ["      n4.default.createElement("; "div"; ", { style: row },"];
    ["        n4.default.createElement("; "span"; ", { style: { display: "; "inline-flex"; ", alignItems: "; "center"; ", gap: "; "3px"; ", fontWeight: "; "600"; " } }, _ccIcon("; "brain"; ", 12, _ccAccent), _ccV(model)),"];
    ["        n4.default.createElement("; "span"; ", { style: sep }, "; "|"; "),"];
    ["        n4.default.createElement("; "span"; ", { style: itm }, _ccIcon("; "dollar"; ", 12, _ccAccent), _ccV("; "$"; " + cost)),"];
    ["        n4.default.createElement("; "span"; ", { style: sep }, "; "|"; "),"];
    ["        n4.default.createElement("; "span"; ", { style: itm }, _ccIcon("; "layers"; ", 12, _ccAccent), _ccBar(ctxPct, _ccAccent, 60), _ccV(ctxPct + "; "%"; "), "; "("; " + totalTok.toLocaleString() + "; "/"; " + (ctxWin > 0 ? (ctxWin / 1000).toFixed(0) + "; "k"; " : "; "?"; ") + "; ")"; "),"];
    ["        busy && n4.default.createElement("; "span"; ", { style: sep }, "; "|"; "),"];
    ["        busy && n4.default.createElement("; "span"; ", { style: { display: "; "inline-flex"; ", alignItems: "; "center"; ", gap: "; "3px"; ", color: _ccAccent, fontWeight: "; "bold"; " } }, _ccIcon("; "dot"; ", 12, "; "#ff4444"; "), "; "BUSY"; "),"];
    ["      ),"];
    ["      n4.default.createElement("; "div"; ", { style: row },"];
    ["        n4.default.createElement("; "span"; ", { style: itm }, _ccIcon("; "arrowDown"; ", 12, _ccAccent), "; "In:"; ", _ccV(totalIn.toLocaleString()), cachePct > 0 ? "; "("; " + cachePct + "; "% cached)"; " : null),"];
    ["        n4.default.createElement("; "span"; ", { style: sep }, "; "|"; "),"];
    ["        n4.default.createElement("; "span"; ", { style: itm }, _ccIcon("; "arrowUp"; ", 12, _ccAccent), "; "Out:"; ", _ccV(outTok.toLocaleString())),"];
    ["        cwdStr && n4.default.createElement("; "span"; ", { style: sep }, "; "|"; "),"];
    ["        cwdStr && n4.default.createElement("; "span"; ", { style: itm }, _ccIcon("; "folder"; ", 12, _ccAccent), _ccV(cwdStr)),"];
    ["        gitBr && n4.default.createElement("; "span"; ", { style: sep }, "; "|"; "),"];
    ["        gitBr && n4.default.createElement("; "span"; ", { style: itm }, _ccIcon("; "gitBr"; ", 12, _ccAccent), _ccV(gitBr)),"];
    ["      ),"];
    ["      n4.default.createElement("; "div"; ", { style: row },"];
    ["        n4.default.createElement("; "span"; ", { style: itm }, _ccIcon("; "zap"; ", 12, _ccAccent), "; "5hr:"; ", _ccBar(u5h || 0, _ccAccent, 40), _ccV(u5hStr)),"];
    ["        n4.default.createElement("; "span"; ", { style: sep }, "; "|"; "),"];
    ["        n4.default.createElement("; "span"; ", { style: itm }, _ccIcon("; "calDays"; ", 12, _ccAccent), "; "7d:"; ", _ccBar(u7d || 0, _ccAccent, 40), _ccV(u7dStr)),"];
    ["        n4.default.createElement("; "span"; ", { style: sep }, "; "\u2502"; "),"];
    ["        n4.default.createElement("; "span"; ", { style: itm }, _ccIcon("; "timer"; ", 12, _ccAccent), _ccV(sesStr)),"];
    ["        n4.default.createElement("; "span"; ", { style: sep }, "; "|"; "),"];
    ["        n4.default.createElement("; "span"; ", { style: itm }, _ccIcon("; "refresh"; ", 12, _ccAccent), _ccV(ageStr), "; "ago"; "),"];
    ["      ),"];
    ["      n4.default.createElement("; "div"; ", { style: row },"];
    ["        n4.default.createElement("; "span"; ", { style: itm }, _ccIcon("; "clock"; ", 12, _ccAccent), "; "5h reset"; ", r5hTime ? _ccV(r5hTime) : _ccV("; "--"; "), r5hCd ? "; "("; " + r5hCd + "; ")"; " : null, _ccBar(r5hPct, _ccAccent, 40)),"];
    ["        n4.default.createElement("; "span"; ", { style: sep }, "; "|"; "),"];
    ["        n4.default.createElement("; "span"; ", { style: itm }, _ccIcon("; "calClock"; ", 12, _ccAccent), "; "7d reset"; ", r7dTime ? _ccV(r7dTime) : _ccV("; "--"; "), r7dCd ? "; "("; " + r7dCd + "; ")"; " : null, _ccBar(r7dPct, _ccAccent, 40)),"];
    ["      ),"];
    ["      n4.default.createElement("; "div"; ", { style: row },"];
    ["        n4.default.createElement("; "span"; ", { style: itm }, _ccIcon("; "brain"; ", 12, thinkClr), "; "Think:"; ", n4.default.createElement("; "span"; ", { style: { color: thinkClr, fontWeight: "; "bold"; " } }, thinkLvl.toUpperCase())),"];
    ["        n4.default.createElement("; "span"; ", { style: sep }, "; "|"; "),"];
    ["        n4.default.createElement("; "span"; ", { style: itm }, _ccIcon("; "msgSquare"; ", 12, _ccAccent), _ccV(msgCount + "; EmptyString; "), "; "msgs"; "),"];
    ["        n4.default.createElement("; "span"; ", { style: sep }, "; "|"; "),"];
    ["        n4.default.createElement("; "span"; ", { style: itm }, _ccIcon("; "arrowUp"; ", 12, _ccAccent), "; "Out:"; ", _ccBar(outPct, _ccAccent, 40), _ccV(outPct + "; "%"; "), "; "("; " + outTok.toLocaleString() + "; "/"; " + outMaxStr + "; ")"; "),"];
    ["      ),"];
    ["      n4.default.createElement("; "div"; ", { style: row },"];
    ["        n4.default.createElement("; "span"; ", { style: itm }, _ccIcon("; "dollar"; ", 12, _ccAccent), _ccV(costRateStr)),"];
    ["        n4.default.createElement("; "span"; ", { style: sep }, "; "|"; "),"];
    ["        n4.default.createElement("; "span"; ", { style: itm }, _ccIcon("; "gauge"; ", 12, _ccAccent), _ccV(throughStr)),"];
    ["        compactCount > 0 && n4.default.createElement("; "span"; ", { style: sep }, "; "|"; "),"];
    ["        compactCount > 0 && n4.default.createElement("; "span"; ", { style: itm }, _ccIcon("; "layers"; ", 12, _ccAccent), "; "Compact:"; ", _ccV(compactCount + "; "x"; ")),"];
    ["      ),"];
    ["    ),"];
    ["    _ccAvatar(),"];
    ["  );"];
    ["}"];
    []].

(** The usageData signal, prettified. *)
Definition USAGE_DATA_ORIGINAL : text :=
  of_lines [
    ["  usageData = g1({"];
    ["    totalTokens: 0,"];
    ["    totalCost: 0,"];
    ["    contextWindow: 0,"];
    ["    maxOutputTokens: 0,"];
    ["  });"]].

Definition USAGE_DATA_PATCHED : text :=
  of_lines [
    ["  usageData = g1({"];
    ["    totalTokens: 0,"];
    ["    totalCost: 0,"];
    ["    contextWindow: 0,"];
    ["    maxOutputTokens: 0,"];
    ["    inputTokens: 0,"];
    ["    outputTokens: 0,"];
    ["    cacheCreation: 0,"];
    ["    cacheRead: 0,"];
    ["  });"]].

(** The updateUsage() assignment, prettified. *)
Definition UPDATE_USAGE_ORIGINAL : text :=
  of_lines [
    ["    this.usageData.value = {"];
    ["      totalTokens: J,"];
    ["      totalCost: Z.totalCost,"];
    ["      contextWindow: Z.contextWindow,"];
    ["      maxOutputTokens: Z.maxOutputTokens,"];
    ["    };"];
    ["  }"]].

Definition UPDATE_USAGE_PATCHED : text :=
  of_lines [
    ["    this.usageData.value = {"];
    ["      totalTokens: J,"];
    ["      totalCost: Z.totalCost,"];
    ["      contextWindow: Z.contextWindow,"];
    ["      maxOutputTokens: Z.maxOutputTokens,"];
    ["      inputTokens: $.input_tokens || 0,"];
    ["      outputTokens: (Z.outputTokens || 0) + ($.output_tokens || 0),"];
    ["      cacheCreation: $.cache_creation_input_tokens || 0,"];
    ["      cacheRead: $.cache_read_input_tokens || 0,"];
    ["    };"];
    ["  }"]].

(** The updateUsage() assignment, minified. *)
Definition UPDATE_USAGE_MIN_ORIGINAL : text :=
  of_lines [
    ["usageData.value={totalTokens:J,totalCost:Z.totalCost,contextWindow:Z.contextWindow,maxOutputTokens:Z.maxOutputTokens}"]].

Definition UPDATE_USAGE_MIN_PATCHED : text :=
  of_lines [
    ["usageData.value={totalTokens:J,totalCost:Z.totalCost,contextWindow:Z.contextWindow,maxOutputTokens:Z.maxOutputTokens,inputTokens:$.input_tokens||0,outputTokens:(Z.outputTokens||0)+($.output_tokens||0),cacheCreation:$.cache_creation_input_tokens||0,cacheRead:$.cache_read_input_tokens||0}"]].

(** The result handler assignment, prettified. *)
Definition RESULT_HANDLER_ORIGINAL : text :=
  of_lines [
    ["        this.usageData.value = {"];
    ["          totalTokens: J.totalTokens,"];
    ["          totalCost: $.total_cost_usd,"];
    ["          contextWindow: X,"];
    ["          maxOutputTokens: Q,"];
    ["        };"]].

Definition RESULT_HANDLER_PATCHED : text :=
  of_lines [
    ["        this.usageData.value = {"];
    ["          totalTokens: J.totalTokens,"];
    ["          totalCost: $.total_cost_usd,"];
    ["          contextWindow: X,"];
    ["          maxOutputTokens: Q,"];
    ["          inputTokens: J.inputTokens || 0,"];
    ["          outputTokens: J.outputTokens || 0,"];
    ["          cacheCreation: J.cacheCreation || 0,"];
    ["          cacheRead: J.cacheRead || 0,"];
    ["        };"]].

(** The result handler assignment, minified. *)
Definition RESULT_HANDLER_MIN_ORIGINAL : text :=
  of_lines [
    ["usageData.value={totalTokens:J.totalTokens,totalCost:$.total_cost_usd,contextWindow:X,maxOutputTokens:Q}"]].

Definition RESULT_HANDLER_MIN_PATCHED : text :=
  of_lines [
    ["usageData.value={totalTokens:J.totalTokens,totalCost:$.total_cost_usd,contextWindow:X,maxOutputTokens:Q,inputTokens:J.inputTokens||0,outputTokens:J.outputTokens||0,cacheCreation:J.cacheCreation||0,cacheRead:J.cacheRead||0}"]].

(** The compact_boundary reset. *)
Definition COMPACT_ORIGINAL : text :=
  of_lines [
    ["{ ...this.usageData.value, totalTokens: 0 }"]].

Definition COMPACT_PATCHED : text :=
  of_lines [
    ["{ ...this.usageData.value, totalTokens: 0, inputTokens: 0, outputTokens: 0, cacheCreation: 0, cacheRead: 0 }"]].

Definition COMPACT_MIN_ORIGINAL : text :=
  of_lines [
    ["{...this.usageData.value,totalTokens:0}"]].

Definition COMPACT_MIN_PATCHED : text :=
  of_lines [
    ["{...this.usageData.value,totalTokens:0,inputTokens:0,outputTokens:0,cacheCreation:0,cacheRead:0}"]].

(** ** Code transforms: [patch_js] *)

(** [DUSTIN_IMG_B64] is read from an asset file when the script starts;
    it is a parameter [b64] of everything that depends on it. *)
Definition METRICS_COMPONENT_DEF (b64 : text) : text :=
  replace_all "__DUSTIN_B64__" b64 _METRICS_TEMPLATE.

Definition is_alnum (c : ascii) : bool := is_alpha c || is_digit c.

(** [usageData=XX({totalTokens:0,totalCost:0,contextWindow:0,maxOutputTokens:0})]
    with [XX] matching [[a-zA-Z][a-zA-Z0-9]*]. *)
Definition USAGE_DATA_MIN_PATTERN : regex :=
  seq [Lit "usageData="; Grp 1 (Seq (Cls is_alpha) (Rep true is_alnum));
       Lit "({totalTokens:0,totalCost:0,contextWindow:0,maxOutputTokens:0})"].

Definition USAGE_DATA_MIN_REPLACE (g : captures) : text :=
  "usageData=" ++ group 1 g
  ++ "({totalTokens:0,totalCost:0,contextWindow:0,maxOutputTokens:0,inputTokens:0,outputTokens:0,cacheCreation:0,cacheRead:0})".

(** What a token-field transform prints. *)
Inductive field_status :=
| OkPrettified      (* OK: ... patched (prettified) *)
| OkMinified        (* OK: ... patched (minified) *)
| FieldSkip         (* SKIP: ... already patched *)
| FieldWarning.     (* WARNING: Could not find ... pattern *)

(** PATCH 0a *)
Definition patch_usage_data (content : text) : text * field_status :=
  if negb (contains "inputTokens:0" content)
     && negb (contains "inputTokens: 0," content) then
    if contains USAGE_DATA_ORIGINAL content then
      (replace1 USAGE_DATA_ORIGINAL USAGE_DATA_PATCHED content, OkPrettified)
    else match re_search USAGE_DATA_MIN_PATTERN content with
         | Some _ =>
             (re_sub1 USAGE_DATA_MIN_PATTERN USAGE_DATA_MIN_REPLACE content,
              OkMinified)
         | None => (content, FieldWarning)
         end
  else (content, FieldSkip).

(** PATCH 0b *)
Definition patch_update_usage (content : text) : text * field_status :=
  if negb (contains "inputTokens:$.input_tokens" content)
     && negb (contains "inputTokens: $.input_tokens" content) then
    if contains UPDATE_USAGE_ORIGINAL content then
      (replace1 UPDATE_USAGE_ORIGINAL UPDATE_USAGE_PATCHED content, OkPrettified)
    else if contains UPDATE_USAGE_MIN_ORIGINAL content then
      (replace1 UPDATE_USAGE_MIN_ORIGINAL UPDATE_USAGE_MIN_PATCHED content,
       OkMinified)
    else (content, FieldWarning)
  else (content, FieldSkip).

(** PATCH 0c *)
Definition patch_result_handler (content : text) : text * field_status :=
  if negb (contains "inputTokens:J.inputTokens" content)
     && negb (contains "inputTokens: J.inputTokens" content) then
    if contains RESULT_HANDLER_ORIGINAL content then
      (replace1 RESULT_HANDLER_ORIGINAL RESULT_HANDLER_PATCHED content,
       OkPrettified)
    else if contains RESULT_HANDLER_MIN_ORIGINAL content then
      (replace1 RESULT_HANDLER_MIN_ORIGINAL RESULT_HANDLER_MIN_PATCHED content,
       OkMinified)
    else (content, FieldWarning)
  else (content, FieldSkip).

(** PATCH 0d *)
Definition patch_compact (content : text) : text * field_status :=
  if contains COMPACT_ORIGINAL content then
    (replace1 COMPACT_ORIGINAL COMPACT_PATCHED content, OkPrettified)
  else if contains COMPACT_MIN_ORIGINAL content then
    (replace1 COMPACT_MIN_ORIGINAL COMPACT_MIN_PATCHED content, OkMinified)
  else if contains COMPACT_PATCHED content
          || contains COMPACT_MIN_PATCHED content then
    (content, FieldSkip)
  else (content, FieldWarning).

(** The four token-field transforms, in order. *)
Definition patch_token_fields (content : text)
  : text * (field_status * field_status * field_status * field_status) :=
  let '(content, s_a) := patch_usage_data content in
  let '(content, s_b) := patch_update_usage content in
  let '(content, s_c) := patch_result_handler content in
  let '(content, s_d) := patch_compact content in
  (content, (s_a, s_b, s_c, s_d)).

Definition DEF_MARKER : text := "function CC_MetricsBar".
Definition CALL_MARKER : text := "createElement(CC_MetricsBar".

(** The template with the resolved handles written in. *)
Definition metrics_def (b64 react_var signal_hook : text) : text :=
  replace_all "_Z();" (signal_hook ++ "();")
    (replace_all "n4." (react_var ++ ".") (METRICS_COMPONENT_DEF b64)).

(** The errors after which [patch_js] returns [False] without writing. *)
Inductive js_error :=
| NoFooterFunctionDefinition  (* Could not find footer function definition! *)
| NoFooterFunctionName        (* Could not detect footer function name! *)
| NoAnchor                    (* Could not find anchor ... in content! *)
| NoInjectionPoint            (* Could not find inputFooter injection point *)
| NoFooterReturn.             (* Could not find inputFooter return *)

Inductive def_status :=
| DefPrettified (line : nat)  (* defined at line ... (prettified) *)
| DefMinified                 (* defined before ... (minified) *)
| DefSkip.                    (* SKIP: CC_MetricsBar already defined *)

(** The index of the first line satisfying [P]. *)
Fixpoint find_line (P : text -> bool) (lines : list text) : option nat :=
  match lines with
  | [] => None
  | l :: rest => if P l then Some 0 else option_map S (find_line P rest)
  end.

(** [lines.insert(i, x)] for [i <= len(lines)]. *)
Definition insert_at (i : nat) (x : text) (lines : list text) : list text :=
  firstn i lines ++ x :: skipn i lines.

(** Python's truth value of [footer_fn]: [None] and the empty string are
    false. *)
Definition truthy (o : option text) : option text :=
  match o with
  | Some [] => None
  | _ => o
  end.

Definition or_else {A} (o1 o2 : option A) : option A :=
  match o1 with Some _ => o1 | None => o2 end.

(** The hard-coded fallback of the prettified branch:
    ['function Zi0({' in line or 'function Zi0(' in line]. *)
Definition fallback_line (line : text) : bool :=
  contains "function Zi0({" line || contains "function Zi0(" line.

(** PATCH 1a *)
Definition define_component (b64 : text) (prettified : bool)
    (css_var react_var signal_hook content : text)
  : js_error + text * def_status :=
  if negb (contains DEF_MARKER content) then
    let mdef := metrics_def b64 react_var signal_hook in
    if prettified then
      let lines := split_nl content in
      let footer_fn := detect_footer_function content css_var in
      let insert_line :=
        match truthy footer_fn with
        | Some fn => find_line (contains ("function " ++ fn ++ "(")) lines
        | None => None
        end in
      let insert_line := or_else insert_line (find_line fallback_line lines) in
      match insert_line with
      | None => inl NoFooterFunctionDefinition
      | Some i => inr (join_nl (insert_at i mdef lines), DefPrettified i)
      end
    else
      match truthy (detect_footer_function content css_var) with
      | None => inl NoFooterFunctionName
      | Some fn =>
          let anchor := "function " ++ fn ++ "(" in
          if negb (contains anchor content) then inl NoAnchor
          else inr (replace1 anchor (mdef ++ nl :: anchor) content, DefMinified)
      end
  else inr (content, DefSkip).

Inductive call_status :=
| CallSameLine (line : nat)   (* injected at line ... (same-line split) *)
| CallNextLine (line : nat)   (* injected at line ... *)
| CallMinified                (* injected as first child (minified) *)
| CallSkip                    (* SKIP: call already injected *)
| CallSilent.                 (* neither branch taken: nothing printed *)

Definition INDENT : text := "    ".

(** The inner loop over [lines[i+1 : i+5]]: insert [x] before the first
    line holding the footer component; [j] is the index of the head. *)
Fixpoint insert_before_comp (footer_comp x : text) (j : nat) (near : list text)
  : option (list text * nat) :=
  match near with
  | [] => None
  | l :: rest =>
      if contains footer_comp l then Some (x :: l :: rest, j)
      else match insert_before_comp footer_comp x (S j) rest with
           | Some (rest', j') => Some (l :: rest', j')
           | None => None
           end
  end.

Inductive inject_result :=
| Injected (lines : list text) (s : call_status)
| NotInjected
| RaisedValueError.            (* the uncaught [old_line.index(...)] *)

Definition keep_line (l : text) (r : inject_result) : inject_result :=
  match r with
  | Injected lines s => Injected (l :: lines) s
  | _ => r
  end.

(** The line loop of PATCH 1b (prettified); [i] is the index of the head. *)
Fixpoint inject_call_lines (css_var react_var footer_comp call : text)
    (i : nat) (lines : list text) : inject_result :=
  match lines with
  | [] => NotInjected
  | old_line :: rest =>
      let line := strip old_line in
      if contains ("{ className: " ++ css_var ++ ".inputFooter },") line
         || contains ("{className:" ++ css_var ++ ".inputFooter},") line then
        if contains footer_comp old_line then
          let comp_marker :=
            react_var ++ ".default.createElement(" ++ footer_comp in
          match or_else (find comp_marker old_line)
                  (find (".default.createElement(" ++ footer_comp) old_line) with
          | Some comp_idx =>
              Injected (rstrip (firstn comp_idx old_line)
                        :: (INDENT ++ call)
                        :: (INDENT ++ skipn comp_idx old_line) :: rest)
                       (CallSameLine (i + 1))
          | None => RaisedValueError
          end
        else
          match insert_before_comp footer_comp (INDENT ++ call) (i + 1)
                  (firstn 4 rest) with
          | Some (near, j) => Injected (old_line :: near ++ skipn 4 rest)
                                       (CallNextLine j)
          | None =>
              keep_line old_line
                (inject_call_lines css_var react_var footer_comp call (S i) rest)
          end
      else
        keep_line old_line
          (inject_call_lines css_var react_var footer_comp call (S i) rest)
  end.

Inductive call_result :=
| CallDone (content : text) (s : call_status)
| CallError (e : js_error)
| CallRaised.

Definition metrics_bar_call (react_var : text) : text :=
  react_var ++ ".default.createElement(CC_MetricsBar, { session: $ }),".

Definition old_return (react_var css_var : text) : text :=
  "return " ++ react_var ++ ".default.createElement(" ++ dq :: "div" ++ dq
  :: ",{className:" ++ css_var ++ ".inputFooter},".

(** PATCH 1b *)
Definition inject_call (prettified : bool)
    (css_var react_var footer_comp content : text) : call_result :=
  let call := metrics_bar_call react_var in
  if contains CC_MetricsBar content && negb (contains CALL_MARKER content) then
    if prettified then
      match inject_call_lines css_var react_var footer_comp call 0
              (split_nl content) with
      | Injected lines s => CallDone (join_nl lines) s
      | NotInjected => CallError NoInjectionPoint
      | RaisedValueError => CallRaised
      end
    else
      let old := old_return react_var css_var in
      if negb (contains old content) then CallError NoFooterReturn
      else CallDone (replace1 old (old ++ call) content) CallMinified
  else if contains CALL_MARKER content then CallDone content CallSkip
  else CallDone content CallSilent.

Inductive gate_status :=
| GateRemoved (old_pat : text)  (* OK: er0 visibility check removed *)
| GateSkip                      (* SKIP: er0 already patched *)
| GateWarning.                  (* WARNING: Could not find er0 ... *)

Definition GATE_MARKER : text := "/* patched: always show */".

Definition er0_patterns : list (text * text) :=
  [ ("if (U >= 50) return null;" : text, GATE_MARKER);
    ("if(U>=50)return null}" : text, "/*er0*/}" : text);
    ("if(U>=50)return null;" : text, GATE_MARKER) ].

(** The loop over the spellings, leaving at the first one present. *)
Fixpoint remove_first_gate (patterns : list (text * text)) (content : text)
  : option (text * text) :=
  match patterns with
  | [] => None
  | (old_pat, new_pat) :: rest =>
      if contains old_pat content
      then Some (replace1 old_pat new_pat content, old_pat)
      else remove_first_gate rest content
  end.

(** PATCH 2 *)
Definition remove_gate (content : text) : text * gate_status :=
  match remove_first_gate er0_patterns content with
  | Some (content', old_pat) => (content', GateRemoved old_pat)
  | None =>
      if contains GATE_MARKER content then (content, GateSkip)
      else (content, GateWarning)
  end.

Record js_log := {
  log_usage_data : field_status;
  log_update_usage : field_status;
  log_result_handler : field_status;
  log_compact : field_status;
  log_definition : def_status;
  log_call : call_status;
  log_gate : gate_status
}.

Inductive js_result :=
| JsWritten (content : text) (log : js_log)   (* file written, returns True *)
| JsFailed (e : js_error)                     (* returns False, no write *)
| JsRaised.                                   (* uncaught ValueError, no write *)

(** [patch_js] on the text read from [webview/index.js]. *)
Definition patch_js (b64 content : text) : js_result :=
  let prettified := is_prettified content in
  let css_var := detect_css_module_var content in
  let react_var := detect_react_var content css_var in
  let footer_comp := detect_footer_component content css_var in
  let signal_hook := detect_signal_hook content css_var in
  let '(content, (s_a, s_b, s_c, s_d)) := patch_token_fields content in
  match define_component b64 prettified css_var react_var signal_hook content with
  | inl e => JsFailed e
  | inr (content, s_def) =>
      match inject_call prettified css_var react_var footer_comp content with
      | CallError e => JsFailed e
      | CallRaised => JsRaised
      | CallDone content s_call =>
          let '(content, s_gate) := remove_gate content in
          JsWritten content
            {| log_usage_data := s_a; log_update_usage := s_b;
               log_result_handler := s_c; log_compact := s_d;
               log_definition := s_def; log_call := s_call;
               log_gate := s_gate |}
      end
  end.

(** The code file after [patch_js]. *)
Definition js_file_after (b64 content : text) : text :=
  match patch_js b64 content with
  | JsWritten content' _ => content'
  | _ => content
  end.

(** ** Verifier *)

(** The checklist of [verify]: a label and a predicate over the two texts. *)
Definition verify_checks (js css : text) : list (string * bool) :=
  [
    ("JS: _ccSessionStart defined", contains ("_ccSessionStart = Date.now()") js);
    ("JS: _ccAccent defined", contains (join_dq ["_ccAccent = "; "#e04040"; EmptyString]) js);
    ("JS: _ccDim defined", contains (join_dq ["_ccDim = "; "rgba(255,255,255,0.55)"; EmptyString]) js);
    ("JS: _ccV value helper", contains ("function _ccV(") js);
    ("JS: _ccP icon paths defined", (contains ("var _ccP = {") js && contains (join_dq [EmptyString; "brain"; EmptyString]) js));
    ("JS: _ccIcon function present", contains ("function _ccIcon(") js);
    ("JS: _ccBar helper present", contains ("function _ccBar(") js);
    ("JS: _ccDustinImg defined", (contains ("_ccDustinImg") js && contains ("data:image/png;base64,") js));
    ("JS: _ccAvatar function present", contains ("function _ccAvatar()") js);
    ("JS: metrics component present", contains ("function CC_MetricsBar") js);
    ("JS: metrics bar in DOM", contains ("sessionMetrics_cc") js);
    ("JS: CC_MetricsBar call injected", contains ("createElement(CC_MetricsBar") js);
    ("JS: row layout (flexDirection row)", contains (join_dq ["flexDirection: "; "row"; EmptyString]) js);
    ("JS: avatar called", contains ("_ccAvatar()") js);
    ("JS: icons used in Row1", (contains (join_dq ["_ccIcon("; "brain"; EmptyString]) js && contains (join_dq ["_ccIcon("; "dollar"; EmptyString]) js && contains (join_dq ["_ccIcon("; "layers"; EmptyString]) js));
    ("JS: icons used in Row2", (contains (join_dq ["_ccIcon("; "arrowDown"; EmptyString]) js && contains (join_dq ["_ccIcon("; "arrowUp"; EmptyString]) js));
    ("JS: icons used in Row3", (contains (join_dq ["_ccIcon("; "zap"; EmptyString]) js && contains (join_dq ["_ccIcon("; "calDays"; EmptyString]) js && contains (join_dq ["_ccIcon("; "timer"; EmptyString]) js));
    ("JS: icons used in Row4", (contains (join_dq ["_ccIcon("; "clock"; EmptyString]) js && contains (join_dq ["_ccIcon("; "calClock"; EmptyString]) js));
    ("JS: usageData has inputTokens", (contains ("inputTokens:0") js || contains ("inputTokens: 0,") js));
    ("JS: updateUsage stores individual tokens", (contains ("inputTokens:$.input_tokens") js || contains ("inputTokens: $.input_tokens") js));
    ("JS: result handler preserves tokens", (contains ("inputTokens:J.inputTokens") js || contains ("inputTokens: J.inputTokens") js));
    ("JS: compact_boundary resets tokens", (contains ("inputTokens:0,outputTokens:0") js || contains ("inputTokens: 0, outputTokens: 0") js));
    ("JS: Row2 shows totalIn with cache%", contains ("cachePct") js);
    ("JS: Row3 utilization signals", contains ("S.utilization.value") js);
    ("JS: Row3 session time", (contains ("_ccSessionStart") js && contains ("sesMin") js));
    ("JS: Row3 last activity", contains ("S.lastModifiedTime.value") js);
    ("JS: Row4 reset countdowns", (contains ("r5hTime") js && contains ("r7dCd") js && contains ("r7dPct") js));
    ("JS: er0 patched", (negb (contains ("if (U >= 50) return null;") js) && negb (contains ("if(U>=50)return null}") js) && negb (contains ("if(U>=50)return null;") js)));
    ("CSS: custom styles", contains (".sessionMetrics_cc") css);
    ("CSS: flex-wrap on inputFooter", contains ("flex-wrap:wrap") css);
    ("CSS: ST palette accent", contains ("--app-claude-orange:#e04040") css);
    ("CSS: ST palette button", contains ("--app-claude-clay-button-orange:#b82030") css);
    ("CSS: ST input border", (contains ("inputContainer_cKsPxg") css && contains ("rgba(224,64,64") css));
    ("JS: dim/accent color scheme", (contains ("_ccV(") js && contains ("color: _ccDim") js));
    ("JS: Row5 thinking level", (contains ("thinkLvl") js && contains ("thinkClr") js));
    ("JS: Row5 message count", contains ("msgCount") js);
    ("JS: Row5 output utilization", (contains ("outPct") js && contains ("outMaxStr") js));
    ("JS: Row6 cost rate", contains ("costRateStr") js);
    ("JS: Row6 throughput", contains ("throughStr") js);
    ("JS: Row6 compaction counter", (contains ("_compactRef") js && contains ("compactCount") js));
    ("JS: icons used in Row5", contains (join_dq ["_ccIcon("; "msgSquare"; EmptyString]) js);
    ("JS: icons used in Row6", contains (join_dq ["_ccIcon("; "gauge"; EmptyString]) js);
    ("JS: Row2 workdir display", (contains ("cwdStr") js && contains ("cwdRaw") js && contains ("S.cwd") js));
    ("JS: Row2 git branch display", (contains ("gitBr") js && contains ("S.gitBranch") js));
    ("JS: icons used in Row2 (folder+gitBr)", (contains (join_dq ["_ccIcon("; "folder"; EmptyString]) js && contains (join_dq ["_ccIcon("; "gitBr"; EmptyString]) js))
  ].

(** [verify]: every check passes. *)
Definition verify (js css : text) : bool :=
  forallb snd (verify_checks js css).

(** ** Reverser: [clean] *)

Definition is_nl (c : ascii) : bool := Ascii.eqb c nl.

Definition erase (_ : captures) : text := [].
Definition to_newline (_ : captures) : text := [nl].

(** The whole injected block of a minified artifact, from the newlines
    before [var _ccSessionStart] to the newlines after the closing brace of
    [CC_MetricsBar] (DOTALL). *)
Definition METRICS_BLOCK_PATTERN : regex :=
  seq [plus is_nl; Lit "var _ccSessionStart = Date.now();"; Rep false any_char;
       Lit "function CC_MetricsBar({"; Rep true (not_char "}"); Lit "})";
       Rep true (not_char nl); Lit [nl]; Rep false any_char;
       Lit (nl :: "}"); Rep true is_nl].

(** A one-line declaration [var NAME = "...";] between two newlines. *)
Definition var_line_pattern (name : text) : regex :=
  seq [Lit (nl :: "var " ++ name ++ " = " ++ [dq]); Rep true (not_char dq);
       Lit (dq :: ";" ++ [nl])].

(** A multi-line function from its header to the first line that is a
    closing brace (DOTALL). *)
Definition function_block_pattern (name : text) : regex :=
  seq [Lit (nl :: "function " ++ name ++ "("); Rep true (not_char ")");
       Lit ")"; Rep false any_char; Lit (nl :: "}" ++ [nl])].

(** The code half of [clean]. *)
Definition clean_js (js : text) : text :=
  let js :=
    if negb (is_prettified js) && contains "var _ccSessionStart" js
    then re_sub1 METRICS_BLOCK_PATTERN erase js
    else js in
  let js_clean :=
    re_sub1 (Lit (nl :: "var _ccSessionStart = Date.now();" ++ [nl]))
            to_newline js in
  let js_clean := re_sub1 (var_line_pattern "_ccAccent") to_newline js_clean in
  let js_clean := re_sub1 (var_line_pattern "_ccDim") to_newline js_clean in
  let js_clean :=
    re_sub (seq [Lit (nl :: "function _ccV("); Rep true (not_char ")");
                 Lit ")"; Rep true (not_char nl); Lit [nl]])
           to_newline js_clean in
  let js_clean :=
    re_sub1 (seq [Lit (nl :: "var _ccP = {"); Rep false any_char;
                  Lit (nl :: "};" ++ [nl])])
            to_newline js_clean in
  let js_clean := re_sub1 (function_block_pattern "_ccIcon") to_newline js_clean in
  let js_clean := re_sub1 (function_block_pattern "_ccBar") to_newline js_clean in
  let js_clean := re_sub1 (var_line_pattern "_ccDustinImg") to_newline js_clean in
  let js_clean :=
    re_sub1 (seq [Lit (nl :: "function _ccAvatar()"); Rep false any_char;
                  Lit (nl :: "}" ++ [nl])])
            to_newline js_clean in
  let js_clean :=
    re_sub1 (seq [Lit (nl :: "function CC_MetricsBar({"); Rep true (not_char "}");
                  Lit "}"; Rep false any_char; Lit (nl :: "}" ++ [nl])])
            to_newline js_clean in
  let js_clean :=
    re_sub1 (seq [_JS_ID; Lit ".default.createElement(CC_MetricsBar,";
                  Rep true is_space; Lit "{"; Rep true (not_char "}");
                  Lit "})"; Opt (Lit ",")])
            erase js_clean in
  let js_clean := replace_all USAGE_DATA_PATCHED USAGE_DATA_ORIGINAL js_clean in
  let js_clean :=
    re_sub (Lit ",inputTokens:0,outputTokens:0,cacheCreation:0,cacheRead:0}")
           (fun _ => "}" : text) js_clean in
  let js_clean := replace_all UPDATE_USAGE_PATCHED UPDATE_USAGE_ORIGINAL js_clean in
  let js_clean :=
    replace_all UPDATE_USAGE_MIN_PATCHED UPDATE_USAGE_MIN_ORIGINAL js_clean in
  let js_clean :=
    replace_all RESULT_HANDLER_PATCHED RESULT_HANDLER_ORIGINAL js_clean in
  let js_clean :=
    replace_all RESULT_HANDLER_MIN_PATCHED RESULT_HANDLER_MIN_ORIGINAL js_clean in
  let js_clean := replace_all COMPACT_PATCHED COMPACT_ORIGINAL js_clean in
  let js_clean := replace_all COMPACT_MIN_PATCHED COMPACT_MIN_ORIGINAL js_clean in
  let js_clean := replace_all "/*er0*/}" "if(U>=50)return null}" js_clean in
  let js_clean := replace_all GATE_MARKER "if (U >= 50) return null;" js_clean in
  js_clean.

(** The stylesheet half of [clean]: cut at the first appended marker
    (DOTALL, up to the end of the text). *)
Definition clean_css (css : text) : text :=
  let css :=
    re_sub (seq [Lit (nl :: "/* Custom Session Metrics Bar"); Rep true any_char;
                 Eos]) erase css in
  re_sub (seq [Lit (nl :: "/* ST palette */"); Rep true any_char; Eos])
         erase css.

(** ** The [apply] mode of [main] *)

Record run := {
  js_file : text;        (* webview/index.js when the process ends *)
  css_file : text;       (* webview/index.css when the process ends *)
  exit_code : nat
}.

(** [patch_js], [patch_css], [verify], then the exit code.  An uncaught
    exception ends the process at once with code 1. *)
Definition main_apply (b64 js css : text) : run :=
  match patch_js b64 js with
  | JsRaised => {| js_file := js; css_file := css; exit_code := 1 |}
  | r =>
      let ok1 := match r with JsWritten _ _ => true | _ => false end in
      let js' := match r with JsWritten c _ => c | _ => js end in
      let ok2 := css_ok (patch_css css) in
      let css' := css_file_after css in
      let ok3 := verify js' css' in
      {| js_file := js'; css_file := css';
         exit_code := if ok1 && ok2 && ok3 then 0 else 1 |}
  end.

(** The [clean] mode of [main]. *)
Definition main_clean (js css : text) : run :=
  {| js_file := clean_js js; css_file := clean_css css; exit_code := 0 |}.

(** ** The spellings of the visibility gate *)

Definition GATE_1 : text := "if (U >= 50) return null;".
Definition GATE_2 : text := "if(U>=50)return null}".
Definition GATE_3 : text := "if(U>=50)return null;".
Definition GATE_MARKER_2 : text := "/*er0*/}".

(** [out] is [content] with its first occurrence of [old] replaced by
    [new], every other character kept. *)
Definition replaces_first (old new content out : text) : Prop :=
  exists pre post,
    content = pre ++ old ++ post /\
    find old content = Some (length pre) /\
    out = pre ++ new ++ post.


(** ** Sample artifacts *)

(** A stand-in for the avatar image read from the asset file. *)
Definition SAMPLE_B64 : text := "iVBORw0KGgo".

(** A small minified code artifact with every known original shape;
    [gate_fn] is the function holding the visibility gate. *)
Definition minified_artifact (gate_fn : text) : text :=
  "var a=1;class S{constructor(){this.usageData=p7({totalTokens:0,totalCost:0,contextWindow:0,maxOutputTokens:0})}"
  ++ "updateUsage(J,Z,$){this.usageData.value={totalTokens:J,totalCost:Z.totalCost,contextWindow:Z.contextWindow,maxOutputTokens:Z.maxOutputTokens}}"
  ++ "onResult(J,$,X,Q){this.usageData.value={totalTokens:J.totalTokens,totalCost:$.total_cost_usd,contextWindow:X,maxOutputTokens:Q}}"
  ++ "compact(){this.usageData.value={...this.usageData.value,totalTokens:0}}}"
  ++ gate_fn
  ++ "function Yi0({session:$}){_Z();return n4.default.createElement("
  ++ dq :: "div" ++ dq
  :: ",{className:WJ.inputFooter},n4.default.createElement(dP1,null))}".

Definition gate_fn_1 : text := "function er0({U}){if (U >= 50) return null;return U}".
Definition gate_fn_2 : text := "function er0({U}){if(U>=50)return null}".
Definition gate_fn_3 : text := "function er0({U}){if(U>=50)return null;return U}".

(** An already patched footer whose injected call is followed by something
    other than a [createElement] call. *)
Definition patched_footer_no_sibling : text :=
  "return n4.default.createElement(" ++ dq :: "div" ++ dq
  :: ",{className:WJ.inputFooter},n4.default.createElement(CC_MetricsBar, { session: $ }),$.children)".

(** An already patched footer followed by [createElement] siblings. *)
Definition patched_footer (siblings : text) : text :=
  "return n4.default.createElement(" ++ dq :: "div" ++ dq
  :: ",{className:WJ.inputFooter},n4.default.createElement(CC_MetricsBar, { session: $ }),"
  ++ siblings.

(** ** Function headers *)

(** [name] is a JavaScript identifier. *)
Definition is_identifier (name : text) : bool :=
  match name with
  | c :: t => is_id_start c && forallb is_id_char t
  | [] => false
  end.

Fixpoint drop_while (p : ascii -> bool) (s : text) : text :=
  match s with
  | c :: s' => if p c then drop_while p s' else s
  | [] => []
  end.

(** [s] starts with [function NAME(] for an identifier [NAME]. *)
Definition function_header_b (s : text) : bool :=
  if starts_with "function " s then
    match skipn 9 s with
    | c :: s' =>
        if is_id_start c then
          match drop_while is_id_char s' with
          | d :: _ => Ascii.eqb d "("
          | [] => false
          end
        else false
    | [] => false
    end
  else false.

(** No position of [s] starts a function header. *)
Fixpoint no_function_header (s : text) : bool :=
  match s with
  | [] => true
  | _ :: s' => if function_header_b s then false else no_function_header s'
  end.

(** [rest] does not continue a run of [p]. *)
Definition stops (p : ascii -> bool) (rest : text) : bool :=
  match rest with
  | [] => true
  | d :: _ => negb (p d)
  end.


(** A footer whose enclosing function starts [filler + 39] characters
    before the [className:WJ.inputFooter] of its container. *)
Definition far_function : text := "function Yi0({session:$}){_Z();".

Definition filled_window (filler : nat) : text :=
  repeat "x"%char filler
  ++ "return n4.default.createElement(" ++ dq :: "div" ++ dq :: ",{".

Definition footer_rest : text :=
  "className:WJ.inputFooter},n4.default.createElement(dP1,null))}".

Definition log_of (r : js_result) : option js_log :=
  match r with
  | JsWritten _ log => Some log
  | _ => None
  end.

(** ** The minified usageData signal *)

Definition USAGE_ARGS : text :=
  "({totalTokens:0,totalCost:0,contextWindow:0,maxOutputTokens:0})".

Definition USAGE_ARGS_PATCHED : text :=
  "({totalTokens:0,totalCost:0,contextWindow:0,maxOutputTokens:0,inputTokens:0,outputTokens:0,cacheCreation:0,cacheRead:0})".

(** [usageData=NAME({totalTokens:0,...})] and its patched form. *)
Definition usage_signal (name : text) : text :=
  "usageData=" ++ name ++ USAGE_ARGS.

Definition usage_signal_patched (name : text) : text :=
  "usageData=" ++ name ++ USAGE_ARGS_PATCHED.

(** [name] is a constructor name: a letter, then letters and digits. *)
Definition is_ctor_name (name : text) : bool :=
  match name with
  | c :: t => is_alpha c && forallb is_alnum t
  | [] => false
  end.

(** [s] starts with a usageData signal of the minified shape. *)
Definition usage_signal_b (s : text) : bool :=
  if starts_with "usageData=" s then
    match skipn 10 s with
    | c :: s' =>
        if is_alpha c then starts_with USAGE_ARGS (drop_while is_alnum s')
        else false
    | [] => false
    end
  else false.

(** The first position of [s] whose suffix satisfies [P]. *)
Fixpoint first_where (P : text -> bool) (s : text) : option nat :=
  match s with
  | [] => None
  | _ :: s' => if P s then Some 0 else option_map S (first_where P s')
  end.

(** A text that already holds the definition and the call of the injected
    component, but no footer container at all. *)
Definition patched_without_footer : text :=
  "function CC_MetricsBar(){}x=createElement(CC_MetricsBar);if(U>=50)return null;".

(** ** Overlapping occurrences *)

(** One of [x], [y] is a prefix of the other. *)
Definition comparable (x y : text) : bool := starts_with x y || starts_with y x.

(** Some non-empty suffix of [x] is comparable with [y]: an occurrence of
    [y] can start inside an occurrence of [x]. *)
Fixpoint suffixes_clash (x y : text) : bool :=
  match x with
  | [] => false
  | _ :: x' => comparable x y || suffixes_clash x' y
  end.

(** Occurrences of [old] and of [m] can share characters. *)
Definition overlap (old m : text) : bool :=
  suffixes_clash old m || suffixes_clash m old.

(** A prettified text (5002 lines) whose UI-library handle is [r] and in
    which the definition marker is directly followed by
    [.default.createElement(dP1] on the line of the footer container. *)
Definition cut_marker_artifact : text :=
  "return r.default.createElement(" ++ dq :: "div" ++ dq
  :: ",{className:WJ.inputFooter})"
  ++ nl :: "function CC_MetricsBar.default.createElement(dP1 {className:WJ.inputFooter},"
  ++ repeat nl 5000.

(** ** The "already applied" markers *)

Definition M_USAGE_MIN : text := "inputTokens:0".
Definition M_USAGE : text := "inputTokens: 0,".
Definition M_UPDATE_MIN : text := "inputTokens:$.input_tokens".
Definition M_UPDATE : text := "inputTokens: $.input_tokens".
Definition M_RESULT_MIN : text := "inputTokens:J.inputTokens".
Definition M_RESULT : text := "inputTokens: J.inputTokens".

(** The literals replaced by the transforms that run after the usageData
    transform. *)
Definition LATER_ORIGINALS : list text :=
  [UPDATE_USAGE_ORIGINAL; UPDATE_USAGE_MIN_ORIGINAL;
   RESULT_HANDLER_ORIGINAL; RESULT_HANDLER_MIN_ORIGINAL;
   COMPACT_ORIGINAL; COMPACT_MIN_ORIGINAL; GATE_1; GATE_2; GATE_3].

Definition FOOTER_TAIL : text := ".inputFooter},".

(** [m] is a one-line marker that no later transform can cut: it overlaps
    none of the replaced literals, no tail of it starts [function ] (the
    anchor before which the definition is inserted) and no head of it ends
    [.inputFooter},] (the text after which the call is inserted). *)
Definition stable (m : text) : bool :=
  negb (has_char nl m)
  && match m with [] => false | _ => true end
  && negb (suffixes_clash m "function ")
  && negb (suffixes_clash (rev m) (rev FOOTER_TAIL))
  && forallb (fun old => negb (overlap old m)) LATER_ORIGINALS.

(** The log of a run in which every transform reports SKIP. *)
Definition all_skipped : js_log :=
  {| log_usage_data := FieldSkip; log_update_usage := FieldSkip;
     log_result_handler := FieldSkip; log_compact := FieldSkip;
     log_definition := DefSkip; log_call := CallSkip; log_gate := GateSkip |}.

(** One of the markers [ms] occurs in [c]. *)
Definition holds_any (ms : list text) (c : text) : bool :=
  existsb (fun m => contains m c) ms.

(** Every "already applied" predicate of [patch_js] holds on [c], and no
    unpatched compact_boundary or gate literal is left in it. *)
Definition fully_patched (c : text) : bool :=
  holds_any [M_USAGE_MIN; M_USAGE] c
  && holds_any [M_UPDATE_MIN; M_UPDATE] c
  && holds_any [M_RESULT_MIN; M_RESULT] c
  && negb (contains COMPACT_ORIGINAL c) && negb (contains COMPACT_MIN_ORIGINAL c)
  && holds_any [COMPACT_PATCHED; COMPACT_MIN_PATCHED] c
  && contains DEF_MARKER c && contains CALL_MARKER c
  && negb (contains GATE_1 c) && negb (contains GATE_2 c)
  && negb (contains GATE_3 c) && contains GATE_MARKER c.

(** Every stable marker of [c] is still in [c']. *)
Definition keeps (c c' : text) : Prop :=
  forall m, stable m = true -> contains m c = true -> contains m c' = true.

(** ** Runs of [patch_js] that can be repeated *)

Definition not_warning (s : field_status) : bool :=
  match s with FieldWarning => false | _ => true end.

(** A run in which every token-field transform was applied or skipped, the
    call was not injected by the same-line split, and the gate was removed
    through the first or third spelling or already removed. *)
Definition clean_run (log : js_log) : bool :=
  not_warning (log_usage_data log) && not_warning (log_update_usage log)
  && not_warning (log_result_handler log) && not_warning (log_compact log)
  && match log_call log with CallSameLine _ => false | _ => true end
  && match log_gate log with
     | GateSkip => true
     | GateRemoved p => if list_eq_dec ascii_dec p GATE_2 then false else true
     | GateWarning => false
     end.

(** No unpatched compact_boundary or gate literal is left in [c]. *)
Definition no_leftover (c : text) : bool :=
  negb (contains COMPACT_ORIGINAL c) && negb (contains COMPACT_MIN_ORIGINAL c)
  && negb (contains GATE_1 c) && negb (contains GATE_2 c)
  && negb (contains GATE_3 c).

(** The sample artifact with a second gated function. *)
Definition gate_fn_3_twice : text :=
  gate_fn_3 ++ "function er1({U}){if(U>=50)return null;return 0}".

(** ** The stylesheet reverser *)

Definition CUSTOM_CUT : text := nl :: "/* Custom Session Metrics Bar".
Definition PALETTE_CUT : text := nl :: "/* ST palette */".

(** [s] up to the first occurrence of [l]. *)
Fixpoint cut_at (l s : text) : text :=
  match s with
  | [] => []
  | c :: s' => if starts_with l s then [] else c :: cut_at l s'
  end.

(** ** Captured groups *)

(** Every captured text is an identifier. *)
Definition ids_only (g : captures) : Prop :=
  forall n t, In (n, t) g -> is_identifier t = true.

(** Group [i] has been captured. *)
Definition has_group (i : nat) (g : captures) : Prop :=
  exists t, In (i, t) g.

(** Every group of [r] is a group around [_JS_ID]. *)
Fixpoint id_groups (r : regex) : Prop :=
  match r with
  | Grp _ r1 => r1 = _JS_ID
  | Seq r1 r2 => id_groups r1 /\ id_groups r2
  | Opt r1 => id_groups r1
  | _ => True
  end.

(** Every match of [r] captures group [i]. *)
Fixpoint captures_group (i : nat) (r : regex) : bool :=
  match r with
  | Grp n _ => Nat.eqb n i
  | Seq r1 r2 => captures_group i r1 || captures_group i r2
  | _ => false
  end.

(** ** Runs that pass [verify] *)

(** The slots of the template that [METRICS_COMPONENT_DEF] and [patch_js]
    fill in. *)
Definition TEMPLATE_SLOTS : list text :=
  ["__DUSTIN_B64__" : text; "n4." : text; "_Z();" : text].

(** [w] overlaps none of [olds]. *)
Fixpoint clear_of (olds : list text) (w : text) : bool :=
  match olds with
  | [] => true
  | old :: rest => if overlap old w then false else clear_of rest w
  end.

(** [w] occurs in the template and no slot touches an occurrence of it. *)
Definition in_template (w : text) : bool :=
  if contains w _METRICS_TEMPLATE then clear_of TEMPLATE_SLOTS w else false.

(** [w] is a one-line text that neither the call injection (other than the
    same-line split) nor the gate removal can cut. *)
Definition outlasts (w : text) : bool :=
  if has_char nl w then false
  else match w with
       | [] => false
       | _ => if suffixes_clash (rev w) (rev FOOTER_TAIL) then false
              else clear_of [GATE_1; GATE_2; GATE_3] w
       end.

(** The first occurrence of [m] in the template with up to three more
    characters on either side. *)
Definition windows (m : text) : list text :=
  match find m _METRICS_TEMPLATE with
  | Some i =>
      let near := slice (i - 3) (i + length m + 3) _METRICS_TEMPLATE in
      let off := Nat.min i 3 in
      flat_map (fun l => map (fun r => slice (off - l) (off + length m + r) near)
                             [0; 1; 2; 3])
               [0; 1; 2; 3]
  | None => []
  end.

(** The first text of [ws] that satisfies [P], if any. *)
Fixpoint first_such (P : text -> bool) (ws : list text) : option text :=
  match ws with
  | [] => None
  | w :: rest => if P w then Some w else first_such P rest
  end.

(** [m] is part of every component definition that [patch_js] inserts, and
    stays in the text up to the end of the run. *)
Definition component_text (m : text) : bool :=
  match first_such (fun w => if contains m w
                             then if in_template w then outlasts w else false
                             else false) (windows m) with
  | Some _ => true
  | None => false
  end.

(** A run in which every token-field transform was applied or skipped, the
    definition was inserted by this run and the call was not injected by
    the same-line split. *)
Definition fresh_run (log : js_log) : bool :=
  not_warning (log_usage_data log) && not_warning (log_update_usage log)
  && not_warning (log_result_handler log) && not_warning (log_compact log)
  && match log_definition log with DefSkip => false | _ => true end
  && match log_call log with CallSameLine _ => false | _ => true end.

(** No gate literal is left in [c]. *)
Definition gates_gone (c : text) : bool :=
  negb (contains GATE_1 c) && negb (contains GATE_2 c)
  && negb (contains GATE_3 c).

(** [is_already_patched] *)
Definition is_already_patched (content : text) : bool :=
  contains "sessionMetrics_cc" content.

(** ** Patterns that need a literal *)

(** Every match of [r] holds [l]: a literal of [r] outside any option holds
    it. *)
Fixpoint needs (l : text) (r : regex) : bool :=
  match r with
  | Lit l' => contains l l'
  | Seq r1 r2 => if needs l r1 then true else needs l r2
  | Grp _ r1 => needs l r1
  | _ => false
  end.
(** ** Facts about the substring primitives *)

Lemma starts_with_app (p s : text) : starts_with p (p ++ s) = true.
Proof.
  induction p as [|a p IH]; simpl; [reflexivity|].
  now rewrite Ascii.eqb_refl, IH.
Qed.

Lemma starts_with_inv (p s : text) :
  starts_with p s = true -> s = p ++ skipn (length p) s.
Proof.
  revert s; induction p as [|a p IH]; intros [|b s]; simpl; try easy.
  intros H; apply andb_prop in H as [Hab Hp].
  apply Ascii.eqb_eq in Hab; subst b.
  f_equal; now apply IH.
Qed.

Lemma starts_with_iff (p s : text) :
  starts_with p s = true <-> exists r, s = p ++ r.
Proof.
  split.
  - intros H; exists (skipn (length p) s); now apply starts_with_inv.
  - intros [r ->]; apply starts_with_app.
Qed.

Lemma split_nl_length (s : text) :
  length (split_nl s) = S (count_occ ascii_dec s nl).
Proof.
  induction s as [|c s IH]; simpl; [reflexivity|].
  destruct (Ascii.eqb_spec c nl) as [->|Hc].
  - simpl; rewrite IH.
    destruct (ascii_dec nl nl); [reflexivity|contradiction].
  - destruct (ascii_dec c nl); [contradiction|].
    destruct (split_nl s); simpl in *; lia.
Qed.

(** C6. The format classifier answers Prettified exactly when the number of
    newline-delimited lines (one more than the number of newline characters)
    exceeds 5000, and Minified otherwise; a text of exactly 5000 lines is
    Minified; the answer is a function of the whole text only. *)
Theorem is_prettified_threshold (content : text) :
  (is_prettified content = true <-> 5000 < length (split_nl content)) /\
  (is_prettified content = false <-> length (split_nl content) <= 5000) /\
  length (split_nl content) = S (count_occ ascii_dec content nl) /\
  (encoding_of content = Prettified <-> 5000 < length (split_nl content)) /\
  (encoding_of content = Minified <-> length (split_nl content) <= 5000) /\
  (length (split_nl content) = 5000 -> encoding_of content = Minified).
Proof.
  unfold encoding_of, is_prettified, PRETTIFIED_THRESHOLD.
  pose proof (split_nl_length content) as Hlen.
  destruct (Nat.ltb_spec 5000 (length (split_nl content))) as [H|H];
    repeat split; intros; try assumption; try reflexivity;
    try discriminate; try lia.
Qed.

(** A text of exactly 5000 lines (4999 newline characters). *)
Lemma is_prettified_threshold_witness :
  length (split_nl (repeat nl 4999)) = 5000 /\
  encoding_of (repeat nl 4999) = Minified /\
  encoding_of (repeat nl 5000) = Prettified.
Proof.
  split; [vm_compute; reflexivity|].
  split.
  - apply (is_prettified_threshold (repeat nl 4999)); vm_compute; reflexivity.
  - vm_compute; reflexivity.
Defined.

Lemma contains_cons (p : text) (c : ascii) (s : text) :
  contains p (c :: s) = starts_with p (c :: s) || contains p s.
Proof.
  unfold contains; cbn [find].
  destruct (starts_with p (c :: s)); [reflexivity|].
  now destruct (find p s).
Qed.

Lemma contains_nil (p : text) : contains p [] = starts_with p [].
Proof. unfold contains; simpl; now destruct (starts_with p []). Qed.

Lemma starts_with_contains (p s : text) :
  starts_with p s = true -> contains p s = true.
Proof.
  destruct s; [now rewrite contains_nil|].
  rewrite contains_cons; now intros ->.
Qed.

Lemma contains_iff (p s : text) :
  contains p s = true <-> exists a b, s = a ++ p ++ b.
Proof.
  split.
  - induction s as [|c s IH].
    + rewrite contains_nil; intros H.
      apply starts_with_inv in H. now exists [], (skipn (length p) []).
    + rewrite contains_cons; intros H.
      apply orb_prop in H as [H|H].
      * apply starts_with_inv in H. now exists [], (skipn (length p) (c :: s)).
      * destruct (IH H) as (a & b & ->). now exists (c :: a), b.
  - intros (a & b & ->).
    induction a as [|c a IH]; simpl.
    + apply starts_with_contains, starts_with_app.
    + rewrite contains_cons, IH; apply orb_true_r.
Qed.

Lemma contains_app_l (p a b : text) :
  contains p a = true -> contains p (a ++ b) = true.
Proof.
  rewrite !contains_iff; intros (x & y & ->).
  exists x, (y ++ b); now rewrite <- !app_assoc.
Qed.

Lemma contains_app_r (p a b : text) :
  contains p b = true -> contains p (a ++ b) = true.
Proof.
  rewrite !contains_iff; intros (x & y & ->).
  exists (a ++ x), y; now rewrite <- !app_assoc.
Qed.

(** A pattern free of the character [c] cannot lie across a [c]. *)
Lemma starts_with_app_free (c : ascii) (p a b : text) :
  has_char c p = false ->
  starts_with p (a ++ c :: b) = starts_with p a.
Proof.
  revert a; induction p as [|y p IH]; intros a Hc; [now destruct a|].
  simpl in Hc; apply orb_false_elim in Hc as [Hy Hp].
  destruct a as [|x a]; simpl.
  - rewrite Ascii.eqb_sym, Hy; reflexivity.
  - now rewrite IH.
Qed.

Lemma contains_app_free (c : ascii) (p a b : text) :
  has_char c p = false -> p <> [] ->
  contains p (a ++ c :: b) = contains p a || contains p (c :: b).
Proof.
  intros Hc Hp; induction a as [|x a IH].
  - rewrite contains_nil; destruct p; [contradiction|reflexivity].
  - cbn [app]. rewrite (contains_cons p x (a ++ c :: b)), (contains_cons p x a), IH.
    change (x :: a ++ c :: b) with ((x :: a) ++ c :: b).
    rewrite starts_with_app_free by assumption.
    apply orb_assoc.
Qed.

Lemma occurrences_app_free (c : ascii) (p a b : text) :
  has_char c p = false ->
  occurrences p (a ++ c :: b) = occurrences p a + occurrences p (c :: b).
Proof.
  intros Hc; induction a as [|x a IH]; [reflexivity|].
  change (occurrences p ((x :: a) ++ c :: b))
    with ((if starts_with p ((x :: a) ++ c :: b) then 1 else 0)
          + occurrences p (a ++ c :: b)).
  change (occurrences p (x :: a))
    with ((if starts_with p (x :: a) then 1 else 0) + occurrences p a).
  rewrite IH, starts_with_app_free by assumption.
  apply Nat.add_assoc.
Qed.

Lemma occurrences_none (p s : text) :
  contains p s = false -> occurrences p s = 0.
Proof.
  induction s as [|x s IH]; [reflexivity|].
  rewrite contains_cons; intros H; apply orb_false_elim in H as [H1 H2].
  cbn [occurrences]; rewrite H1, IH by assumption; reflexivity.
Qed.

Lemma custom_css_head : exists t, custom_css = nl :: t.
Proof. eexists; reflexivity. Qed.

Lemma st_css_head : exists t, st_css = nl :: t.
Proof. eexists; reflexivity. Qed.

Lemma patch_css_guards (a : text) :
  contains ST_MARKER (a ++ custom_css) = contains ST_MARKER a /\
  contains CSS_SELECTOR (a ++ custom_css) = true /\
  contains CSS_SELECTOR (a ++ custom_css ++ st_css) = true /\
  contains ST_MARKER (a ++ custom_css ++ st_css) = true.
Proof.
  destruct custom_css_head as [t Ht].
  split; [|split; [|split]].
  - rewrite Ht, contains_app_free, <- Ht by (reflexivity || discriminate).
    replace (contains ST_MARKER custom_css) with false by (vm_compute; reflexivity).
    apply orb_false_r.
  - apply contains_app_r; vm_compute; reflexivity.
  - apply contains_app_r; vm_compute; reflexivity.
  - apply contains_app_r; vm_compute; reflexivity.
Qed.

Lemma patch_css_counts (a : text) :
  occurrences CSS_SELECTOR (a ++ custom_css) = occurrences CSS_SELECTOR a + 1 /\
  occurrences CSS_SELECTOR (a ++ custom_css ++ st_css)
    = occurrences CSS_SELECTOR a + 1 /\
  occurrences ST_MARKER (a ++ custom_css ++ st_css)
    = occurrences ST_MARKER a + 1.
Proof.
  destruct custom_css_head as [t Ht].
  assert (H1 : occurrences CSS_SELECTOR custom_css = 1) by (vm_compute; reflexivity).
  assert (H2 : occurrences CSS_SELECTOR (custom_css ++ st_css) = 1)
    by (vm_compute; reflexivity).
  assert (H3 : occurrences ST_MARKER (custom_css ++ st_css) = 1)
    by (vm_compute; reflexivity).
  rewrite Ht in *; cbn [app] in *.
  repeat split; rewrite occurrences_app_free by reflexivity; congruence.
Qed.

(** C8. On a stylesheet without the selector [.sessionMetrics_cc],
    [patch_css] appends the custom block once (and the palette block once
    when its marker is absent), keeps the original text as a prefix, and the
    result holds the selector exactly once; a second [patch_css] appends
    nothing, reports SKIP for both blocks and leaves the text as it is. *)
Theorem patch_css_appends_once (content : text) :
  contains CSS_SELECTOR content = false ->
  let r := patch_css content in
  css_content r
    = content ++ custom_css
      ++ (if contains ST_MARKER content then [] else st_css) /\
  css_changed r = true /\
  css_custom r = CssAppended /\
  css_palette r = (if contains ST_MARKER content then CssSkip else CssAppended) /\
  occurrences CSS_SELECTOR (css_content r) = 1 /\
  (contains ST_MARKER content = false ->
   occurrences ST_MARKER (css_content r) = 1) /\
  patch_css (css_content r)
    = {| css_content := css_content r; css_changed := false;
         css_custom := CssSkip; css_palette := CssSkip; css_ok := true |} /\
  css_file_after (css_file_after content) = css_file_after content.
Proof.
  intros Hsel.
  destruct (patch_css_guards content) as (G1 & G2 & G3 & G4).
  destruct (patch_css_counts content) as (N1 & N2 & N3).
  pose proof (occurrences_none _ _ Hsel) as Z1.
  assert (E : patch_css content
              = {| css_content := content ++ custom_css
                     ++ (if contains ST_MARKER content then [] else st_css);
                   css_changed := true; css_custom := CssAppended;
                   css_palette := if contains ST_MARKER content
                                  then CssSkip else CssAppended;
                   css_ok := true |}).
  { unfold patch_css; rewrite Hsel; cbn [negb]; rewrite G1.
    destruct (contains ST_MARKER content); cbn [negb].
    - now rewrite app_nil_r.
    - now rewrite <- app_assoc. }
  assert (F : forall t, contains CSS_SELECTOR t = true ->
                        contains ST_MARKER t = true ->
                        patch_css t
                        = {| css_content := t; css_changed := false;
                             css_custom := CssSkip; css_palette := CssSkip;
                             css_ok := true |}).
  { intros t Ht1 Ht2; unfold patch_css; rewrite Ht1; cbn [negb];
      rewrite Ht2; reflexivity. }
  cbv zeta; rewrite E; cbn [css_content css_changed css_custom css_palette].
  destruct (contains ST_MARKER content) eqn:Hm.
  - rewrite app_nil_r.
    assert (G5 : contains ST_MARKER (content ++ custom_css) = true)
      by (now apply contains_app_l).
    repeat split; try easy.
    + rewrite N1, Z1; reflexivity.
    + now apply F.
    + unfold css_file_after; rewrite E; cbn [css_content css_changed].
      rewrite app_nil_r, (F _ G2 G5); reflexivity.
  - pose proof (occurrences_none _ _ Hm) as Z2.
    repeat split; try easy.
    + rewrite N2, Z1; reflexivity.
    + intros _; rewrite N3, Z2; reflexivity.
    + now apply F.
    + unfold css_file_after; rewrite E; cbn [css_content css_changed].
      rewrite (F _ G3 G4); reflexivity.
Qed.

(** A stylesheet of one rule, patched once and then again. *)
Lemma patch_css_appends_once_witness :
  contains CSS_SELECTOR ("body{margin:0}" : text) = false /\
  css_content (patch_css "body{margin:0}")
    = "body{margin:0}" ++ custom_css ++ st_css /\
  css_file_after (css_file_after "body{margin:0}")
    = css_file_after "body{margin:0}".
Proof.
  pose proof (patch_css_appends_once "body{margin:0}" eq_refl) as H.
  cbv zeta in H.
  split; [reflexivity|].
  split; [exact (proj1 H)|].
  exact (proj2 (proj2 (proj2 (proj2 (proj2 (proj2 (proj2 H))))))).
Defined.

(** ** [replace] with count 1 *)

Lemma replace1_spec (old new s : text) :
  contains old s = true ->
  exists pre post,
    s = pre ++ old ++ post /\
    find old s = Some (length pre) /\
    replace1 old new s = pre ++ new ++ post.
Proof.
  induction s as [|c s IH].
  - rewrite contains_nil; intros H.
    exists [], (skipn (length old) []); cbn [app length find replace1]; rewrite H.
    repeat split. now apply starts_with_inv.
  - rewrite contains_cons; intros H.
    destruct (starts_with old (c :: s)) eqn:Hs.
    + exists [], (skipn (length old) (c :: s)); cbn [app length find replace1].
      rewrite Hs. repeat split. now apply starts_with_inv.
    + cbn [orb] in H. destruct (IH H) as (pre & post & E & F & R).
      exists (c :: pre), post; cbn [app length find replace1].
      rewrite Hs, F, R. repeat split. now rewrite E at 1.
Qed.

Lemma replace1_absent (old new s : text) :
  contains old s = false -> replace1 old new s = s.
Proof.
  induction s as [|c s IH].
  - rewrite contains_nil; intros H; cbn [replace1]; now rewrite H.
  - rewrite contains_cons; intros H; apply orb_false_elim in H as [H1 H2].
    cbn [replace1]; rewrite H1, IH by assumption; reflexivity.
Qed.

(** ** The visibility gate *)

(** The gate removal, case by case: it replaces the first occurrence of
    the first spelling present (in the order of the list) by the marker of
    that spelling and changes nothing else; with no spelling present the
    text is kept, and the report is SKIP when the marker of the first and
    third spellings, [/* patched: always show */], is there, WARNING
    otherwise. *)
Theorem remove_gate_first_spelling (content : text) :
  (contains GATE_1 content = true ->
   exists out, remove_gate content = (out, GateRemoved GATE_1) /\
               replaces_first GATE_1 GATE_MARKER content out) /\
  (contains GATE_1 content = false -> contains GATE_2 content = true ->
   exists out, remove_gate content = (out, GateRemoved GATE_2) /\
               replaces_first GATE_2 GATE_MARKER_2 content out) /\
  (contains GATE_1 content = false -> contains GATE_2 content = false ->
   contains GATE_3 content = true ->
   exists out, remove_gate content = (out, GateRemoved GATE_3) /\
               replaces_first GATE_3 GATE_MARKER content out) /\
  (contains GATE_1 content = false -> contains GATE_2 content = false ->
   contains GATE_3 content = false ->
   remove_gate content
   = (content, if contains GATE_MARKER content then GateSkip else GateWarning)).
Proof.
  unfold remove_gate, er0_patterns; cbn [remove_first_gate].
  fold GATE_1 GATE_2 GATE_3 GATE_MARKER_2.
  repeat split.
  - intros H1; rewrite H1. eexists; split; [reflexivity|].
    apply replace1_spec; assumption.
  - intros H1 H2; rewrite H1, H2. eexists; split; [reflexivity|].
    apply replace1_spec; assumption.
  - intros H1 H2 H3; rewrite H1, H2, H3. eexists; split; [reflexivity|].
    apply replace1_spec; assumption.
  - intros H1 H2 H3; rewrite H1, H2, H3.
    now destruct (contains GATE_MARKER content).
Qed.

(** The four cases on concrete texts; the third text holds the third
    spelling twice and only the first occurrence goes. *)
Example remove_gate_samples :
  remove_gate ("a;if(U>=50)return null;b;if (U >= 50) return null;c")
    = ("a;if(U>=50)return null;b;/* patched: always show */c" : text,
       GateRemoved GATE_1) /\
  remove_gate ("{if(U>=50)return null}if(U>=50)return null;")
    = ("{/*er0*/}if(U>=50)return null;" : text, GateRemoved GATE_2) /\
  remove_gate ("if(U>=50)return null;if(U>=50)return null;")
    = ("/* patched: always show */if(U>=50)return null;" : text,
       GateRemoved GATE_3) /\
  remove_gate ("x;/* patched: always show */y")
    = ("x;/* patched: always show */y" : text, GateSkip).
Proof. vm_compute; auto. Qed.

Lemma remove_gate_first_spelling_witness :
  (exists out,
     remove_gate "a;if(U>=50)return null;b;if (U >= 50) return null;c"
       = (out, GateRemoved GATE_1) /\
     replaces_first GATE_1 GATE_MARKER
       "a;if(U>=50)return null;b;if (U >= 50) return null;c" out) /\
  (exists out,
     remove_gate "{if(U>=50)return null}if(U>=50)return null;"
       = (out, GateRemoved GATE_2) /\
     replaces_first GATE_2 GATE_MARKER_2
       "{if(U>=50)return null}if(U>=50)return null;" out) /\
  (exists out,
     remove_gate "if(U>=50)return null;if(U>=50)return null;"
       = (out, GateRemoved GATE_3) /\
     replaces_first GATE_3 GATE_MARKER
       "if(U>=50)return null;if(U>=50)return null;" out) /\
  remove_gate "x;/* patched: always show */y"
    = ("x;/* patched: always show */y" : text, GateSkip).
Proof.
  split; [|split; [|split]].
  - exact (proj1 (remove_gate_first_spelling
                    "a;if(U>=50)return null;b;if (U >= 50) return null;c")
             eq_refl).
  - exact (proj1 (proj2 (remove_gate_first_spelling
                           "{if(U>=50)return null}if(U>=50)return null;"))
             eq_refl eq_refl).
  - exact (proj1 (proj2 (proj2 (remove_gate_first_spelling
                                  "if(U>=50)return null;if(U>=50)return null;")))
             eq_refl eq_refl eq_refl).
  - exact (proj2 (proj2 (proj2 (remove_gate_first_spelling
                                   "x;/* patched: always show */y")))
             eq_refl eq_refl eq_refl).
Defined.

(** C5. The last clause of the claim fails for the marker of the second
    spelling.  On [function er0({U}){if(U>=50)return null}] the removal
    writes the inert marker [/*er0*/}] of that spelling; the text it leaves
    holds none of the three spellings and holds that marker, yet on it the
    removal reports WARNING ("Could not find er0 visibility check"), not
    SKIP: the guard of the report looks for [/* patched: always show */]
    alone.  After a removal through the first or the third spelling the
    report is SKIP. *)
Theorem remove_gate_second_marker :
  remove_gate gate_fn_2
  = ("function er0({U}){/*er0*/}" : text, GateRemoved GATE_2) /\
  contains GATE_1 "function er0({U}){/*er0*/}" = false /\
  contains GATE_2 "function er0({U}){/*er0*/}" = false /\
  contains GATE_3 "function er0({U}){/*er0*/}" = false /\
  contains GATE_MARKER_2 "function er0({U}){/*er0*/}" = true /\
  remove_gate "function er0({U}){/*er0*/}"
  = ("function er0({U}){/*er0*/}" : text, GateWarning) /\
  snd (remove_gate (fst (remove_gate gate_fn_1))) = GateSkip /\
  snd (remove_gate (fst (remove_gate gate_fn_3))) = GateSkip.
Proof. vm_compute. repeat split. Qed.

(** ** The footer-component resolver on patched text *)

(** C7. On an already patched footer whose injected call is not followed
    by another [createElement] call, [detect_footer_component] returns
    the injected name [CC_MetricsBar] itself: the second search fails and
    the code falls through to [return comp]. *)
Theorem detect_footer_component_returns_injected :
  detect_footer_component patched_footer_no_sibling "WJ" = CC_MetricsBar.
Proof. vm_compute; reflexivity. Qed.

(** With a structural sibling after the injected call the resolver skips
    the injected call and returns the sibling. *)
Example detect_footer_component_skips_injected :
  detect_footer_component (patched_footer "n4.default.createElement(dP1,null))") "WJ"
  = ("dP1" : text).
Proof. vm_compute; reflexivity. Qed.

(** The second search does not exclude the injected name either. *)
Example detect_footer_component_injected_twice :
  detect_footer_component
    (patched_footer "n4.default.createElement(CC_MetricsBar, { session: $ }))") "WJ"
  = CC_MetricsBar.
Proof. vm_compute; reflexivity. Qed.

(** ** Apply followed by clean *)

(** C2. On a minified artifact whose gate has the third spelling
    [if(U>=50)return null;], apply succeeds and clean then writes the first
    spelling [if (U >= 50) return null;] in its place: the round trip does
    not give the original text back. *)
Theorem round_trip_third_spelling :
  clean_js (js_file_after SAMPLE_B64 (minified_artifact gate_fn_3))
    = minified_artifact gate_fn_1 /\
  minified_artifact gate_fn_1 <> minified_artifact gate_fn_3 /\
  option_map log_gate (log_of (patch_js SAMPLE_B64 (minified_artifact gate_fn_3)))
    = Some (GateRemoved GATE_3).
Proof.
  split; [vm_compute; reflexivity|].
  split; [vm_compute; discriminate|].
  vm_compute; reflexivity.
Qed.

(** The same artifact with the first or the second spelling, and its four
    token-field shapes, comes back unchanged. *)
Example round_trip_other_spellings :
  clean_js (js_file_after SAMPLE_B64 (minified_artifact gate_fn_1))
    = minified_artifact gate_fn_1 /\
  clean_js (js_file_after SAMPLE_B64 (minified_artifact gate_fn_2))
    = minified_artifact gate_fn_2.
Proof. split; vm_compute; reflexivity. Qed.

(** ** The matcher on the shapes of the source's patterns *)

Lemma rep_greedy_some p s n k x :
  rep_greedy p s n k = Some x ->
  exists run rest,
    s = run ++ rest /\ forallb p run = true /\ k rest (n + length run) = Some x.
Proof.
  revert n; induction s as [|c s IH]; intros n H; cbn [rep_greedy] in H.
  - exists [], []; cbn; now rewrite Nat.add_0_r.
  - destruct (p c) eqn:Hc.
    + destruct (rep_greedy p s (S n) k) as [y|] eqn:Hr.
      * injection H as ->. destruct (IH _ Hr) as (run & rest & -> & Hrun & Hk).
        exists (c :: run), rest; cbn [app forallb length]; rewrite Hc, Hrun.
        repeat split. now rewrite Nat.add_succ_r.
      * exists [], (c :: s); cbn; now rewrite Nat.add_0_r.
    + exists [], (c :: s); cbn; now rewrite Nat.add_0_r.
Qed.

Lemma rep_greedy_run p run rest n k x :
  forallb p run = true -> stops p rest = true ->
  k rest (n + length run) = Some x ->
  rep_greedy p (run ++ rest) n k = Some x.
Proof.
  revert n; induction run as [|c run IH]; intros n Hrun Hstop Hk.
  - cbn [app length] in *; rewrite Nat.add_0_r in Hk.
    destruct rest as [|d rest]; [exact Hk|].
    cbn [rep_greedy]; cbn in Hstop.
    apply negb_true_iff in Hstop; now rewrite Hstop.
  - cbn [forallb] in Hrun; apply andb_prop in Hrun as [Hc Hrun].
    cbn [app rep_greedy]; rewrite Hc.
    rewrite (IH (S n)); trivial.
    now cbn [length] in Hk; rewrite Nat.add_succ_r in Hk.
Qed.

Lemma rmatch_lit_some l s n g k x :
  rmatch (Lit l) s n g k = Some x ->
  exists rest, s = l ++ rest /\ k rest (n + length l) g = Some x.
Proof.
  cbn [rmatch]; destruct (starts_with l s) eqn:H; [|discriminate].
  intros Hk; exists (skipn (length l) s); split; [now apply starts_with_inv|exact Hk].
Qed.

Lemma rmatch_lit_app l rest n g k :
  rmatch (Lit l) (l ++ rest) n g k = k rest (n + length l) g.
Proof.
  cbn [rmatch]; rewrite starts_with_app, skipn_app, skipn_all, Nat.sub_diag.
  reflexivity.
Qed.

(** An identifier-like token: one character of [p0], then a greedy run of
    [p1]. *)
Lemma rmatch_token_some p0 p1 s n g k x :
  rmatch (Seq (Cls p0) (Rep true p1)) s n g k = Some x ->
  exists c t rest,
    s = c :: t ++ rest /\ p0 c = true /\ forallb p1 t = true /\
    k rest (n + S (length t)) g = Some x.
Proof.
  cbn [rmatch]; destruct s as [|c s]; [discriminate|].
  destruct (p0 c) eqn:Hc; [|discriminate].
  intros H; apply rep_greedy_some in H as (t & rest & -> & Ht & Hk).
  exists c, t, rest; repeat split; trivial.
  now rewrite Nat.add_succ_r.
Qed.

Lemma rmatch_token_run p0 p1 c t rest n g k x :
  p0 c = true -> forallb p1 t = true -> stops p1 rest = true ->
  k rest (n + S (length t)) g = Some x ->
  rmatch (Seq (Cls p0) (Rep true p1)) (c :: t ++ rest) n g k = Some x.
Proof.
  intros Hc Ht Hs Hk; cbn [rmatch]; rewrite Hc.
  apply rep_greedy_run; trivial.
  now rewrite Nat.add_succ_r in Hk.
Qed.

(** ** [finditer] and [search] by positions *)

Lemma finditer_from_none r pos s :
  (forall i, i < length s -> match_at r (skipn i s) = None) ->
  finditer_from r pos 0 s = [].
Proof.
  revert pos; induction s as [|c s IH]; intros pos H; [reflexivity|].
  cbn [finditer_from].
  pose proof (H 0 (Nat.lt_0_succ _)) as H0; cbn [skipn] in H0; rewrite H0.
  apply IH; intros i Hi. apply (H (S i)); cbn [length]; lia.
Qed.

Lemma re_search_spec r s i n g :
  match_at r (skipn i s) = Some (n, g) ->
  i <= length s ->
  (forall j, j < i -> match_at r (skipn j s) = None) ->
  re_search r s = Some {| m_start := i; m_len := n; m_groups := g |}.
Proof.
  revert i; induction s as [|c s IH]; intros i Hm Hi Hnone.
  - destruct i; [|cbn in Hi; lia].
    cbn [re_search]; cbn [skipn] in Hm; now rewrite Hm.
  - destruct i as [|i].
    + cbn [skipn] in Hm. cbn [re_search]; now rewrite Hm.
    + cbn [re_search].
      pose proof (Hnone 0 (Nat.lt_0_succ _)) as H0; cbn [skipn] in H0; rewrite H0.
      rewrite (IH i); [reflexivity| exact Hm | cbn in Hi; lia |].
      intros j Hj; apply (Hnone (S j)); lia.
Qed.

Lemma re_search_none r s :
  (forall i, i <= length s -> match_at r (skipn i s) = None) ->
  re_search r s = None.
Proof.
  induction s as [|c s IH]; intros H.
  - cbn [re_search]; pose proof (H 0 (Nat.le_refl _)) as H0.
    cbn [skipn] in H0; now rewrite H0.
  - cbn [re_search]. pose proof (H 0 (Nat.le_0_l _)) as H0.
    cbn [skipn] in H0; rewrite H0.
    rewrite IH; [reflexivity|].
    intros i Hi; apply (H (S i)); cbn [length]; lia.
Qed.

(** ** Function headers and the patterns that start with one *)

Lemma drop_while_run p t rest :
  forallb p t = true -> stops p rest = true ->
  drop_while p (t ++ rest) = rest.
Proof.
  induction t as [|c t IH]; intros Ht Hs.
  - destruct rest as [|d rest]; [reflexivity|].
    cbn in *; apply negb_true_iff in Hs; now rewrite Hs.
  - cbn in Ht; apply andb_prop in Ht as [Hc Ht].
    cbn [app drop_while]; rewrite Hc; now apply IH.
Qed.

Lemma function_header_intro c t rest :
  is_id_start c = true -> forallb is_id_char t = true ->
  function_header_b ("function " ++ c :: t ++ "(" ++ rest) = true.
Proof.
  intros Hc Ht; unfold function_header_b.
  rewrite starts_with_app.
  change (skipn 9 ("function " ++ c :: t ++ "(" ++ rest))
    with (c :: t ++ "("%char :: rest).
  cbv iota beta. rewrite Hc.
  rewrite drop_while_run by (trivial; reflexivity).
  reflexivity.
Qed.

(** Any pattern [function ID( ...] only matches at a function header. *)
Lemma function_prefix_header (l : text) (tail : regex) s n g k x :
  starts_with "(" l = true ->
  rmatch (Seq (Lit "function ") (Seq _JS_ID (Seq (Lit l) tail))) s n g k = Some x ->
  function_header_b s = true.
Proof.
  intros Hl H; unfold _JS_ID in H; cbn [rmatch] in H.
  destruct (starts_with "function " s) eqn:Hs; [|discriminate].
  apply starts_with_inv in Hs.
  remember (skipn (length ("function " : text)) s) as s1 eqn:E1; clear E1.
  subst s.
  destruct s1 as [|c s2]; [discriminate|].
  destruct (is_id_start c) eqn:Hc; [|discriminate].
  apply rep_greedy_some in H as (t & rest & -> & Ht & H).
  destruct (starts_with l rest) eqn:Hp; [|discriminate].
  apply starts_with_inv in Hp; apply starts_with_inv in Hl.
  rewrite Hp, Hl, <- app_assoc.
  now apply function_header_intro.
Qed.

(** The pattern [function (ID)\(] of [detect_footer_function]. *)
Lemma function_name_header s n g k x :
  rmatch (seq [Lit "function "; Grp 1 _JS_ID; Lit "("]) s n g k = Some x ->
  function_header_b s = true.
Proof.
  intros H; unfold _JS_ID in H; cbn [seq rmatch] in H.
  destruct (starts_with "function " s) eqn:Hs; [|discriminate].
  apply starts_with_inv in Hs.
  remember (skipn (length ("function " : text)) s) as s1 eqn:E1; clear E1.
  subst s.
  destruct s1 as [|c s2]; [discriminate|].
  destruct (is_id_start c) eqn:Hc; [|discriminate].
  apply rep_greedy_some in H as (t & rest & -> & Ht & H).
  destruct (starts_with "(" rest) eqn:Hp; [|discriminate].
  apply starts_with_inv in Hp; rewrite Hp.
  now apply function_header_intro.
Qed.

Lemma no_function_header_at near i :
  no_function_header near = true -> i < length near ->
  function_header_b (skipn i near) = false.
Proof.
  revert i; induction near as [|c near IH]; intros i H Hi; [cbn in Hi; lia|].
  cbn [no_function_header] in H.
  destruct (function_header_b (c :: near)) eqn:E; [discriminate|].
  destruct i as [|i]; [exact E|].
  cbn [skipn]; apply IH; [exact H | cbn in Hi; lia].
Qed.

Lemma no_header_no_match (r : regex) near :
  (forall s x, match_at r s = Some x -> function_header_b s = true) ->
  no_function_header near = true ->
  finditer r near = [].
Proof.
  intros Hr Hn; apply finditer_from_none; intros i Hi.
  destruct (match_at r (skipn i near)) as [x|] eqn:E; [|reflexivity].
  apply Hr in E. now rewrite no_function_header_at in E.
Qed.

(** The window of the two resolvers is the text [near] just before the
    footer, 5000 characters long unless the text starts later. *)
Lemma footer_chunk_window (far near rest : text) :
  length near = SEARCH_WINDOW \/ (far = [] /\ length near <= SEARCH_WINDOW) ->
  footer_chunk (far ++ near ++ rest) (length far + length near) = near.
Proof.
  unfold footer_chunk, slice; intros [H|[-> H]].
  - rewrite <- H, Nat.add_sub, Nat.add_comm, Nat.add_sub.
    rewrite skipn_app, skipn_all, Nat.sub_diag; cbn [skipn app].
    rewrite firstn_app, firstn_all, Nat.sub_diag; cbn [firstn].
    apply app_nil_r.
  - cbn [length app Nat.add].
    replace (length near - SEARCH_WINDOW) with 0 by lia.
    rewrite Nat.sub_0_r; cbn [skipn].
    rewrite firstn_app, firstn_all, Nat.sub_diag; cbn [firstn].
    apply app_nil_r.
Qed.

(** C9. The enclosing-function and signal-hook resolvers read only the
    window [near] of (at most) 5000 characters before the footer position:
    when no function header starts in that window, whatever the text [far]
    before it holds, [detect_footer_function] returns [None] and
    [detect_signal_hook] returns the fallback [_Z]. *)
Theorem anchor_window_miss (content css_var far near rest : text) :
  content = far ++ near ++ rest ->
  find_footer_pos content css_var = Some (length far + length near) ->
  length near = SEARCH_WINDOW \/ (far = [] /\ length near <= SEARCH_WINDOW) ->
  no_function_header near = true ->
  detect_footer_function content css_var = None /\
  detect_signal_hook content css_var = ("_Z" : text).
Proof.
  intros -> Hpos Hwin Hno.
  unfold detect_footer_function, detect_signal_hook.
  rewrite Hpos, footer_chunk_window by assumption.
  split.
  - rewrite no_header_no_match; trivial.
    intros s [n g] H; unfold match_at in H.
    now apply function_name_header in H.
  - rewrite !no_header_no_match; trivial;
      intros s [n g] H; unfold match_at in H; cbn [seq] in H;
      eapply function_prefix_header in H; trivial.
Qed.

(** The enclosing function [Yi0] starts 5031 characters before the footer
    position: it is there, and it is not found. *)
Lemma anchor_window_miss_witness :
  function_header_b (far_function ++ filled_window 4961 ++ footer_rest) = true /\
  detect_footer_function (far_function ++ filled_window 4961 ++ footer_rest) "WJ"
    = None /\
  detect_signal_hook (far_function ++ filled_window 4961 ++ footer_rest) "WJ"
    = ("_Z" : text).
Proof.
  split; [vm_compute; reflexivity|].
  apply (anchor_window_miss _ "WJ" far_function (filled_window 4961) footer_rest
           eq_refl).
  - vm_compute; reflexivity.
  - left; vm_compute; reflexivity.
  - vm_compute; reflexivity.
Defined.

(** Thirty-one characters nearer, the same function is inside the window. *)
Example anchor_window_hit :
  detect_footer_function (far_function ++ filled_window 4930 ++ footer_rest) "WJ"
    = Some ("Yi0" : text) /\
  detect_footer_function (far_function ++ filled_window 4931 ++ footer_rest) "WJ"
    = None.
Proof. split; vm_compute; reflexivity. Qed.

(** ** The usageData transform *)

Lemma rmatch_seq r1 r2 s n g k :
  rmatch (Seq r1 r2) s n g k
  = rmatch r1 s n g (fun s' n' g' => rmatch r2 s' n' g' k).
Proof. reflexivity. Qed.

Lemma rmatch_grp i r s n g k :
  rmatch (Grp i r) s n g k
  = rmatch r s n g (fun s' n' g' => k s' n' ((i, firstn (n' - n) s) :: g')).
Proof. reflexivity. Qed.

(** A literal, a captured token and a literal: the match and its group. *)
Lemma match_at_token a p0 p1 b c t rest :
  p0 c = true -> forallb p1 t = true -> stops p1 (b ++ rest) = true ->
  match_at (seq [Lit a; Grp 1 (Seq (Cls p0) (Rep true p1)); Lit b])
           (a ++ c :: t ++ b ++ rest)
  = Some (length a + S (length t) + length b, [(1, c :: t)]).
Proof.
  intros Hc Ht Hs; unfold match_at; cbn [seq].
  rewrite rmatch_seq, rmatch_lit_app, rmatch_seq, rmatch_grp.
  apply rmatch_token_run; trivial.
  rewrite rmatch_lit_app. cbn [Nat.add].
  replace (length a + S (length t) - length a) with (S (length t)) by lia.
  cbn [firstn]. rewrite firstn_app, firstn_all, Nat.sub_diag; cbn [firstn].
  now rewrite app_nil_r.
Qed.

Lemma first_where_before P s n :
  first_where P s = Some n -> forall j, j < n -> P (skipn j s) = false.
Proof.
  revert n; induction s as [|c s IH]; intros n H j Hj; [discriminate|].
  cbn [first_where] in H. destruct (P (c :: s)) eqn:E.
  - injection H as <-; lia.
  - destruct (first_where P s) as [m|] eqn:F; [|discriminate].
    injection H as <-. destruct j as [|j]; [exact E|].
    cbn [skipn]; apply (IH m eq_refl); lia.
Qed.

Lemma usage_pattern_signal s n g k x :
  rmatch USAGE_DATA_MIN_PATTERN s n g k = Some x -> usage_signal_b s = true.
Proof.
  intros H; unfold USAGE_DATA_MIN_PATTERN in H; cbn [seq rmatch] in H.
  destruct (starts_with "usageData=" s) eqn:Hs; [|discriminate].
  unfold usage_signal_b; rewrite Hs.
  apply starts_with_inv in Hs.
  change (length ("usageData=" : text)) with 10 in *.
  destruct (skipn 10 s) as [|c s2]; [discriminate|].
  destruct (is_alpha c) eqn:Hc; [|discriminate].
  apply rep_greedy_some in H as (t & rest & -> & Ht & H).
  fold USAGE_ARGS in H.
  destruct (starts_with USAGE_ARGS rest) eqn:Hp; [|discriminate].
  rewrite drop_while_run; trivial.
  apply starts_with_inv in Hp; rewrite Hp; reflexivity.
Qed.

Lemma usage_signal_search (pre name post : text) :
  is_ctor_name name = true ->
  first_where usage_signal_b (pre ++ usage_signal name ++ post)
    = Some (length pre) ->
  re_search USAGE_DATA_MIN_PATTERN (pre ++ usage_signal name ++ post)
  = Some {| m_start := length pre;
            m_len := length (usage_signal name);
            m_groups := [(1, name)] |}.
Proof.
  intros Hname Hfirst.
  destruct name as [|c t]; [discriminate|].
  cbn [is_ctor_name] in Hname; apply andb_prop in Hname as [Hc Ht].
  assert (E : usage_signal (c :: t) ++ post
              = "usageData=" ++ c :: t ++ USAGE_ARGS ++ post).
  { unfold usage_signal; rewrite <- !app_assoc; reflexivity. }
  assert (L : length (usage_signal (c :: t))
              = length ("usageData=" : text) + S (length t) + length USAGE_ARGS).
  { unfold usage_signal; rewrite !length_app; cbn [length]; lia. }
  apply re_search_spec.
  - rewrite skipn_app, skipn_all, Nat.sub_diag; cbn [skipn app].
    rewrite E, L. apply match_at_token; trivial.
  - rewrite length_app; lia.
  - intros j Hj.
    destruct (match_at USAGE_DATA_MIN_PATTERN
                (skipn j (pre ++ usage_signal (c :: t) ++ post))) as [x|] eqn:M;
      [|reflexivity].
    apply usage_pattern_signal in M.
    now rewrite (first_where_before _ _ _ Hfirst j Hj) in M.
Qed.

(** C4 (amended). When the text holds no [inputTokens] guard string and no
    prettified usageData literal, and its first minified usageData signal
    is [usageData=NAME({...})], the usageData transform rewrites exactly
    that signal, keeping the constructor name and every other character,
    and reports "patched (minified)"; applied again to the result it
    changes nothing and reports SKIP. *)
Theorem usage_data_minified (pre name post : text) :
  is_ctor_name name = true ->
  contains "inputTokens:0" (pre ++ usage_signal name ++ post) = false ->
  contains "inputTokens: 0," (pre ++ usage_signal name ++ post) = false ->
  contains USAGE_DATA_ORIGINAL (pre ++ usage_signal name ++ post) = false ->
  first_where usage_signal_b (pre ++ usage_signal name ++ post)
    = Some (length pre) ->
  patch_usage_data (pre ++ usage_signal name ++ post)
    = (pre ++ usage_signal_patched name ++ post, OkMinified) /\
  patch_usage_data (pre ++ usage_signal_patched name ++ post)
    = (pre ++ usage_signal_patched name ++ post, FieldSkip).
Proof.
  intros Hname G1 G2 G3 Hfirst.
  pose proof (usage_signal_search pre name post Hname Hfirst) as Hsearch.
  split.
  - unfold patch_usage_data, re_sub1. rewrite G1, G2, G3, Hsearch.
    unfold m_end; cbn [negb andb m_start m_groups m_len].
    rewrite firstn_app, firstn_all, Nat.sub_diag; cbn [firstn].
    rewrite app_nil_r.
    rewrite skipn_app, skipn_all2 by lia.
    replace (length pre + length (usage_signal name) - length pre)
      with (length (usage_signal name)) by lia.
    rewrite skipn_app, skipn_all, Nat.sub_diag; cbn [skipn app].
    unfold USAGE_DATA_MIN_REPLACE, usage_signal_patched; cbn [group Nat.eqb].
    fold USAGE_ARGS_PATCHED. now rewrite <- !app_assoc.
  - unfold patch_usage_data.
    replace (contains "inputTokens:0" (pre ++ usage_signal_patched name ++ post))
      with true; [reflexivity|].
    symmetry. apply contains_app_r, contains_app_l.
    unfold usage_signal_patched. apply contains_app_r, contains_app_r.
    vm_compute; reflexivity.
Qed.

(** The scenario of the specification: the signal built by [p7]. *)
Lemma usage_data_minified_witness :
  patch_usage_data ("class S{constructor(){this." ++ usage_signal "p7" ++ "}}")
    = ("class S{constructor(){this." ++ usage_signal_patched "p7" ++ "}}",
       OkMinified) /\
  patch_usage_data
    ("class S{constructor(){this." ++ usage_signal_patched "p7" ++ "}}")
    = ("class S{constructor(){this." ++ usage_signal_patched "p7" ++ "}}",
       FieldSkip).
Proof.
  apply (usage_data_minified "class S{constructor(){this." "p7" "}}");
    vm_compute; reflexivity.
Defined.

(** C4 as stated fails on a minified text that also holds the prettified
    literal: that literal is patched, the [p7] signal is left as it is and
    the report is "patched (prettified)".  It fails as well when another
    signal comes first: the first match is rewritten, not the [p7] one. *)
Lemma usage_data_minified_counterexample :
  let content : text := USAGE_DATA_ORIGINAL ++ ";this." ++ usage_signal "p7" in
  let content2 : text := usage_signal "g1" ++ ";this." ++ usage_signal "p7" in
  (is_prettified content = false /\
   contains (usage_signal "p7") content = true /\
   contains "inputTokens:0" content = false /\
   contains "inputTokens: 0," content = false /\
   patch_usage_data content
     = (USAGE_DATA_PATCHED ++ ";this." ++ usage_signal "p7", OkPrettified) /\
   contains (usage_signal_patched "p7") (fst (patch_usage_data content)) = false) /\
  (is_prettified content2 = false /\
   contains (usage_signal "p7") content2 = true /\
   contains "inputTokens:0" content2 = false /\
   contains "inputTokens: 0," content2 = false /\
   patch_usage_data content2
     = (usage_signal_patched "g1" ++ ";this." ++ usage_signal "p7", OkMinified) /\
   contains (usage_signal_patched "p7") (fst (patch_usage_data content2)) = false).
Proof. vm_compute; repeat split. Qed.

(** ** The hard failure of the definition transform *)

(** C3 (amended). When the definition marker [function CC_MetricsBar] is
    absent from the text on which the definition transform runs (the text
    after the four token-field transforms), [detect_footer_function]
    returns [None] on it and, for a prettified artifact, no line holds the
    fallback name either, [patch_js] reports the error and returns failure
    without writing: the code file keeps its content and the process ends
    with exit code 1. *)
Theorem hard_failure (b64 js css : text) :
  contains DEF_MARKER (fst (patch_token_fields js)) = false ->
  detect_footer_function (fst (patch_token_fields js)) (detect_css_module_var js)
    = None ->
  (is_prettified js = true ->
   find_line fallback_line (split_nl (fst (patch_token_fields js))) = None) ->
  patch_js b64 js
    = JsFailed (if is_prettified js then NoFooterFunctionDefinition
                else NoFooterFunctionName) /\
  js_file_after b64 js = js /\
  js_file (main_apply b64 js css) = js /\
  exit_code (main_apply b64 js css) = 1.
Proof.
  intros Hdef Hfn Hline.
  assert (E : patch_js b64 js
              = JsFailed (if is_prettified js then NoFooterFunctionDefinition
                          else NoFooterFunctionName)).
  { unfold patch_js.
    destruct (patch_token_fields js) as [c0 [[[sa sb] sc] sd]].
    cbn [fst] in *. unfold define_component.
    rewrite Hdef, Hfn; cbn [negb truthy or_else].
    destruct (is_prettified js); [|reflexivity].
    now rewrite Hline. }
  unfold js_file_after, main_apply; rewrite E.
  now destruct (is_prettified js).
Qed.

(** A minified text with no footer and no definition marker. *)
Lemma hard_failure_witness :
  patch_js SAMPLE_B64 "var a=1;if(U>=50)return null;" = JsFailed NoFooterFunctionName /\
  js_file_after SAMPLE_B64 "var a=1;if(U>=50)return null;"
    = ("var a=1;if(U>=50)return null;" : text) /\
  js_file (main_apply SAMPLE_B64 "var a=1;if(U>=50)return null;" "body{}")
    = ("var a=1;if(U>=50)return null;" : text) /\
  exit_code (main_apply SAMPLE_B64 "var a=1;if(U>=50)return null;" "body{}") = 1.
Proof.
  apply (hard_failure SAMPLE_B64 "var a=1;if(U>=50)return null;" "body{}").
  - vm_compute; reflexivity.
  - vm_compute; reflexivity.
  - vm_compute; discriminate.
Defined.

(** C3 as stated fails when the definition marker is already in the text:
    the enclosing function cannot be located, yet the definition transform
    is skipped, [patch_js] succeeds and the file is rewritten (here with
    the gate removed). *)
Lemma hard_failure_counterexample :
  detect_footer_function (fst (patch_token_fields patched_without_footer))
    (detect_css_module_var patched_without_footer) = None /\
  detect_footer_function patched_without_footer
    (detect_css_module_var patched_without_footer) = None /\
  is_prettified patched_without_footer = false /\
  option_map log_definition (log_of (patch_js SAMPLE_B64 patched_without_footer))
    = Some DefSkip /\
  js_file_after SAMPLE_B64 patched_without_footer
    = ("function CC_MetricsBar(){}x=createElement(CC_MetricsBar);/* patched: always show */" : text) /\
  js_file (main_apply SAMPLE_B64 patched_without_footer "body{}")
    <> patched_without_footer.
Proof. vm_compute; repeat split; discriminate. Qed.

(** ** Occurrences that survive a replacement *)

Lemma prefixes_comparable (x x' y y' : text) :
  x ++ x' = y ++ y' -> comparable x y = true.
Proof.
  unfold comparable; revert y; induction x as [|a x IH]; intros [|b y] H;
    try reflexivity.
  cbn [app] in H; injection H as -> H.
  cbn [starts_with]; rewrite Ascii.eqb_refl; cbn [andb].
  now apply IH.
Qed.

Lemma suffixes_clash_false (x y u v : text) :
  suffixes_clash x y = false -> x = u ++ v -> v <> [] ->
  comparable v y = false.
Proof.
  revert x; induction u as [|c u IH]; intros x H -> Hv.
  - cbn [app] in H. destruct v as [|d v]; [contradiction|].
    cbn [suffixes_clash] in H. now apply orb_false_elim in H as [H _].
  - cbn [app suffixes_clash] in H. apply orb_false_elim in H as [_ H].
    now apply (IH _ H).
Qed.

(** An occurrence of [m] in [pre ++ old ++ post] that cannot overlap [old]
    lies in [pre] or in [post]. *)
Lemma occurrence_apart (old m pre post : text) :
  overlap old m = false ->
  contains m (pre ++ old ++ post) = true ->
  contains m pre = true \/ contains m post = true.
Proof.
  unfold overlap; intros Ho H; apply orb_false_elim in Ho as [Hom Hmo].
  apply contains_iff in H as (a & b & H).
  apply app_eq_app in H as [l [[-> H]|[-> H]]].
  - (* [m] starts in [pre] *)
    apply app_eq_app in H as [l2 [[-> H]|[-> H]]].
    + destruct l2 as [|d l2].
      * left; apply contains_iff; exists a, []; now rewrite !app_nil_r.
      * pose proof (suffixes_clash_false _ _ l (d :: l2) Hmo eq_refl
                      ltac:(discriminate)) as C.
        now rewrite (prefixes_comparable _ _ _ _ (eq_sym H)) in C.
    + left; apply contains_iff; now exists a, l2.
  - (* [m] starts at or after the start of [old] *)
    apply app_eq_app in H as [l2 [[-> H]|[-> H]]].
    + destruct l2 as [|d l2].
      * right; apply contains_iff; exists [], b. cbn [app] in *; now rewrite H.
      * pose proof (suffixes_clash_false _ _ l (d :: l2) Hom eq_refl
                      ltac:(discriminate)) as C.
        now rewrite (prefixes_comparable _ _ _ _ (eq_sym H)) in C.
    + right; apply contains_iff; now exists l2, b.
Qed.

Lemma contains_replace1 (old new m s : text) :
  overlap old m = false ->
  contains m s = true -> contains m (replace1 old new s) = true.
Proof.
  intros Ho H. destruct (contains old s) eqn:Hc.
  - destruct (replace1_spec old new s Hc) as (pre & post & E & _ & ->).
    rewrite E in H. destruct (occurrence_apart _ _ _ _ Ho H) as [H1|H1].
    + now apply contains_app_l.
    + now apply contains_app_r, contains_app_r.
  - now rewrite replace1_absent.
Qed.

(** ** [replace] of every occurrence *)

Lemma replace_from_skip (old new : text) (k : nat) (s : text) :
  replace_from old new k s = replace_all old new (skipn k s).
Proof.
  unfold replace_all; revert k; induction s as [|c s IH]; intros [|k];
    try reflexivity.
  cbn [replace_from skipn]; apply IH.
Qed.

Lemma replace_all_hit (old new r : text) :
  old <> [] -> replace_all old new (old ++ r) = new ++ replace_all old new r.
Proof.
  destruct old as [|c old]; [contradiction|]; intros _.
  unfold replace_all at 1; cbn [app replace_from].
  change (c :: old ++ r) with ((c :: old) ++ r); rewrite starts_with_app.
  rewrite replace_from_skip; cbn [length Nat.sub].
  now rewrite Nat.sub_0_r, skipn_app, skipn_all, Nat.sub_diag.
Qed.

Lemma replace_all_miss (old new : text) (c : ascii) (s : text) :
  starts_with old (c :: s) = false ->
  replace_all old new (c :: s) = c :: replace_all old new s.
Proof. intros H; unfold replace_all; cbn [replace_from]; now rewrite H. Qed.

Lemma replace_all_keeps_prefix (old new m b : text) :
  suffixes_clash m old = false ->
  replace_all old new (m ++ b) = m ++ replace_all old new b.
Proof.
  induction m as [|c m IH]; intros H; [reflexivity|].
  cbn [suffixes_clash] in H; apply orb_false_elim in H as [Hc H].
  assert (E : starts_with old (c :: m ++ b) = false).
  { destruct (starts_with old (c :: m ++ b)) eqn:E; [|reflexivity].
    apply starts_with_inv in E.
    change (c :: m ++ b) with ((c :: m) ++ b) in E at 1.
    now rewrite (prefixes_comparable _ _ _ _ E) in Hc. }
  cbn [app]. now rewrite replace_all_miss, IH.
Qed.

Lemma contains_replace_all (old new m s : text) :
  old <> [] -> overlap old m = false ->
  contains m s = true -> contains m (replace_all old new s) = true.
Proof.
  unfold overlap; intros Hold Ho H; apply orb_false_elim in Ho as [Hom Hmo].
  apply contains_iff in H as (a & b & ->).
  remember (length a) as n eqn:Hn; revert a Hn.
  induction n as [n IH] using lt_wf_ind; intros a Hn.
  destruct a as [|c a].
  - cbn [app]. rewrite replace_all_keeps_prefix by assumption.
    apply starts_with_contains, starts_with_app.
  - destruct (starts_with old ((c :: a) ++ m ++ b)) eqn:E.
    + apply starts_with_inv in E.
      remember (skipn (length old) ((c :: a) ++ m ++ b)) as r eqn:Er; clear Er.
      pose proof E as E'.
      apply app_eq_app in E' as [l [[Ea Er]|[Eo Er]]].
      * (* the occurrence of [old] ends inside [a] *)
        rewrite E, replace_all_hit, Er by assumption.
        apply contains_app_r.
        apply (IH (length l)); [|reflexivity].
        rewrite Hn, Ea, length_app.
        destruct old; [contradiction|cbn [length]; lia].
      * destruct l as [|d l].
        -- rewrite app_nil_r in Eo. cbn [app] in Er.
           rewrite E, replace_all_hit, <- Er by assumption.
           apply contains_app_r.
           apply (IH 0 ltac:(rewrite Hn; cbn [length]; lia) [] eq_refl).
        -- pose proof (suffixes_clash_false _ _ _ (d :: l) Hom Eo
                         ltac:(discriminate)) as C.
           now rewrite (prefixes_comparable _ _ _ _ (eq_sym Er)) in C.
    + cbn [app] in *. rewrite replace_all_miss by assumption.
      rewrite contains_cons. apply orb_true_iff; right.
      apply (IH (length a)); [rewrite Hn; cbn [length]; lia | reflexivity].
Qed.

(** ** Lines *)

Lemma split_nl_nonempty (s : text) : split_nl s <> [].
Proof.
  destruct s as [|c s]; cbn [split_nl]; [discriminate|].
  destruct (Ascii.eqb c nl); [discriminate|].
  destruct (split_nl s); discriminate.
Qed.

Lemma join_nl_cons (l : text) (ls : list text) :
  ls <> [] -> join_nl (l :: ls) = l ++ nl :: join_nl ls.
Proof. destruct ls; [contradiction|reflexivity]. Qed.

Lemma join_split (s : text) : join_nl (split_nl s) = s.
Proof.
  induction s as [|c s IH]; [reflexivity|].
  cbn [split_nl]. destruct (Ascii.eqb_spec c nl) as [->|Hc].
  - rewrite join_nl_cons by apply split_nl_nonempty. now rewrite IH.
  - pose proof (split_nl_nonempty s) as Hne.
    destruct (split_nl s) as [|l ls]; [contradiction|].
    destruct ls as [|l2 ls]; cbn [join_nl app] in *; now rewrite IH.
Qed.

(** A pattern without newline occurs in a text iff it occurs in a line. *)
Lemma contains_join_nl (m : text) (ls : list text) :
  has_char nl m = false -> m <> [] ->
  contains m (join_nl ls) = existsb (contains m) ls.
Proof.
  intros Hnl Hm. induction ls as [|l ls IH].
  - cbn [join_nl existsb]. rewrite contains_nil. now destruct m.
  - destruct ls as [|l2 ls].
    + cbn [join_nl existsb]. now rewrite orb_false_r.
    + rewrite join_nl_cons by discriminate.
      rewrite contains_app_free, contains_cons, IH by assumption.
      destruct m as [|d m]; [contradiction|].
      cbn [has_char existsb] in Hnl; apply orb_false_elim in Hnl as [Hd _].
      cbn [starts_with]. rewrite Ascii.eqb_sym, Hd. reflexivity.
Qed.

Lemma contains_lines (m s : text) :
  has_char nl m = false -> m <> [] ->
  contains m s = existsb (contains m) (split_nl s).
Proof. intros; now rewrite <- contains_join_nl, join_split. Qed.

Lemma existsb_insert_at {A} (P : A -> bool) (i : nat) (x : A) (l : list A) :
  existsb P (firstn i l ++ x :: skipn i l) = P x || existsb P l.
Proof.
  rewrite existsb_app; cbn [existsb].
  rewrite <- (firstn_skipn i l) at 3. rewrite existsb_app.
  destruct (existsb P (firstn i l)), (P x); reflexivity.
Qed.

(** ** Trailing whitespace *)

Lemma lstrip_spec (s : text) :
  exists ws, s = ws ++ lstrip s /\ forallb is_space ws = true.
Proof.
  induction s as [|c s (ws & E & H)].
  - now exists [].
  - cbn [lstrip]. destruct (is_space c) eqn:Hc.
    + exists (c :: ws); cbn [app forallb]. rewrite Hc, H. now rewrite E at 1.
    + now exists [].
Qed.

Lemma rstrip_spec (s : text) :
  exists ws, s = rstrip s ++ ws /\ forallb is_space ws = true.
Proof.
  unfold rstrip. destruct (lstrip_spec (rev s)) as (ws & E & H).
  exists (rev ws). split.
  - rewrite <- rev_app_distr, <- E. now rewrite rev_involutive.
  - rewrite forallb_forall in *. intros x Hx. apply H. now apply in_rev.
Qed.

Lemma contains_drop_last (m' : text) (z w : ascii) (r : text) :
  z <> w -> contains (m' ++ [z]) (r ++ [w]) = true ->
  contains (m' ++ [z]) r = true.
Proof.
  intros Hzw H. apply contains_iff in H as (a & b & H).
  destruct b as [|b0 b] using rev_ind.
  - rewrite app_nil_r, app_assoc in H.
    apply app_inj_tail in H as [_ H]. congruence.
  - clear IHb. rewrite !app_assoc in H. apply app_inj_tail in H as [H _].
    apply contains_iff. exists a, b. now rewrite H, <- !app_assoc.
Qed.

(** A pattern that ends with a non-space character survives [rstrip]. *)
Lemma contains_rstrip (m' : text) (z : ascii) (s : text) :
  is_space z = false ->
  contains (m' ++ [z]) s = true -> contains (m' ++ [z]) (rstrip s) = true.
Proof.
  intros Hz H. destruct (rstrip_spec s) as (ws & E & Hws).
  rewrite E in H. clear E. revert H.
  induction ws as [|w ws IH] using rev_ind; intros H.
  - now rewrite app_nil_r in H.
  - rewrite forallb_app in Hws. apply andb_prop in Hws as [Hws Hw].
    cbn [forallb] in Hw. rewrite andb_true_r in Hw.
    rewrite app_assoc in H. apply contains_drop_last in H; [now apply IH|].
    intros ->. congruence.
Qed.

(** ** The definition marker through [patch_js] *)

(** Injectivity, stated once so that no text gets unfolded on the way. *)
Lemma inr_pair_inj {E A B : Type} (a a' : A) (b b' : B) :
  @inr E _ (a, b) = inr (a', b') -> a = a' /\ b = b'.
Proof. intros H; injection H; auto. Qed.

Lemma CallDone_inj c c' s s' : CallDone c s = CallDone c' s' -> c = c' /\ s = s'.
Proof. intros H; injection H; auto. Qed.

Lemma Injected_inj l l' s s' : Injected l s = Injected l' s' -> l = l' /\ s = s'.
Proof. intros H; injection H; auto. Qed.

Lemma pair_inj {A B : Type} (a a' : A) (b b' : B) :
  (a, b) = (a', b') -> a = a' /\ b = b'.
Proof. intros H; injection H; auto. Qed.

Lemma def_marker_shape :
  has_char nl DEF_MARKER = false /\ DEF_MARKER <> [] /\
  exists m', DEF_MARKER = m' ++ ["r"%char].
Proof.
  split; [reflexivity|]. split; [discriminate|].
  exists "function CC_MetricsBa"; reflexivity.
Qed.

Lemma metrics_def_marker (b64 react_var signal_hook : text) :
  contains DEF_MARKER (metrics_def b64 react_var signal_hook) = true.
Proof.
  unfold metrics_def, METRICS_COMPONENT_DEF.
  repeat (apply contains_replace_all;
          [discriminate | vm_compute; reflexivity |]).
  vm_compute; reflexivity.
Qed.

Lemma define_component_marker b64 prettified css_var react_var signal_hook
      content content' s :
  define_component b64 prettified css_var react_var signal_hook content
    = inr (content', s) ->
  contains DEF_MARKER content' = true.
Proof.
  destruct def_marker_shape as (Hnl & Hne & _).
  unfold define_component; cbv zeta.
  destruct (contains DEF_MARKER content) eqn:Hc; cbn [negb].
  - intros H; apply inr_pair_inj in H as [<- _]; exact Hc.
  - destruct prettified.
    + destruct (or_else _ _) as [i|]; [|discriminate].
      intros H; apply inr_pair_inj in H as [<- _].
      rewrite contains_join_nl by assumption. unfold insert_at.
      now rewrite existsb_insert_at, metrics_def_marker.
    + destruct (truthy _) as [fn|]; [|discriminate].
      destruct (contains ("function " ++ fn ++ "(") content) eqn:Ha;
        cbn [negb]; [|discriminate].
      intros H; apply inr_pair_inj in H as [<- _].
      destruct (replace1_spec _ (metrics_def b64 react_var signal_hook
                                   ++ nl :: "function " ++ fn ++ "(") _ Ha)
        as (pre & post & _ & _ & ->).
      apply contains_app_r, contains_app_l, contains_app_l, metrics_def_marker.
Qed.

(** *** The call injection, minified *)

Lemma contains_insert_after (c : ascii) (m a b x : text) :
  has_char c m = false -> m <> [] ->
  contains m (a ++ c :: b) = true -> contains m (a ++ c :: x ++ b) = true.
Proof.
  intros Hc Hm H. rewrite contains_app_free in H by assumption.
  apply orb_prop in H as [H|H]; [now apply contains_app_l|].
  rewrite contains_cons in H.
  assert (E : starts_with m (c :: b) = false).
  { destruct m as [|d m]; [contradiction|].
    cbn [has_char existsb] in Hc; apply orb_false_elim in Hc as [Hd _].
    cbn [starts_with]. now rewrite Ascii.eqb_sym, Hd. }
  rewrite E in H; cbn [orb] in H.
  apply contains_app_r. change (c :: x ++ b) with ((c :: x) ++ b).
  now apply contains_app_r.
Qed.

Lemma old_return_last (react_var css_var : text) :
  exists x, old_return react_var css_var = x ++ [","%char].
Proof.
  unfold old_return.
  exists ("return " ++ react_var ++ ".default.createElement(" ++ dq :: "div"
          ++ dq :: ",{className:" ++ css_var ++ ".inputFooter}").
  repeat (rewrite <- app_assoc || rewrite <- app_comm_cons).
  reflexivity.
Qed.

(** *** The call injection, prettified *)

Lemma insert_before_comp_keeps (P : text -> bool) comp x j near near' j' :
  insert_before_comp comp x j near = Some (near', j') ->
  existsb P near = true -> existsb P near' = true.
Proof.
  revert j near' j'; induction near as [|l near IH]; intros j near' j' H;
    [discriminate|].
  cbn [insert_before_comp] in H. destruct (contains comp l).
  - injection H as <- _. cbn [existsb]. intros ->. apply orb_true_r.
  - destruct (insert_before_comp comp x (S j) near) as [[r j2]|] eqn:E;
      [|discriminate].
    injection H as <- _. cbn [existsb]. intros Hx.
    apply orb_prop in Hx as [->|Hx]; [reflexivity|].
    rewrite (IH _ _ _ E Hx). apply orb_true_r.
Qed.

Lemma find_some (p s : text) (n : nat) :
  find p s = Some n -> exists rest, skipn n s = p ++ rest.
Proof.
  revert n; induction s as [|c s IH]; intros n H; cbn [find] in H.
  - destruct (starts_with p []) eqn:E; [|discriminate].
    injection H as <-. apply starts_with_iff in E as [r E]. now exists r.
  - destruct (starts_with p (c :: s)) eqn:E.
    + injection H as <-. apply starts_with_iff in E as [r E]. now exists r.
    + destruct (find p s) as [k|] eqn:F; [|discriminate].
      injection H as <-. cbn [skipn]. now apply IH.
Qed.

(** An occurrence of [m] in [p ++ k ++ q] lies in [p] or in [k ++ q] when
    no tail of [m] can start [k]. *)
Lemma straddle_free (m k p q : text) :
  suffixes_clash m k = false ->
  contains m (p ++ k ++ q) = true ->
  contains m p = true \/ contains m (k ++ q) = true.
Proof.
  intros Hc H. apply contains_iff in H as (a & b & H).
  apply app_eq_app in H as [l [[-> H]|[-> H]]].
  - apply app_eq_app in H as [l2 [[-> H]|[-> H]]].
    + destruct l2 as [|d l2].
      * left; apply contains_iff; exists a, []. now rewrite !app_nil_r.
      * pose proof (suffixes_clash_false _ _ l (d :: l2) Hc eq_refl
                      ltac:(discriminate)) as C.
        now rewrite (prefixes_comparable _ _ _ _ (eq_sym H)) in C.
    + left; apply contains_iff; now exists a, l2.
  - right; apply contains_iff; now exists l, b.
Qed.

Lemma suffixes_clash_head (m : text) (c : ascii) (x : text) :
  has_char c m = false -> suffixes_clash m (c :: x) = false.
Proof.
  induction m as [|d m IH]; [reflexivity|].
  cbn [has_char existsb]; intros H; apply orb_false_elim in H as [Hd Hm].
  cbn [suffixes_clash]. rewrite (IH Hm), orb_false_r.
  unfold comparable; cbn [starts_with].
  now rewrite Ascii.eqb_sym, Hd.
Qed.

Lemma comparable_prefix (v k0 k1 : text) :
  comparable v (k0 ++ k1) = true -> comparable v k0 = true.
Proof.
  unfold comparable; intros H; apply orb_prop in H as [H|H].
  - apply starts_with_inv in H.
    apply (prefixes_comparable v (skipn (length v) (k0 ++ k1)) k0 k1).
    now rewrite <- H.
  - apply starts_with_iff in H as [r ->].
    rewrite <- app_assoc, starts_with_app. apply orb_true_r.
Qed.

Lemma suffixes_clash_prefix (m k0 k1 : text) :
  suffixes_clash m k0 = false -> suffixes_clash m (k0 ++ k1) = false.
Proof.
  induction m as [|d m IH]; [reflexivity|].
  cbn [suffixes_clash]; intros H; apply orb_false_elim in H as [Hd Hm].
  rewrite (IH Hm), orb_false_r.
  destruct (comparable (d :: m) (k0 ++ k1)) eqn:E; [|reflexivity].
  apply comparable_prefix in E. congruence.
Qed.

(** The same-line split keeps the marker unless the handle starts with a
    tail of the marker. *)
Lemma split_line_marker (react_var footer_comp old_line : text) (idx : nat) :
  or_else (find (react_var ++ ".default.createElement(" ++ footer_comp) old_line)
          (find (".default.createElement(" ++ footer_comp) old_line) = Some idx ->
  suffixes_clash DEF_MARKER (react_var ++ ".") = false ->
  contains DEF_MARKER old_line = true ->
  contains DEF_MARKER (rstrip (firstn idx old_line)) = true \/
  contains DEF_MARKER (INDENT ++ skipn idx old_line) = true.
Proof.
  intros Hidx Hclash H.
  destruct def_marker_shape as (_ & _ & m' & Em).
  assert (K : exists k q, skipn idx old_line = k ++ q /\
                          suffixes_clash DEF_MARKER k = false).
  { unfold or_else in Hidx.
    destruct (find (react_var ++ _) old_line) as [i|] eqn:F.
    - injection Hidx as ->. apply find_some in F as [q F].
      exists (react_var ++ ".default.createElement(" ++ footer_comp), q.
      split; [exact F|].
      change (react_var ++ ".default.createElement(" ++ footer_comp)
        with (react_var ++ "." ++ "default.createElement(" ++ footer_comp).
      rewrite app_assoc. now apply suffixes_clash_prefix.
    - apply find_some in Hidx as [q F2].
      exists (".default.createElement(" ++ footer_comp), q.
      split; [exact F2|]. now apply suffixes_clash_head. }
  destruct K as (k & q & Ek & Hk).
  rewrite <- (firstn_skipn idx old_line), Ek in H.
  destruct (straddle_free _ _ _ _ Hk H) as [H1|H1].
  - left. rewrite Em in *. now apply contains_rstrip.
  - right. rewrite Ek. now apply contains_app_r.
Qed.

Lemma inject_call_lines_marker css_var react_var footer_comp call i lines lines' s :
  inject_call_lines css_var react_var footer_comp call i lines = Injected lines' s ->
  (forall n, s <> CallSameLine n) \/
  suffixes_clash DEF_MARKER (react_var ++ ".") = false ->
  existsb (contains DEF_MARKER) lines = true ->
  existsb (contains DEF_MARKER) lines' = true.
Proof.
  intros H Hcond; revert i lines' H.
  induction lines as [|l rest IH]; intros i lines' H Hm; [discriminate|].
  cbn [inject_call_lines] in H; cbv zeta in H.
  assert (Hkeep : forall r,
             keep_line l r = Injected lines' s ->
             (forall ls, r = Injected ls s ->
                         existsb (contains DEF_MARKER) rest = true ->
                         existsb (contains DEF_MARKER) ls = true) ->
             existsb (contains DEF_MARKER) lines' = true).
  { intros r Hr Hrec. destruct r as [ls s'| |]; try discriminate.
    cbn [keep_line] in Hr. apply Injected_inj in Hr as [<- <-].
    cbn [existsb] in *. apply orb_prop in Hm as [->|Hm]; [reflexivity|].
    rewrite (Hrec ls eq_refl Hm). apply orb_true_r. }
  destruct (_ || _).
  - destruct (contains footer_comp l).
    + destruct (or_else _ _) as [idx|] eqn:Hidx; [|discriminate].
      apply Injected_inj in H as [<- <-].
      destruct Hcond as [Hs|Hclash]; [now elim (Hs (i + 1))|].
      cbn [existsb] in *. apply orb_prop in Hm as [Hm|Hm].
      * destruct (split_line_marker _ _ _ _ Hidx Hclash Hm) as [->| ->];
          [reflexivity|]. now rewrite !orb_true_r.
      * rewrite Hm. now rewrite !orb_true_r.
    + destruct (insert_before_comp _ _ _ _) as [[near j]|] eqn:E.
      * apply Injected_inj in H as [<- <-]. cbn [existsb] in *.
        apply orb_prop in Hm as [->|Hm]; [reflexivity|].
        rewrite <- (firstn_skipn 4 rest), existsb_app in Hm.
        rewrite existsb_app.
        apply orb_prop in Hm as [Hm|Hm].
        -- rewrite (insert_before_comp_keeps _ _ _ _ _ _ _ E Hm).
           apply orb_true_r.
        -- rewrite Hm. now rewrite !orb_true_r.
      * apply (Hkeep _ H). intros ls E' Hr. exact (IH (S i) ls E' Hr).
  - apply (Hkeep _ H). intros ls E' Hr. exact (IH (S i) ls E' Hr).
Qed.

Lemma inject_call_marker prettified css_var react_var footer_comp content content' s :
  inject_call prettified css_var react_var footer_comp content
    = CallDone content' s ->
  (forall n, s <> CallSameLine n) \/
  suffixes_clash DEF_MARKER (react_var ++ ".") = false ->
  contains DEF_MARKER content = true ->
  contains DEF_MARKER content' = true.
Proof.
  destruct def_marker_shape as (Hnl & Hne & _).
  unfold inject_call; cbv zeta. intros H Hcond Hm.
  destruct (_ && _).
  - destruct prettified.
    + destruct (inject_call_lines _ _ _ _ _ _) as [ls s'| |] eqn:E;
        try discriminate.
      apply CallDone_inj in H as [<- <-].
      rewrite contains_join_nl by assumption.
      apply (inject_call_lines_marker _ _ _ _ _ _ _ _ E Hcond).
      now rewrite <- contains_lines.
    + destruct (contains (old_return react_var css_var) content) eqn:Ho;
        cbn [negb] in H; [|discriminate].
      apply CallDone_inj in H as [<- _].
      destruct (replace1_spec _ (old_return react_var css_var
                                   ++ metrics_bar_call react_var) _ Ho)
        as (pre & post & E & _ & ->).
      destruct (old_return_last react_var css_var) as [x Ex].
      rewrite Ex in *. rewrite E in Hm.
      rewrite <- !app_assoc in *. cbn [app] in *.
      rewrite app_assoc in *.
      now apply contains_insert_after.
  - destruct (contains CALL_MARKER content);
      apply CallDone_inj in H as [<- _]; exact Hm.
Qed.

Lemma remove_gate_marker (content : text) :
  contains DEF_MARKER content = true ->
  contains DEF_MARKER (fst (remove_gate content)) = true.
Proof.
  intros H. unfold remove_gate, er0_patterns; cbn [remove_first_gate].
  fold GATE_1 GATE_2 GATE_3 GATE_MARKER_2.
  destruct (contains GATE_1 content);
    [cbn [fst]; apply contains_replace1; [vm_compute; reflexivity|exact H]|].
  destruct (contains GATE_2 content);
    [cbn [fst]; apply contains_replace1; [vm_compute; reflexivity|exact H]|].
  destruct (contains GATE_3 content);
    [cbn [fst]; apply contains_replace1; [vm_compute; reflexivity|exact H]|].
  now destruct (contains GATE_MARKER content).
Qed.

Lemma JsWritten_inj c c' l l' :
  JsWritten c l = JsWritten c' l' -> c = c' /\ l = l'.
Proof. intros H; injection H; auto. Qed.

(** C10 (amended). Every text written by [patch_js] holds the definition
    marker [function CC_MetricsBar] (so the call marker never stands
    without it), provided the call was not injected by the prettified
    same-line split, or the UI-library handle does not begin with a tail of
    the marker. *)
Theorem definition_before_call (b64 content out : text) (log : js_log) :
  patch_js b64 content = JsWritten out log ->
  (forall n, log_call log <> CallSameLine n) \/
  suffixes_clash DEF_MARKER
    (detect_react_var content (detect_css_module_var content) ++ ".") = false ->
  contains DEF_MARKER out = true /\
  (contains CALL_MARKER out = true -> contains DEF_MARKER out = true).
Proof.
  intros H Hcond.
  enough (contains DEF_MARKER out = true) by (split; trivial).
  unfold patch_js in H; cbv zeta in H.
  destruct (patch_token_fields content) as [c0 [[[sa sb] sc] sd]].
  destruct (define_component _ _ _ _ _ c0) as [e|[c1 sdef]] eqn:D;
    [discriminate|].
  destruct (inject_call _ _ _ _ c1) as [c2 scall|e|] eqn:I; try discriminate.
  destruct (remove_gate c2) as [c3 sg] eqn:G.
  apply JsWritten_inj in H as [<- <-]. cbn [log_call] in Hcond.
  change c3 with (fst (c3, sg)); rewrite <- G.
  apply remove_gate_marker.
  apply (inject_call_marker _ _ _ _ _ _ _ I Hcond).
  apply (define_component_marker _ _ _ _ _ _ _ _ D).
Qed.

(** The sample minified artifact: the call is injected in minified mode. *)
Lemma definition_before_call_witness :
  contains DEF_MARKER (js_file_after SAMPLE_B64 (minified_artifact gate_fn_2))
    = true /\
  (contains CALL_MARKER (js_file_after SAMPLE_B64 (minified_artifact gate_fn_2))
     = true ->
   contains DEF_MARKER (js_file_after SAMPLE_B64 (minified_artifact gate_fn_2))
     = true).
Proof.
  apply (definition_before_call SAMPLE_B64 (minified_artifact gate_fn_2) _
           {| log_usage_data := OkMinified; log_update_usage := OkMinified;
              log_result_handler := OkMinified; log_compact := OkMinified;
              log_definition := DefMinified; log_call := CallMinified;
              log_gate := GateRemoved GATE_2 |}).
  - vm_compute; reflexivity.
  - left; intros n; cbn [log_call]; discriminate.
Defined.

(** C10 as stated fails on a prettified text in which the definition
    marker is followed by [.default.createElement(dP1] and the handle is
    [r]: the same-line split cuts the line inside the marker, after
    [function CC_MetricsBa], and the written text holds the call marker
    without the definition marker. *)
Lemma definition_before_call_counterexample :
  is_prettified cut_marker_artifact = true /\
  option_map log_call (log_of (patch_js SAMPLE_B64 cut_marker_artifact))
    = Some (CallSameLine 2) /\
  contains CALL_MARKER (js_file_after SAMPLE_B64 cut_marker_artifact) = true /\
  contains DEF_MARKER (js_file_after SAMPLE_B64 cut_marker_artifact) = false.
Proof. vm_compute; repeat split. Qed.

(** ** Markers that survive the later transforms *)

Lemma contains_rev (m s : text) : contains (rev m) (rev s) = contains m s.
Proof.
  assert (H : forall m s, contains m s = true -> contains (rev m) (rev s) = true).
  { intros m0 s0 H0. apply contains_iff in H0 as (a & b & ->).
    apply contains_iff. exists (rev b), (rev a).
    now rewrite !rev_app_distr, <- app_assoc. }
  destruct (contains m s) eqn:E.
  - now apply H.
  - destruct (contains (rev m) (rev s)) eqn:E2; [|reflexivity].
    apply H in E2. rewrite !rev_involutive in E2. congruence.
Qed.

(** The mirror image of [straddle_free]: an occurrence of [m] in
    [(p ++ k) ++ q] lies in [p ++ k] or in [q] when no head of [m] can end
    [k]. *)
Lemma straddle_free_left (m k p q : text) :
  suffixes_clash (rev m) (rev k) = false ->
  contains m ((p ++ k) ++ q) = true ->
  contains m (p ++ k) = true \/ contains m q = true.
Proof.
  intros Hc H. rewrite <- contains_rev in H.
  rewrite !rev_app_distr in H.
  destruct (straddle_free _ _ _ _ Hc H) as [H1|H1].
  - right. now rewrite <- contains_rev.
  - left. now rewrite <- contains_rev, rev_app_distr.
Qed.

Record stable_facts (m : text) : Prop := {
  st_nl : has_char nl m = false;
  st_ne : m <> [];
  st_fn : suffixes_clash m "function " = false;
  st_tail : suffixes_clash (rev m) (rev FOOTER_TAIL) = false;
  st_later : forall old, In old LATER_ORIGINALS -> overlap old m = false
}.

Lemma stable_parts (m : text) : stable m = true -> stable_facts m.
Proof.
  unfold stable; intros H.
  apply andb_prop in H as [H H5]. apply andb_prop in H as [H H4].
  apply andb_prop in H as [H H3]. apply andb_prop in H as [H1 H2].
  apply negb_true_iff in H1, H3, H4.
  constructor; trivial.
  - now destruct m.
  - intros old Hin. rewrite forallb_forall in H5.
    now apply negb_true_iff, H5.
Qed.

Ltac in_later :=
  unfold LATER_ORIGINALS;
  first [ left; reflexivity
        | right; left; reflexivity
        | do 2 right; left; reflexivity
        | do 3 right; left; reflexivity
        | do 4 right; left; reflexivity
        | do 5 right; left; reflexivity
        | do 6 right; left; reflexivity
        | do 7 right; left; reflexivity
        | do 8 right; left; reflexivity ].

Lemma keep_replace1 (m old new c : text) :
  stable_facts m -> In old LATER_ORIGINALS ->
  contains m c = true -> contains m (replace1 old new c) = true.
Proof. intros S Hin; apply contains_replace1, (st_later _ S), Hin. Qed.

Lemma keep_update_usage (m c : text) :
  stable_facts m -> contains m c = true ->
  contains m (fst (patch_update_usage c)) = true.
Proof.
  intros S H; unfold patch_update_usage.
  destruct (_ && _); [|exact H].
  destruct (contains UPDATE_USAGE_ORIGINAL c);
    [cbn [fst]; apply keep_replace1; trivial; in_later|].
  destruct (contains UPDATE_USAGE_MIN_ORIGINAL c);
    [cbn [fst]; apply keep_replace1; trivial; in_later|exact H].
Qed.

Lemma keep_result_handler (m c : text) :
  stable_facts m -> contains m c = true ->
  contains m (fst (patch_result_handler c)) = true.
Proof.
  intros S H; unfold patch_result_handler.
  destruct (_ && _); [|exact H].
  destruct (contains RESULT_HANDLER_ORIGINAL c);
    [cbn [fst]; apply keep_replace1; trivial; in_later|].
  destruct (contains RESULT_HANDLER_MIN_ORIGINAL c);
    [cbn [fst]; apply keep_replace1; trivial; in_later|exact H].
Qed.

Lemma keep_compact (m c : text) :
  stable_facts m -> contains m c = true ->
  contains m (fst (patch_compact c)) = true.
Proof.
  intros S H; unfold patch_compact.
  destruct (contains COMPACT_ORIGINAL c);
    [cbn [fst]; apply keep_replace1; trivial; in_later|].
  destruct (contains COMPACT_MIN_ORIGINAL c);
    [cbn [fst]; apply keep_replace1; trivial; in_later|].
  now destruct (_ || _).
Qed.

Lemma keep_gate (m c : text) :
  stable_facts m -> contains m c = true ->
  contains m (fst (remove_gate c)) = true.
Proof.
  intros S H. unfold remove_gate, er0_patterns; cbn [remove_first_gate].
  fold GATE_1 GATE_2 GATE_3 GATE_MARKER_2.
  destruct (contains GATE_1 c);
    [cbn [fst]; apply keep_replace1; trivial; in_later|].
  destruct (contains GATE_2 c);
    [cbn [fst]; apply keep_replace1; trivial; in_later|].
  destruct (contains GATE_3 c);
    [cbn [fst]; apply keep_replace1; trivial; in_later|].
  now destruct (contains GATE_MARKER c).
Qed.

Lemma keep_definition (m : text) b64 prettified css_var react_var signal_hook c c' s :
  stable_facts m ->
  define_component b64 prettified css_var react_var signal_hook c = inr (c', s) ->
  contains m c = true -> contains m c' = true.
Proof.
  intros S; unfold define_component; cbv zeta.
  destruct (contains DEF_MARKER c); cbn [negb].
  - intros H; apply inr_pair_inj in H as [<- _]; trivial.
  - destruct prettified.
    + destruct (or_else _ _) as [i|]; [|discriminate].
      intros H Hm; apply inr_pair_inj in H as [<- _].
      rewrite contains_join_nl by apply S. unfold insert_at.
      rewrite existsb_insert_at, <- contains_lines, Hm by apply S.
      apply orb_true_r.
    + destruct (truthy _) as [fn|]; [|discriminate].
      destruct (contains ("function " ++ fn ++ "(") c) eqn:Ha;
        cbn [negb]; [|discriminate].
      intros H Hm; apply inr_pair_inj in H as [<- _].
      destruct (replace1_spec _ (metrics_def b64 react_var signal_hook
                                   ++ nl :: "function " ++ fn ++ "(") _ Ha)
        as (pre & post & E & _ & ->).
      rewrite E in Hm. rewrite <- app_assoc in Hm.
      destruct (straddle_free _ _ _ _ (st_fn _ S) Hm) as [H1|H1].
      * now apply contains_app_l.
      * apply contains_app_r. rewrite <- !app_assoc. cbn [app].
        apply contains_app_r.
        rewrite contains_cons. apply orb_true_iff; right.
        repeat rewrite <- app_assoc in H1. repeat rewrite <- app_assoc.
        exact H1.
Qed.

Lemma inject_call_lines_keeps (P : text -> bool)
      css_var react_var footer_comp call i lines lines' s :
  inject_call_lines css_var react_var footer_comp call i lines = Injected lines' s ->
  (forall n, s <> CallSameLine n) ->
  existsb P lines = true -> existsb P lines' = true.
Proof.
  intros H Hs; revert i lines' H.
  induction lines as [|l rest IH]; intros i lines' H Hm; [discriminate|].
  cbn [inject_call_lines] in H; cbv zeta in H.
  assert (Hkeep : forall r,
             keep_line l r = Injected lines' s ->
             (forall ls, r = Injected ls s ->
                         existsb P rest = true -> existsb P ls = true) ->
             existsb P lines' = true).
  { intros r Hr Hrec. destruct r as [ls s'| |]; try discriminate.
    cbn [keep_line] in Hr. apply Injected_inj in Hr as [<- <-].
    cbn [existsb] in *. apply orb_prop in Hm as [->|Hm]; [reflexivity|].
    rewrite (Hrec ls eq_refl Hm). apply orb_true_r. }
  destruct (_ || _).
  - destruct (contains footer_comp l).
    + destruct (or_else _ _) as [idx|]; [|discriminate].
      apply Injected_inj in H as [_ <-]. now elim (Hs (i + 1)).
    + destruct (insert_before_comp _ _ _ _) as [[near j]|] eqn:E.
      * apply Injected_inj in H as [<- <-]. cbn [existsb] in *.
        apply orb_prop in Hm as [->|Hm]; [reflexivity|].
        rewrite <- (firstn_skipn 4 rest), existsb_app in Hm.
        rewrite existsb_app.
        apply orb_prop in Hm as [Hm|Hm].
        -- rewrite (insert_before_comp_keeps _ _ _ _ _ _ _ E Hm).
           apply orb_true_r.
        -- rewrite Hm. now rewrite !orb_true_r.
      * apply (Hkeep _ H). intros ls E' Hr. exact (IH (S i) ls E' Hr).
  - apply (Hkeep _ H). intros ls E' Hr. exact (IH (S i) ls E' Hr).
Qed.

Lemma insert_before_comp_has (P : text -> bool) comp x j near near' j' :
  insert_before_comp comp x j near = Some (near', j') ->
  P x = true -> existsb P near' = true.
Proof.
  revert j near' j'; induction near as [|l near IH]; intros j near' j' H Hx;
    [discriminate|].
  cbn [insert_before_comp] in H. destruct (contains comp l).
  - injection H as <- _. cbn [existsb]. now rewrite Hx.
  - destruct (insert_before_comp comp x (S j) near) as [[r j2]|] eqn:E;
      [|discriminate].
    injection H as <- _. cbn [existsb].
    rewrite (IH _ _ _ E Hx). apply orb_true_r.
Qed.

Lemma inject_call_lines_has_call (P : text -> bool)
      css_var react_var footer_comp call i lines lines' s :
  inject_call_lines css_var react_var footer_comp call i lines = Injected lines' s ->
  P (INDENT ++ call) = true -> existsb P lines' = true.
Proof.
  intros H Hx; revert i lines' H.
  induction lines as [|l rest IH]; intros i lines' H; [discriminate|].
  cbn [inject_call_lines] in H; cbv zeta in H.
  assert (Hkeep : forall r,
             keep_line l r = Injected lines' s ->
             (forall ls, r = Injected ls s -> existsb P ls = true) ->
             existsb P lines' = true).
  { intros r Hr Hrec. destruct r as [ls s'| |]; try discriminate.
    cbn [keep_line] in Hr. apply Injected_inj in Hr as [<- <-].
    cbn [existsb]. rewrite (Hrec ls eq_refl). apply orb_true_r. }
  destruct (_ || _).
  - destruct (contains footer_comp l).
    + destruct (or_else _ _) as [idx|]; [|discriminate].
      apply Injected_inj in H as [<- _]. cbn [existsb].
      rewrite Hx. now rewrite !orb_true_r.
    + destruct (insert_before_comp _ _ _ _) as [[near j]|] eqn:E.
      * apply Injected_inj in H as [<- _]. cbn [existsb].
        rewrite existsb_app, (insert_before_comp_has _ _ _ _ _ _ _ E Hx).
        now rewrite !orb_true_r.
      * apply (Hkeep _ H). intros ls E'. exact (IH (S i) ls E').
  - apply (Hkeep _ H). intros ls E'. exact (IH (S i) ls E').
Qed.

Lemma old_return_tail (react_var css_var : text) :
  exists x, old_return react_var css_var = x ++ FOOTER_TAIL.
Proof.
  unfold old_return, FOOTER_TAIL.
  exists ("return " ++ react_var ++ ".default.createElement(" ++ dq :: "div"
          ++ dq :: ",{className:" ++ css_var).
  repeat (rewrite <- app_assoc || rewrite <- app_comm_cons).
  reflexivity.
Qed.

Lemma keep_call (m : text) prettified css_var react_var footer_comp c c' s :
  stable_facts m ->
  inject_call prettified css_var react_var footer_comp c = CallDone c' s ->
  (forall n, s <> CallSameLine n) ->
  contains m c = true -> contains m c' = true.
Proof.
  intros S; unfold inject_call; cbv zeta. intros H Hs Hm.
  destruct (_ && _).
  - destruct prettified.
    + destruct (inject_call_lines _ _ _ _ _ _) as [ls s'| |] eqn:E;
        try discriminate.
      apply CallDone_inj in H as [<- <-].
      rewrite contains_join_nl by apply S.
      apply (inject_call_lines_keeps _ _ _ _ _ _ _ _ _ E Hs).
      rewrite <- contains_lines by apply S. exact Hm.
    + destruct (contains (old_return react_var css_var) c) eqn:Ho;
        cbn [negb] in H; [|discriminate].
      apply CallDone_inj in H as [<- _].
      destruct (replace1_spec _ (old_return react_var css_var
                                   ++ metrics_bar_call react_var) _ Ho)
        as (pre & post & E & _ & ->).
      destruct (old_return_tail react_var css_var) as [x Ex].
      rewrite Ex in *. rewrite E in Hm.
      rewrite app_assoc in Hm. rewrite (app_assoc pre x) in Hm.
      destruct (straddle_free_left _ _ _ _ (st_tail _ S) Hm) as [H1|H1].
      * rewrite <- (app_assoc _ (metrics_bar_call react_var) post).
        rewrite <- (app_assoc x), (app_assoc pre), (app_assoc (pre ++ x)).
        now apply contains_app_l.
      * now apply contains_app_r, contains_app_r.
  - destruct (contains CALL_MARKER c);
      apply CallDone_inj in H as [<- _]; exact Hm.
Qed.

(** ** What each transform establishes *)

Lemma holds_any_pair (m1 m2 c : text) :
  holds_any [m1; m2] c = contains m1 c || contains m2 c.
Proof. unfold holds_any; cbn [existsb]. now rewrite orb_false_r. Qed.

Lemma contains_replaced (old new m s : text) :
  contains old s = true -> contains m new = true ->
  contains m (replace1 old new s) = true.
Proof.
  intros Ho Hm. destruct (replace1_spec old new s Ho) as (pre & post & _ & _ & ->).
  now apply contains_app_r, contains_app_l.
Qed.

Lemma est_usage_data (c : text) :
  snd (patch_usage_data c) <> FieldWarning ->
  holds_any [M_USAGE_MIN; M_USAGE] (fst (patch_usage_data c)) = true.
Proof.
  rewrite holds_any_pair. unfold patch_usage_data, M_USAGE_MIN, M_USAGE.
  destruct (contains "inputTokens:0" c) eqn:G1;
    [intros _; cbn [negb andb fst]; now rewrite G1|].
  destruct (contains "inputTokens: 0," c) eqn:G2;
    [intros _; cbn [negb andb fst]; rewrite G2; apply orb_true_r|].
  cbn [negb andb].
  destruct (contains USAGE_DATA_ORIGINAL c) eqn:Go.
  - intros _; cbn [fst]. apply orb_true_iff; right.
    apply contains_replaced; [exact Go|vm_compute; reflexivity].
  - destruct (re_search USAGE_DATA_MIN_PATTERN c) as [m|] eqn:Hs.
    + intros _; cbn [fst]. apply orb_true_iff; left.
      unfold re_sub1; rewrite Hs.
      apply contains_app_r, contains_app_l.
      unfold USAGE_DATA_MIN_REPLACE. apply contains_app_r, contains_app_r.
      vm_compute; reflexivity.
    + intros H; now elim H.
Qed.

Lemma est_update_usage (c : text) :
  snd (patch_update_usage c) <> FieldWarning ->
  holds_any [M_UPDATE_MIN; M_UPDATE] (fst (patch_update_usage c)) = true.
Proof.
  rewrite holds_any_pair. unfold patch_update_usage, M_UPDATE_MIN, M_UPDATE.
  destruct (contains "inputTokens:$.input_tokens" c) eqn:G1;
    [intros _; cbn [negb andb fst]; now rewrite G1|].
  destruct (contains "inputTokens: $.input_tokens" c) eqn:G2;
    [intros _; cbn [negb andb fst]; rewrite G2; apply orb_true_r|].
  cbn [negb andb].
  destruct (contains UPDATE_USAGE_ORIGINAL c) eqn:Go.
  - intros _; cbn [fst]. apply orb_true_iff; right.
    apply contains_replaced; [exact Go|vm_compute; reflexivity].
  - destruct (contains UPDATE_USAGE_MIN_ORIGINAL c) eqn:Gm.
    + intros _; cbn [fst]. apply orb_true_iff; left.
      apply contains_replaced; [exact Gm|vm_compute; reflexivity].
    + intros H; now elim H.
Qed.

Lemma est_result_handler (c : text) :
  snd (patch_result_handler c) <> FieldWarning ->
  holds_any [M_RESULT_MIN; M_RESULT] (fst (patch_result_handler c)) = true.
Proof.
  rewrite holds_any_pair. unfold patch_result_handler, M_RESULT_MIN, M_RESULT.
  destruct (contains "inputTokens:J.inputTokens" c) eqn:G1;
    [intros _; cbn [negb andb fst]; now rewrite G1|].
  destruct (contains "inputTokens: J.inputTokens" c) eqn:G2;
    [intros _; cbn [negb andb fst]; rewrite G2; apply orb_true_r|].
  cbn [negb andb].
  destruct (contains RESULT_HANDLER_ORIGINAL c) eqn:Go.
  - intros _; cbn [fst]. apply orb_true_iff; right.
    apply contains_replaced; [exact Go|vm_compute; reflexivity].
  - destruct (contains RESULT_HANDLER_MIN_ORIGINAL c) eqn:Gm.
    + intros _; cbn [fst]. apply orb_true_iff; left.
      apply contains_replaced; [exact Gm|vm_compute; reflexivity].
    + intros H; now elim H.
Qed.

Lemma est_compact (c : text) :
  snd (patch_compact c) <> FieldWarning ->
  holds_any [COMPACT_PATCHED; COMPACT_MIN_PATCHED] (fst (patch_compact c)) = true.
Proof.
  rewrite holds_any_pair. unfold patch_compact.
  destruct (contains COMPACT_ORIGINAL c) eqn:Go.
  - intros _; cbn [fst]. apply orb_true_iff; left.
    apply contains_replaced; [exact Go|vm_compute; reflexivity].
  - destruct (contains COMPACT_MIN_ORIGINAL c) eqn:Gm.
    + intros _; cbn [fst]. apply orb_true_iff; right.
      apply contains_replaced; [exact Gm|vm_compute; reflexivity].
    + destruct (contains COMPACT_PATCHED c || contains COMPACT_MIN_PATCHED c)
        eqn:Gp; [intros _; exact Gp | intros H; now elim H].
Qed.

Lemma def_marker_component (c : text) :
  contains DEF_MARKER c = true -> contains CC_MetricsBar c = true.
Proof.
  intros H; apply contains_iff in H as (a & b & ->).
  apply contains_iff. exists (a ++ "function "), b.
  now rewrite <- app_assoc.
Qed.

Lemma call_has_marker (react_var : text) :
  contains CALL_MARKER (metrics_bar_call react_var) = true.
Proof.
  unfold metrics_bar_call. apply contains_app_r. vm_compute; reflexivity.
Qed.

Lemma est_call prettified css_var react_var footer_comp c c' s :
  inject_call prettified css_var react_var footer_comp c = CallDone c' s ->
  contains DEF_MARKER c = true ->
  contains CALL_MARKER c' = true.
Proof.
  unfold inject_call; cbv zeta. intros H Hd.
  rewrite (def_marker_component _ Hd) in H; cbn [andb] in H.
  destruct (contains CALL_MARKER c) eqn:Hc; cbn [negb] in H.
  - apply CallDone_inj in H as [<- _]; exact Hc.
  - destruct prettified.
    + destruct (inject_call_lines _ _ _ _ _ _) as [ls s'| |] eqn:E;
        try discriminate.
      apply CallDone_inj in H as [<- _].
      rewrite contains_join_nl by (reflexivity || discriminate).
      apply (inject_call_lines_has_call _ _ _ _ _ _ _ _ _ E).
      apply contains_app_r, call_has_marker.
    + destruct (contains (old_return react_var css_var) c) eqn:Ho;
        cbn [negb] in H; [|discriminate].
      apply CallDone_inj in H as [<- _].
      apply contains_replaced; [exact Ho|].
      apply contains_app_r, call_has_marker.
Qed.

Lemma est_gate (c : text) :
  snd (remove_gate c) <> GateWarning ->
  snd (remove_gate c) <> GateRemoved GATE_2 ->
  contains GATE_MARKER (fst (remove_gate c)) = true.
Proof.
  unfold remove_gate, er0_patterns; cbn [remove_first_gate].
  fold GATE_1 GATE_2 GATE_3 GATE_MARKER_2.
  destruct (contains GATE_1 c) eqn:G1.
  - intros _ _; cbn [fst]. apply contains_replaced; [exact G1|].
    vm_compute; reflexivity.
  - destruct (contains GATE_2 c) eqn:G2; [intros _ H; now elim H|].
    destruct (contains GATE_3 c) eqn:G3.
    + intros _ _; cbn [fst]. apply contains_replaced; [exact G3|].
      vm_compute; reflexivity.
    + destruct (contains GATE_MARKER c) eqn:Gm;
        [intros _ _; exact Gm | intros H; now elim H].
Qed.

(** ** A transform whose predicate holds is a no-op *)

Lemma skip_usage_data (c : text) :
  holds_any [M_USAGE_MIN; M_USAGE] c = true ->
  patch_usage_data c = (c, FieldSkip).
Proof.
  rewrite holds_any_pair; unfold patch_usage_data, M_USAGE_MIN, M_USAGE.
  destruct (contains "inputTokens:0" c); [reflexivity|].
  destruct (contains "inputTokens: 0," c); [reflexivity|discriminate].
Qed.

Lemma skip_update_usage (c : text) :
  holds_any [M_UPDATE_MIN; M_UPDATE] c = true ->
  patch_update_usage c = (c, FieldSkip).
Proof.
  rewrite holds_any_pair; unfold patch_update_usage, M_UPDATE_MIN, M_UPDATE.
  destruct (contains "inputTokens:$.input_tokens" c); [reflexivity|].
  destruct (contains "inputTokens: $.input_tokens" c); [reflexivity|discriminate].
Qed.

Lemma skip_result_handler (c : text) :
  holds_any [M_RESULT_MIN; M_RESULT] c = true ->
  patch_result_handler c = (c, FieldSkip).
Proof.
  rewrite holds_any_pair; unfold patch_result_handler, M_RESULT_MIN, M_RESULT.
  destruct (contains "inputTokens:J.inputTokens" c); [reflexivity|].
  destruct (contains "inputTokens: J.inputTokens" c); [reflexivity|discriminate].
Qed.

Lemma skip_compact (c : text) :
  contains COMPACT_ORIGINAL c = false ->
  contains COMPACT_MIN_ORIGINAL c = false ->
  holds_any [COMPACT_PATCHED; COMPACT_MIN_PATCHED] c = true ->
  patch_compact c = (c, FieldSkip).
Proof.
  rewrite holds_any_pair; unfold patch_compact.
  now intros -> -> ->.
Qed.

Lemma skip_definition b64 prettified css_var react_var signal_hook (c : text) :
  contains DEF_MARKER c = true ->
  define_component b64 prettified css_var react_var signal_hook c
  = inr (c, DefSkip).
Proof. unfold define_component; now intros ->. Qed.

Lemma skip_call prettified css_var react_var footer_comp (c : text) :
  contains CALL_MARKER c = true ->
  inject_call prettified css_var react_var footer_comp c = CallDone c CallSkip.
Proof.
  unfold inject_call; cbv zeta; intros ->; cbn [negb].
  now rewrite andb_false_r.
Qed.

Lemma skip_gate (c : text) :
  contains GATE_1 c = false -> contains GATE_2 c = false ->
  contains GATE_3 c = false -> contains GATE_MARKER c = true ->
  remove_gate c = (c, GateSkip).
Proof.
  unfold remove_gate, er0_patterns; cbn [remove_first_gate].
  fold GATE_1 GATE_2 GATE_3 GATE_MARKER_2.
  now intros -> -> -> ->.
Qed.

(** On a text where every predicate holds and nothing unpatched is left,
    [patch_js] writes the text back as it is and reports SKIP everywhere. *)
Lemma patched_is_fixed (b64 c : text) :
  fully_patched c = true -> patch_js b64 c = JsWritten c all_skipped.
Proof.
  unfold fully_patched; intros H.
  apply andb_prop in H as [H Hmark]. apply andb_prop in H as [H Hg3].
  apply andb_prop in H as [H Hg2]. apply andb_prop in H as [H Hg1].
  apply andb_prop in H as [H Hcall]. apply andb_prop in H as [H Hdef].
  apply andb_prop in H as [H Hcp]. apply andb_prop in H as [H Hcm].
  apply andb_prop in H as [H Hco]. apply andb_prop in H as [H Hres].
  apply andb_prop in H as [Huse Hupd].
  apply negb_true_iff in Hg1, Hg2, Hg3, Hcm, Hco.
  unfold patch_js, patch_token_fields; cbv zeta.
  rewrite (skip_usage_data _ Huse), (skip_update_usage _ Hupd),
    (skip_result_handler _ Hres), (skip_compact _ Hco Hcm Hcp).
  rewrite (skip_definition _ _ _ _ _ _ Hdef), (skip_call _ _ _ _ _ Hcall).
  rewrite (skip_gate _ Hg1 Hg2 Hg3 Hmark).
  reflexivity.
Qed.

Lemma holds_any_keeps (ms : list text) (c c' : text) :
  keeps c c' -> forallb stable ms = true ->
  holds_any ms c = true -> holds_any ms c' = true.
Proof.
  unfold holds_any; intros K Hs H.
  apply existsb_exists in H as (m & Hin & Hm).
  apply existsb_exists. exists m. split; [exact Hin|].
  rewrite forallb_forall in Hs. exact (K m (Hs m Hin) Hm).
Qed.

Lemma keeps_trans (a b c : text) : keeps a b -> keeps b c -> keeps a c.
Proof. intros H1 H2 m Hm Ha. exact (H2 m Hm (H1 m Hm Ha)). Qed.

(** After a clean run with nothing unpatched left, every predicate holds. *)
Lemma clean_run_fully_patched (b64 content out : text) (log : js_log) :
  patch_js b64 content = JsWritten out log ->
  clean_run log = true -> no_leftover out = true ->
  fully_patched out = true.
Proof.
  intros H Hclean Hleft.
  unfold patch_js, patch_token_fields in H; cbv zeta in H.
  destruct (patch_usage_data content) as [ca sa] eqn:Ea; cbv beta iota in H.
  destruct (patch_update_usage ca) as [cb sb] eqn:Eb; cbv beta iota in H.
  destruct (patch_result_handler cb) as [cc sc] eqn:Ec; cbv beta iota in H.
  destruct (patch_compact cc) as [cd sd] eqn:Ed; cbv beta iota in H.
  destruct (define_component _ _ _ _ _ cd) as [e|[c1 sdef]] eqn:D;
    [discriminate|].
  destruct (inject_call _ _ _ _ c1) as [c2 scall|e|] eqn:I; try discriminate.
  destruct (remove_gate c2) as [c3 sg] eqn:G.
  apply JsWritten_inj in H as [<- <-].
  unfold clean_run in Hclean;
    cbn [log_usage_data log_update_usage log_result_handler log_compact
         log_call log_gate] in Hclean.
  apply andb_prop in Hclean as [Hclean Hgate].
  apply andb_prop in Hclean as [Hclean Hcall].
  apply andb_prop in Hclean as [Hclean Hsd].
  apply andb_prop in Hclean as [Hclean Hsc].
  apply andb_prop in Hclean as [Hsa Hsb].
  assert (Hs : forall n, scall <> CallSameLine n)
    by (intros n ->; discriminate).
  (* the steps keep the stable markers *)
  assert (Kab : keeps ca cb).
  { intros m Hm Hc. pose proof (keep_update_usage m ca (stable_parts m Hm) Hc) as K.
    now rewrite Eb in K. }
  assert (Kbc : keeps cb cc).
  { intros m Hm Hc. pose proof (keep_result_handler m cb (stable_parts m Hm) Hc) as K.
    now rewrite Ec in K. }
  assert (Kcd : keeps cc cd).
  { intros m Hm Hc. pose proof (keep_compact m cc (stable_parts m Hm) Hc) as K.
    now rewrite Ed in K. }
  assert (Kd1 : keeps cd c1).
  { intros m Hm Hc. exact (keep_definition m _ _ _ _ _ _ _ _ (stable_parts m Hm) D Hc). }
  assert (K12 : keeps c1 c2).
  { intros m Hm Hc. exact (keep_call m _ _ _ _ _ _ _ (stable_parts m Hm) I Hs Hc). }
  assert (K23 : keeps c2 c3).
  { intros m Hm Hc. pose proof (keep_gate m c2 (stable_parts m Hm) Hc) as K.
    now rewrite G in K. }
  pose proof (keeps_trans _ _ _ Kd1 (keeps_trans _ _ _ K12 K23)) as Kd3.
  pose proof (keeps_trans _ _ _ Kcd Kd3) as Kc3.
  pose proof (keeps_trans _ _ _ Kbc Kc3) as Kb3.
  pose proof (keeps_trans _ _ _ Kab Kb3) as Ka3.
  (* what each step establishes *)
  assert (Pa : holds_any [M_USAGE_MIN; M_USAGE] c3 = true).
  { apply (holds_any_keeps _ ca); [exact Ka3|vm_compute; reflexivity|].
    pose proof (est_usage_data content) as P. rewrite Ea in P. apply P.
    cbn [snd]; intros ->; discriminate. }
  assert (Pb : holds_any [M_UPDATE_MIN; M_UPDATE] c3 = true).
  { apply (holds_any_keeps _ cb); [exact Kb3|vm_compute; reflexivity|].
    pose proof (est_update_usage ca) as P. rewrite Eb in P. apply P.
    cbn [snd]; intros ->; discriminate. }
  assert (Pc : holds_any [M_RESULT_MIN; M_RESULT] c3 = true).
  { apply (holds_any_keeps _ cc); [exact Kc3|vm_compute; reflexivity|].
    pose proof (est_result_handler cb) as P. rewrite Ec in P. apply P.
    cbn [snd]; intros ->; discriminate. }
  assert (Pd : holds_any [COMPACT_PATCHED; COMPACT_MIN_PATCHED] c3 = true).
  { apply (holds_any_keeps _ cd); [exact Kd3|vm_compute; reflexivity|].
    pose proof (est_compact cc) as P. rewrite Ed in P. apply P.
    cbn [snd]; intros ->; discriminate. }
  pose proof (define_component_marker _ _ _ _ _ _ _ _ D) as Hd1.
  pose proof (inject_call_marker _ _ _ _ _ _ _ I (or_introl Hs) Hd1) as Hd2.
  assert (Pdef : contains DEF_MARKER c3 = true).
  { pose proof (remove_gate_marker c2 Hd2) as P. now rewrite G in P. }
  assert (Pcall : contains CALL_MARKER c3 = true).
  { apply (K23 CALL_MARKER); [vm_compute; reflexivity|].
    exact (est_call _ _ _ _ _ _ _ I Hd1). }
  assert (Pgate : contains GATE_MARKER c3 = true).
  { pose proof (est_gate c2) as P. rewrite G in P. apply P; cbn [snd].
    - intros ->; discriminate.
    - intros ->. cbn in Hgate.
      now destruct (list_eq_dec ascii_dec GATE_2 GATE_2). }
  unfold no_leftover in Hleft.
  apply andb_prop in Hleft as [Hleft L5]. apply andb_prop in Hleft as [Hleft L4].
  apply andb_prop in Hleft as [Hleft L3]. apply andb_prop in Hleft as [L1 L2].
  unfold fully_patched.
  now rewrite Pa, Pb, Pc, L1, L2, Pd, Pdef, Pcall, L3, L4, L5, Pgate.
Qed.

(** C1 (amended). When the first run of [patch_js] succeeds with every
    token-field transform applied or skipped, the call not injected by the
    same-line split and the gate removed through its first or third
    spelling (or already removed), and its output holds no further
    unpatched compact_boundary or gate literal, the second run writes the
    very same text and reports every transform as skipped. *)
Theorem apply_twice (b64 content out : text) (log : js_log) :
  patch_js b64 content = JsWritten out log ->
  clean_run log = true -> no_leftover out = true ->
  patch_js b64 out = JsWritten out all_skipped /\
  js_file_after b64 (js_file_after b64 content) = js_file_after b64 content.
Proof.
  intros H Hclean Hleft.
  pose proof (patched_is_fixed b64 out
                (clean_run_fully_patched _ _ _ _ H Hclean Hleft)) as F.
  split; [exact F|].
  unfold js_file_after at 2 3. rewrite H.
  unfold js_file_after. now rewrite F.
Qed.

(** The sample minified artifact with the third gate spelling. *)
Lemma apply_twice_witness :
  patch_js SAMPLE_B64 (js_file_after SAMPLE_B64 (minified_artifact gate_fn_3))
    = JsWritten (js_file_after SAMPLE_B64 (minified_artifact gate_fn_3))
                all_skipped /\
  js_file_after SAMPLE_B64 (js_file_after SAMPLE_B64 (minified_artifact gate_fn_3))
    = js_file_after SAMPLE_B64 (minified_artifact gate_fn_3).
Proof.
  apply (apply_twice SAMPLE_B64 (minified_artifact gate_fn_3) _
           {| log_usage_data := OkMinified; log_update_usage := OkMinified;
              log_result_handler := OkMinified; log_compact := OkMinified;
              log_definition := DefMinified; log_call := CallMinified;
              log_gate := GateRemoved GATE_3 |});
    vm_compute; reflexivity.
Defined.

(** C1 as stated fails on an artifact with two gated functions: the first
    run removes the first gate, the second run succeeds too, removes the
    second gate and reports it, so the two outputs differ. *)
Lemma apply_twice_counterexample :
  option_map log_gate
    (log_of (patch_js SAMPLE_B64 (minified_artifact gate_fn_3_twice)))
    = Some (GateRemoved GATE_3) /\
  option_map log_gate
    (log_of (patch_js SAMPLE_B64
               (js_file_after SAMPLE_B64 (minified_artifact gate_fn_3_twice))))
    = Some (GateRemoved GATE_3) /\
  js_file_after SAMPLE_B64
    (js_file_after SAMPLE_B64 (minified_artifact gate_fn_3_twice))
  <> js_file_after SAMPLE_B64 (minified_artifact gate_fn_3_twice).
Proof.
  split; [vm_compute; reflexivity|].
  split; [vm_compute; reflexivity|].
  assert (H1 : contains GATE_3
                 (js_file_after SAMPLE_B64 (minified_artifact gate_fn_3_twice))
               = true) by (vm_compute; reflexivity).
  assert (H2 : contains GATE_3
                 (js_file_after SAMPLE_B64
                    (js_file_after SAMPLE_B64 (minified_artifact gate_fn_3_twice)))
               = false) by (vm_compute; reflexivity).
  intros E. rewrite E in H2. congruence.
Qed.

(** After a removal through the second spelling the text is stable, but
    the second run reports a warning for the gate: its marker [/*er0*/] is
    not the one the guard looks for. *)
Example apply_twice_second_spelling :
  js_file_after SAMPLE_B64 (js_file_after SAMPLE_B64 (minified_artifact gate_fn_2))
    = js_file_after SAMPLE_B64 (minified_artifact gate_fn_2) /\
  option_map log_gate
    (log_of (patch_js SAMPLE_B64
               (js_file_after SAMPLE_B64 (minified_artifact gate_fn_2))))
    = Some GateWarning.
Proof. split; vm_compute; reflexivity. Qed.

(** ** The stylesheet, forth and back *)

Lemma css_file_after_content (css : text) :
  css_file_after css = css_content (patch_css css).
Proof.
  unfold css_file_after, patch_css.
  destruct (contains CSS_SELECTOR css); cbn [negb];
    [destruct (contains ST_MARKER css)
    |destruct (contains ST_MARKER (css ++ custom_css))]; reflexivity.
Qed.

(** X1. [patch_css] is append-only and idempotent on every stylesheet, whatever
    it already holds: the input is a prefix of the output, and a second run
    changes and writes nothing. *)
Theorem patch_css_idempotent (css : text) :
  (exists tail, css_file_after css = css ++ tail) /\
  css_file_after (css_file_after css) = css_file_after css /\
  css_changed (patch_css (css_file_after css)) = false /\
  css_custom (patch_css (css_file_after css)) = CssSkip /\
  css_palette (patch_css (css_file_after css)) = CssSkip.
Proof.
  destruct (patch_css_guards css) as (G1 & G2 & G3 & G4).
  assert (F : forall t, contains CSS_SELECTOR t = true ->
                        contains ST_MARKER t = true ->
                        patch_css t
                        = {| css_content := t; css_changed := false;
                             css_custom := CssSkip; css_palette := CssSkip;
                             css_ok := true |}).
  { intros t Ht1 Ht2; unfold patch_css; rewrite Ht1; cbn [negb];
      rewrite Ht2; reflexivity. }
  assert (D : exists tail,
             css_file_after css = css ++ tail /\
             contains CSS_SELECTOR (css ++ tail) = true /\
             contains ST_MARKER (css ++ tail) = true).
  { rewrite css_file_after_content. unfold patch_css.
    destruct (contains CSS_SELECTOR css) eqn:Hs; cbn [negb].
    - destruct (contains ST_MARKER css) eqn:Hm; cbn [negb css_content].
      + exists []. rewrite app_nil_r. auto.
      + exists st_css. repeat split.
        * now apply contains_app_l.
        * apply contains_app_r; vm_compute; reflexivity.
    - rewrite G1. destruct (contains ST_MARKER css) eqn:Hm;
        cbn [negb css_content].
      + exists custom_css. repeat split; trivial.
      + exists (custom_css ++ st_css). rewrite <- app_assoc. auto. }
  destruct D as (tail & E & Hs & Hm).
  split; [now exists tail|].
  rewrite (css_file_after_content (css_file_after css)), E, (F _ Hs Hm).
  cbn [css_content css_changed css_custom css_palette]. auto.
Qed.

(** *** [clean_css] as a cut *)

Lemma rep_greedy_all p s n k x :
  (forall c, p c = true) -> k [] (n + length s) = Some x ->
  rep_greedy p s n k = Some x.
Proof.
  intros Hp Hk. rewrite <- (app_nil_r s). apply rep_greedy_run; trivial.
  apply forallb_forall; intros c _; apply Hp.
Qed.

(** The pattern [LITERAL.*$] (DOTALL) matches exactly where the literal
    starts, and then up to the end of the text. *)
Lemma match_at_cut (l s : text) :
  match_at (seq [Lit l; Rep true any_char; Eos]) s
  = if starts_with l s then Some (length s, []) else None.
Proof.
  destruct (starts_with l s) eqn:H.
  - apply starts_with_iff in H as [r ->].
    unfold match_at; cbn [seq].
    rewrite rmatch_seq, rmatch_lit_app, rmatch_seq. cbn [rmatch].
    rewrite length_app. apply rep_greedy_all; reflexivity.
  - unfold match_at; cbn [seq rmatch]. now rewrite H.
Qed.

Lemma re_sub_from_erase_all (r : regex) (s : text) (k : nat) :
  length s <= k -> re_sub_from r erase k s = [].
Proof.
  revert k; induction s as [|c s IH]; intros k Hk.
  - cbn [re_sub_from]. destruct k; [|reflexivity].
    now destruct (match_at r []) as [[? ?]|].
  - destruct k as [|k]; [cbn in Hk; lia|].
    cbn [re_sub_from]. apply IH. cbn in Hk; lia.
Qed.

Lemma re_sub_cut (l s : text) :
  l <> [] ->
  re_sub (seq [Lit l; Rep true any_char; Eos]) erase s = cut_at l s.
Proof.
  intros Hl. unfold re_sub. induction s as [|c s IH].
  - cbn [re_sub_from cut_at]. rewrite match_at_cut.
    destruct l; [contradiction|reflexivity].
  - cbn [re_sub_from cut_at]. rewrite match_at_cut.
    destruct (starts_with l (c :: s)).
    + cbn [length erase app]. now apply re_sub_from_erase_all.
    + now rewrite IH.
Qed.

Lemma clean_css_cut (css : text) :
  clean_css css = cut_at PALETTE_CUT (cut_at CUSTOM_CUT css).
Proof.
  unfold clean_css.
  rewrite (re_sub_cut CUSTOM_CUT) by discriminate.
  now rewrite (re_sub_cut PALETTE_CUT) by discriminate.
Qed.

Lemma cut_at_prefix (l s : text) : exists tail, s = cut_at l s ++ tail.
Proof.
  induction s as [|c s (tail & IH)]; [now exists []|].
  cbn [cut_at]. destruct (starts_with l (c :: s)).
  - now exists (c :: s).
  - exists tail. cbn [app]. now rewrite <- IH.
Qed.

Lemma cut_at_absent (l s : text) : contains l s = false -> cut_at l s = s.
Proof.
  induction s as [|c s IH]; [reflexivity|].
  rewrite contains_cons; intros H; apply orb_false_elim in H as [H1 H2].
  cbn [cut_at]. now rewrite H1, IH.
Qed.

Lemma cut_at_free (l s : text) : l <> [] -> contains l (cut_at l s) = false.
Proof.
  intros Hl. induction s as [|c s IH].
  - cbn [cut_at]. rewrite contains_nil. now destruct l.
  - cbn [cut_at]. destruct (starts_with l (c :: s)) eqn:E.
    + rewrite contains_nil. now destruct l.
    + rewrite contains_cons, IH, orb_false_r.
      destruct (starts_with l (c :: cut_at l s)) eqn:E2; [|reflexivity].
      destruct (cut_at_prefix l s) as [tail Ht].
      apply starts_with_iff in E2 as [r E2].
      assert (E3 : starts_with l (c :: s) = true).
      { apply starts_with_iff. exists (r ++ tail).
        rewrite Ht at 1. change (c :: cut_at l s ++ tail)
          with ((c :: cut_at l s) ++ tail).
        now rewrite E2, <- app_assoc. }
      congruence.
Qed.

Lemma contains_prefix_free (l a b : text) :
  contains l (a ++ b) = false -> contains l a = false.
Proof.
  intros H. destruct (contains l a) eqn:E; [|reflexivity].
  now rewrite (contains_app_l _ _ b E) in H.
Qed.

(** A pattern [c :: l'] with no further [c] cannot start before a [c] and
    reach across it. *)
Lemma contains_boundary (c : ascii) (l' a b : text) :
  has_char c l' = false ->
  contains (c :: l') (a ++ c :: b)
  = contains (c :: l') a || contains (c :: l') (c :: b).
Proof.
  intros Hc. induction a as [|x a IH].
  - cbn [app]. now rewrite contains_nil.
  - cbn [app]. rewrite (contains_cons _ x (a ++ c :: b)), (contains_cons _ x a), IH.
    cbn [starts_with]. rewrite starts_with_app_free by assumption.
    apply orb_assoc.
Qed.

Lemma cut_at_boundary (c : ascii) (l' a b : text) :
  has_char c l' = false ->
  contains (c :: l') a = false -> starts_with (c :: l') (c :: b) = true ->
  cut_at (c :: l') (a ++ c :: b) = a.
Proof.
  intros Hc Ha Hb. induction a as [|x a IH].
  - cbn [app cut_at]. now rewrite Hb.
  - rewrite contains_cons in Ha; apply orb_false_elim in Ha as [H1 H2].
    cbn [app cut_at].
    replace (starts_with (c :: l') (x :: a ++ c :: b)) with false.
    + now rewrite IH.
    + symmetry. cbn [starts_with] in *.
      now rewrite starts_with_app_free.
Qed.

Lemma css_file_after_cases (css : text) :
  css_file_after css = css \/ css_file_after css = css ++ st_css \/
  css_file_after css = css ++ custom_css \/
  css_file_after css = css ++ custom_css ++ st_css.
Proof.
  rewrite css_file_after_content. unfold patch_css.
  destruct (contains CSS_SELECTOR css); cbn [negb].
  - destruct (contains ST_MARKER css); cbn [negb css_content]; auto.
  - destruct (contains ST_MARKER (css ++ custom_css)); cbn [negb css_content];
      rewrite <- ?app_assoc; auto.
Qed.

(** X2. [clean_css] only truncates: its result is a prefix of the input that
    holds neither block marker, and cleaning again changes nothing. *)
Theorem clean_css_truncates (css : text) :
  (exists tail, css = clean_css css ++ tail) /\
  contains CUSTOM_CUT (clean_css css) = false /\
  contains PALETTE_CUT (clean_css css) = false /\
  clean_css (clean_css css) = clean_css css.
Proof.
  rewrite !clean_css_cut.
  destruct (cut_at_prefix CUSTOM_CUT css) as [t1 E1].
  destruct (cut_at_prefix PALETTE_CUT (cut_at CUSTOM_CUT css)) as [t2 E2].
  pose proof (cut_at_free CUSTOM_CUT css ltac:(discriminate)) as F1.
  pose proof (cut_at_free PALETTE_CUT (cut_at CUSTOM_CUT css)
                ltac:(discriminate)) as F2.
  assert (F3 : contains CUSTOM_CUT (cut_at PALETTE_CUT (cut_at CUSTOM_CUT css))
               = false).
  { rewrite E2 in F1. exact (contains_prefix_free _ _ _ F1). }
  split; [|split; [exact F3|split; [exact F2|]]].
  - exists (t2 ++ t1). rewrite app_assoc, <- E2. exact E1.
  - rewrite (cut_at_absent CUSTOM_CUT _ F3). now rewrite cut_at_absent.
Qed.

(** X3. Round trip of the stylesheet: on a stylesheet that holds neither block
    marker (on a line of its own), [patch_css] followed by [clean_css]
    gives the original text back. *)
Theorem clean_css_patch_css (css : text) :
  contains CUSTOM_CUT css = false -> contains PALETTE_CUT css = false ->
  clean_css (css_file_after css) = css.
Proof.
  intros H1 H2. rewrite clean_css_cut.
  destruct custom_css_head as [tc Ec]. destruct st_css_head as [ts Es].
  assert (C1 : starts_with CUSTOM_CUT custom_css = true) by reflexivity.
  assert (C2 : starts_with PALETTE_CUT st_css = true) by reflexivity.
  assert (C3 : contains CUSTOM_CUT st_css = false) by (vm_compute; reflexivity).
  assert (C4 : forall b, starts_with CUSTOM_CUT (custom_css ++ b) = true).
  { intros b. apply starts_with_iff in C1 as [r ->].
    rewrite <- app_assoc. apply starts_with_app. }
  destruct (css_file_after_cases css) as [-> | [-> | [-> | ->]]].
  - now rewrite (cut_at_absent _ _ H1), (cut_at_absent _ _ H2).
  - rewrite (cut_at_absent CUSTOM_CUT).
    + rewrite Es in *. now apply cut_at_boundary.
    + rewrite Es in *. unfold CUSTOM_CUT in *.
      rewrite contains_boundary by reflexivity. now rewrite H1, C3.
  - rewrite Ec in *. unfold CUSTOM_CUT at 1.
    rewrite cut_at_boundary; trivial. now apply cut_at_absent.
  - specialize (C4 st_css). rewrite Ec in *. cbn [app] in *.
    unfold CUSTOM_CUT at 1.
    rewrite cut_at_boundary; trivial. now apply cut_at_absent.
Qed.

Lemma clean_css_patch_css_witness :
  clean_css (css_file_after "body{margin:0}") = ("body{margin:0}" : text).
Proof.
  apply (clean_css_patch_css "body{margin:0}"); vm_compute; reflexivity.
Defined.

(** ** What a match captures *)

Lemma rep_lazy_some p s n k x :
  rep_lazy p s n k = Some x ->
  exists run rest, s = run ++ rest /\ k rest (n + length run) = Some x.
Proof.
  revert n; induction s as [|c s IH]; intros n H; cbn [rep_lazy] in H.
  - exists [], []. cbn [app length]. rewrite Nat.add_0_r.
    split; [reflexivity|]. now destruct (k [] n).
  - destruct (k (c :: s) n) as [y|] eqn:E.
    + exists [], (c :: s). cbn [app length]. rewrite Nat.add_0_r.
      split; [reflexivity|congruence].
    + destruct (p c); [|discriminate].
      destruct (IH _ H) as (run & rest & -> & Hk).
      exists (c :: run), rest. cbn [app length].
      now rewrite Nat.add_succ_r.
Qed.

(** A successful match is a successful call of the continuation, on
    captures that extend the given ones by identifiers and hold every
    group the pattern always captures. *)
Lemma rmatch_inv (r : regex) :
  id_groups r ->
  forall s n g k x,
    rmatch r s n g k = Some x ->
    exists s' n' g',
      k s' n' g' = Some x /\
      (ids_only g -> ids_only g') /\
      (forall i, has_group i g \/ captures_group i r = true -> has_group i g').
Proof.
  induction r as [l|p|r1 IH1 r2 IH2|gr p|r1 IH1|i r1 IH1|]; intros Hid s n g k x H.
  - cbn [rmatch] in H. destruct (starts_with l s); [|discriminate].
    exists (skipn (length l) s), (n + length l), g.
    repeat split; trivial. intros i [Hi|Hi]; [exact Hi|discriminate].
  - cbn [rmatch] in H. destruct s as [|c s]; [discriminate|].
    destruct (p c); [|discriminate].
    exists s, (S n), g.
    repeat split; trivial. intros i [Hi|Hi]; [exact Hi|discriminate].
  - destruct Hid as [Hid1 Hid2]. rewrite rmatch_seq in H.
    destruct (IH1 Hid1 _ _ _ _ _ H) as (s1 & n1 & g1 & H1 & I1 & C1).
    destruct (IH2 Hid2 _ _ _ _ _ H1) as (s2 & n2 & g2 & H2 & I2 & C2).
    exists s2, n2, g2. repeat split; auto.
    intros i [Hi|Hi].
    + apply C2; left. apply C1; now left.
    + cbn [captures_group] in Hi. apply orb_prop in Hi as [Hi|Hi].
      * apply C2; left. apply C1; now right.
      * apply C2; now right.
  - destruct gr; cbn [rmatch] in H.
    + apply rep_greedy_some in H as (run & rest & _ & _ & H).
      exists rest, (n + length run), g.
      repeat split; trivial. intros i [Hi|Hi]; [exact Hi|discriminate].
    + apply rep_lazy_some in H as (run & rest & _ & H).
      exists rest, (n + length run), g.
      repeat split; trivial. intros i [Hi|Hi]; [exact Hi|discriminate].
  - cbn [rmatch] in H. destruct (rmatch r1 s n g k) as [y|] eqn:E.
    + injection H as ->.
      destruct (IH1 Hid _ _ _ _ _ E) as (s1 & n1 & g1 & H1 & I1 & C1).
      exists s1, n1, g1. repeat split; trivial.
      intros i [Hi|Hi]; [apply C1; now left|discriminate].
    + exists s, n, g. repeat split; trivial.
      intros i [Hi|Hi]; [exact Hi|discriminate].
  - cbn [id_groups] in Hid; subst r1. rewrite rmatch_grp in H.
    unfold _JS_ID in H. apply rmatch_token_some in H as (c & t & rest & -> & Hc & Ht & H).
    replace (n + S (length t) - n) with (S (length t)) in H by lia.
    cbn [firstn] in H. rewrite firstn_app, firstn_all, Nat.sub_diag in H.
    cbn [firstn] in H. rewrite app_nil_r in H.
    exists rest, (n + S (length t)), ((i, c :: t) :: g).
    split; [exact H|]. split.
    + intros Hg m u [E|Hin]; [|exact (Hg m u Hin)].
      injection E as _ <-. cbn [is_identifier]. now rewrite Hc, Ht.
    + intros j [[u Hu]|Hj].
      * exists u; now right.
      * cbn [captures_group] in Hj. apply Nat.eqb_eq in Hj as ->.
        exists (c :: t); now left.
  - cbn [rmatch] in H.
    assert (K : k s n g = Some x).
    { destruct s as [|c [|d s]]; try discriminate; trivial.
      now destruct (Ascii.eqb c nl). }
    exists s, n, g. repeat split; trivial.
    intros i [Hi|Hi]; [exact Hi|discriminate].
Qed.

Lemma group_identifier (i : nat) (g : captures) :
  ids_only g -> has_group i g -> is_identifier (group i g) = true.
Proof.
  induction g as [|[m t] g IH]; intros Hg [u Hu]; [contradiction|].
  cbn [group]. destruct (Nat.eqb_spec i m) as [->|Hne].
  - apply (Hg m t); now left.
  - apply IH.
    + intros n v Hin. apply (Hg n v); now right.
    + destruct Hu as [E|Hu]; [injection E as -> _; contradiction|].
      now exists u.
Qed.

Lemma match_at_identifier (r : regex) (i : nat) s n g :
  id_groups r -> captures_group i r = true ->
  match_at r s = Some (n, g) -> is_identifier (group i g) = true.
Proof.
  intros Hid Hc H. unfold match_at in H.
  destruct (rmatch_inv r Hid _ _ _ _ _ H) as (s' & n' & g' & E & I & C).
  injection E as _ <-.
  apply group_identifier.
  - apply I. intros m t [].
  - apply C; now right.
Qed.

(** *** Matches reported by [search] and [finditer] *)

Lemma re_search_sound (r : regex) (s : text) (m : rmatch_info) :
  re_search r s = Some m ->
  m_start m <= length s /\
  match_at r (skipn (m_start m) s) = Some (m_len m, m_groups m).
Proof.
  revert m; induction s as [|c s IH]; intros m H; cbn [re_search] in H.
  - destruct (match_at r []) as [[n g]|] eqn:E; [|discriminate].
    injection H as <-. cbn [m_start m_len m_groups skipn length]. auto.
  - destruct (match_at r (c :: s)) as [[n g]|] eqn:E.
    + injection H as <-. cbn [m_start m_len m_groups skipn length].
      split; [lia|exact E].
    + destruct (re_search r s) as [m'|] eqn:F; [|discriminate].
      injection H as <-. destruct (IH _ eq_refl) as [Hle Hm].
      cbn [shift_match m_start m_len m_groups skipn length]. split; [lia|exact Hm].
Qed.

Lemma finditer_from_sound (r : regex) (pos skip : nat) (s : text) (m : rmatch_info) :
  In m (finditer_from r pos skip s) ->
  exists i, m_start m = pos + i /\ i < length s /\
            match_at r (skipn i s) = Some (m_len m, m_groups m).
Proof.
  revert pos skip; induction s as [|c s IH]; intros pos skip H; [contradiction|].
  cbn [finditer_from] in H.
  assert (Hrec : forall k, In m (finditer_from r (S pos) k s) ->
                 exists i, m_start m = pos + i /\ i < length (c :: s) /\
                           match_at r (skipn i (c :: s)) = Some (m_len m, m_groups m)).
  { intros k Hk. destruct (IH _ _ Hk) as (i & E & Hi & Hm).
    exists (S i). cbn [skipn length]. repeat split; [lia|lia|exact Hm]. }
  destruct skip as [|k]; [|now apply (Hrec k)].
  destruct (match_at r (c :: s)) as [[n g]|] eqn:E; [|now apply (Hrec 0)].
  destruct H as [<-|H]; [|now apply (Hrec (n - 1))].
  exists 0. cbn [m_start m_len m_groups skipn length].
  repeat split; [lia|lia|exact E].
Qed.

Lemma finditer_sound (r : regex) (s : text) (m : rmatch_info) :
  In m (finditer r s) ->
  m_start m < length s /\
  match_at r (skipn (m_start m) s) = Some (m_len m, m_groups m).
Proof.
  intros H. apply finditer_from_sound in H as (i & E & Hi & Hm).
  cbn [Nat.add] in E. now rewrite E.
Qed.

Lemma last_in {A} (l : list A) (x : A) (rest : list A) :
  rev l = x :: rest -> In x l.
Proof. intros H. apply in_rev. rewrite H. now left. Qed.

Ltac id_pattern := cbn [seq id_groups]; repeat split.

Lemma search_identifier (r : regex) (i : nat) (s : text) (m : rmatch_info) :
  id_groups r -> captures_group i r = true ->
  re_search r s = Some m -> is_identifier (group i (m_groups m)) = true.
Proof.
  intros Hid Hc H. apply re_search_sound in H as [_ H].
  exact (match_at_identifier _ _ _ _ _ Hid Hc H).
Qed.

Ltac by_search i E :=
  refine (search_identifier _ i _ _ _ _ E); [id_pattern | reflexivity].
Ltac case_search m E :=
  match goal with
  | |- context [re_search ?r ?s] => destruct (re_search r s) as [m|] eqn:E
  end.
Ltac by_match i E :=
  refine (match_at_identifier _ i _ _ _ _ _ E); [id_pattern | reflexivity].

(** X4. Every anchor resolver returns a JavaScript identifier, whatever the
    text: a captured name is one by the pattern, and so are the
    fallbacks. *)
Theorem resolvers_return_identifiers (content css_var : text) :
  is_identifier (detect_css_module_var content) = true /\
  is_identifier (detect_react_var content css_var) = true /\
  is_identifier (detect_footer_component content css_var) = true /\
  is_identifier (detect_signal_hook content css_var) = true /\
  match detect_footer_function content css_var with
  | Some fn => is_identifier fn = true
  | None => True
  end.
Proof.
  split; [|split; [|split; [|split]]].
  - unfold detect_css_module_var.
    case_search m E; [by_search 1 E|reflexivity].
  - unfold detect_react_var; cbv zeta.
    case_search m E; [by_search 1 E|].
    case_search m2 E2; [by_search 1 E2|reflexivity].
  - unfold detect_footer_component; cbv zeta.
    case_search m E; [|reflexivity].
    assert (Hm : is_identifier (group 2 (m_groups m)) = true) by (by_search 2 E).
    destruct (list_eq_dec ascii_dec _ CC_MetricsBar); [|exact Hm].
    case_search m2 E2; [by_search 2 E2|exact Hm].
  - unfold detect_signal_hook; cbv zeta.
    destruct (find_footer_pos content css_var) as [p|]; [|reflexivity].
    destruct (rev _) as [|last_match rest]; [reflexivity|].
    destruct (match_at _ _) as [[n g]|] eqn:E; [|reflexivity].
    by_match 1 E.
  - unfold detect_footer_function; cbv zeta.
    destruct (find_footer_pos content css_var) as [p|]; [|exact I].
    destruct (rev _) as [|last_match rest] eqn:E; [exact I|].
    apply last_in, finditer_sound in E as [_ E].
    by_match 1 E.
Qed.

(** ** The anchor of the definition *)

Lemma function_name_match (s : text) (n : nat) (g : captures) :
  match_at (seq [Lit "function "; Grp 1 _JS_ID; Lit "("]) s = Some (n, g) ->
  exists rest, s = "function " ++ group 1 g ++ "(" ++ rest.
Proof.
  unfold match_at; cbn [seq]. rewrite rmatch_seq. intros H.
  apply rmatch_lit_some in H as (s1 & -> & H).
  rewrite rmatch_seq, rmatch_grp in H. unfold _JS_ID in H.
  apply rmatch_token_some in H as (c & t & rest & -> & _ & _ & H).
  apply rmatch_lit_some in H as (rest' & -> & H).
  injection H as _ <-. exists rest'.
  replace (0 + length ("function " : text) + S (length t)
           - (0 + length ("function " : text))) with (S (length t)) by lia.
  cbn [group Nat.eqb firstn].
  rewrite firstn_app, firstn_all, Nat.sub_diag; cbn [firstn].
  rewrite app_nil_r. reflexivity.
Qed.

Lemma slice_contains (m : text) (i j : nat) (s : text) :
  contains m (slice i j s) = true -> contains m s = true.
Proof.
  unfold slice; intros H.
  rewrite <- (firstn_skipn i s). apply contains_app_r.
  rewrite <- (firstn_skipn (j - i) (skipn i s)). now apply contains_app_l.
Qed.

(** The name found by [detect_footer_function] is the name of a function
    header of the text. *)
Lemma detect_footer_function_anchor (content css_var fn : text) :
  detect_footer_function content css_var = Some fn ->
  contains ("function " ++ fn ++ "(") content = true.
Proof.
  unfold detect_footer_function; cbv zeta.
  destruct (find_footer_pos content css_var) as [p|]; [|discriminate].
  destruct (rev _) as [|last_match rest] eqn:E; [discriminate|].
  intros H; injection H as <-.
  apply last_in, finditer_sound in E as [_ E].
  apply function_name_match in E as [r E].
  apply (slice_contains _ (p - SEARCH_WINDOW) p). fold (footer_chunk content p).
  rewrite <- (firstn_skipn (m_start last_match) (footer_chunk content p)), E.
  apply contains_app_r, starts_with_contains, starts_with_iff.
  exists r. repeat rewrite <- app_assoc. reflexivity.
Qed.

Lemma truthy_some (o : option text) (fn : text) :
  truthy o = Some fn -> o = Some fn.
Proof. destruct o as [[|c t]|]; cbn; congruence. Qed.

Lemma define_component_errors b64 prettified css_var react_var signal_hook c e :
  define_component b64 prettified css_var react_var signal_hook c = inl e ->
  (prettified = true /\ e = NoFooterFunctionDefinition) \/
  (prettified = false /\ e = NoFooterFunctionName).
Proof.
  unfold define_component; cbv zeta.
  destruct (contains DEF_MARKER c); cbn [negb]; [discriminate|].
  destruct prettified.
  - destruct (or_else _ _); [discriminate|].
    intros H; injection H as <-. now left.
  - destruct (truthy _) as [fn|] eqn:T.
    + apply truthy_some, detect_footer_function_anchor in T.
      rewrite T; cbn [negb]. discriminate.
    + intros H; injection H as <-. now right.
Qed.

Lemma inject_call_errors prettified css_var react_var footer_comp c e :
  inject_call prettified css_var react_var footer_comp c = CallError e ->
  (prettified = true /\ e = NoInjectionPoint) \/
  (prettified = false /\ e = NoFooterReturn).
Proof.
  unfold inject_call; cbv zeta.
  destruct (_ && _).
  - destruct prettified.
    + destruct (inject_call_lines _ _ _ _ _ _); try discriminate.
      intros H; injection H as <-. now left.
    + destruct (contains _ c); cbn [negb]; [discriminate|].
      intros H; injection H as <-. now right.
  - destruct (contains CALL_MARKER c); discriminate.
Qed.

(** X5. The error "Could not find anchor" never occurs: the name returned by
    [detect_footer_function] always heads a function of the text, so in
    minified mode the definition fails only when no name is found.  A
    failure of [patch_js] is one of two errors per encoding. *)
Theorem patch_js_failures (b64 content : text) :
  match patch_js b64 content with
  | JsFailed e =>
      e <> NoAnchor /\
      (if is_prettified content
       then e = NoFooterFunctionDefinition \/ e = NoInjectionPoint
       else e = NoFooterFunctionName \/ e = NoFooterReturn)
  | _ => True
  end.
Proof.
  unfold patch_js; cbv zeta.
  destruct (patch_token_fields content) as [c0 [[[sa sb] sc] sd]].
  destruct (define_component _ _ _ _ _ c0) as [e|[c1 sdef]] eqn:D.
  - apply define_component_errors in D as [[-> ->]|[-> ->]];
      split; auto; discriminate.
  - destruct (inject_call _ _ _ _ c1) as [c2 scall|e|] eqn:I; trivial.
    + now destruct (remove_gate c2).
    + apply inject_call_errors in I as [[-> ->]|[-> ->]];
        split; auto; discriminate.
Qed.

(** ** The injections only insert *)

Lemma join_nl_app (l1 l2 : list text) :
  l1 <> [] -> l2 <> [] ->
  join_nl (l1 ++ l2) = join_nl l1 ++ nl :: join_nl l2.
Proof.
  intros H1 H2. induction l1 as [|a l1 IH]; [contradiction|].
  destruct l1 as [|b l1].
  - cbn [app]. now rewrite join_nl_cons.
  - change ((a :: b :: l1) ++ l2) with (a :: (b :: l1) ++ l2).
    rewrite join_nl_cons by discriminate.
    rewrite IH by discriminate.
    rewrite (join_nl_cons a (b :: l1)) by discriminate.
    now rewrite <- app_assoc.
Qed.

Lemma find_line_bound (P : text -> bool) (lines : list text) (i : nat) :
  find_line P lines = Some i -> i < length lines.
Proof.
  revert i; induction lines as [|l rest IH]; intros i H; [discriminate|].
  cbn [find_line] in H. destruct (P l).
  - injection H as <-. cbn; lia.
  - destruct (find_line P rest) as [j|]; [|discriminate].
    injection H as <-. specialize (IH j eq_refl). cbn; lia.
Qed.

(** Inserting a line at an index below the number of lines inserts the
    line and a newline at a line start of the text. *)
Lemma insert_line_text (x : text) (i : nat) (s : text) :
  i < length (split_nl s) ->
  exists pre post,
    s = pre ++ post /\
    join_nl (insert_at i x (split_nl s)) = pre ++ x ++ nl :: post /\
    match i with
    | O => pre = []
    | S _ => exists pre', pre = pre' ++ [nl]
    end.
Proof.
  intros Hi. unfold insert_at.
  assert (Hsk : skipn i (split_nl s) <> []).
  { intros E. apply (f_equal (@length _)) in E.
    rewrite length_skipn in E. cbn in E. lia. }
  destruct i as [|i].
  - exists [], s. cbn [firstn skipn app].
    rewrite join_nl_cons by apply split_nl_nonempty.
    rewrite join_split. auto.
  - assert (Hfi : firstn (S i) (split_nl s) <> []).
    { intros E. apply (f_equal (@length _)) in E.
      rewrite length_firstn in E. cbn [length] in E. lia. }
    exists (join_nl (firstn (S i) (split_nl s)) ++ [nl]),
           (join_nl (skipn (S i) (split_nl s))).
    split; [|split].
    + rewrite <- app_assoc. cbn [app].
      rewrite <- join_nl_app by assumption.
      now rewrite firstn_skipn, join_split.
    + rewrite join_nl_app by (assumption || discriminate).
      rewrite join_nl_cons by assumption.
      now rewrite <- app_assoc.
    + now eexists.
Qed.

(** X6. The definition transform only inserts: when it is not skipped, the
    result is the input with the component definition and a newline put
    in at one place -- in a minified artifact right before the first
    [function NAME(] of the detected enclosing function, in a prettified
    one at the start of a line -- and nothing else is changed. *)
Theorem define_component_inserts
        (b64 : text) (prettified : bool) (css_var react_var signal_hook c : text) :
  match define_component b64 prettified css_var react_var signal_hook c with
  | inl _ => True
  | inr (c', DefSkip) => c' = c
  | inr (c', DefMinified) =>
      exists pre post fn,
        detect_footer_function c css_var = Some fn /\
        c = pre ++ post /\
        find ("function " ++ fn ++ "(") c = Some (length pre) /\
        c' = pre ++ metrics_def b64 react_var signal_hook ++ nl :: post
  | inr (c', DefPrettified i) =>
      exists pre post,
        c = pre ++ post /\
        (pre = [] \/ exists pre', pre = pre' ++ [nl]) /\
        c' = pre ++ metrics_def b64 react_var signal_hook ++ nl :: post
  end.
Proof.
  unfold define_component; cbv zeta.
  destruct (contains DEF_MARKER c); cbn [negb]; [reflexivity|].
  destruct prettified.
  - destruct (or_else _ _) as [i|] eqn:E; [|exact I].
    assert (Hi : i < length (split_nl c)).
    { unfold or_else in E.
      destruct (truthy _) as [fn|].
      - destruct (find_line _ (split_nl c)) as [j|] eqn:F.
        + injection E as <-. exact (find_line_bound _ _ _ F).
        + exact (find_line_bound _ _ _ E).
      - exact (find_line_bound _ _ _ E). }
    destruct (insert_line_text (metrics_def b64 react_var signal_hook) i c Hi)
      as (pre & post & E1 & E2 & E3).
    exists pre, post. repeat split; trivial.
    destruct i; auto.
  - destruct (truthy _) as [fn|] eqn:T; [|exact I].
    apply truthy_some in T.
    rewrite (detect_footer_function_anchor _ _ _ T); cbn [negb].
    destruct (replace1_spec _ (metrics_def b64 react_var signal_hook
                                 ++ nl :: "function " ++ fn ++ "(") c
                (detect_footer_function_anchor _ _ _ T))
      as (pre & post & E1 & E2 & E3).
    exists pre, (("function " ++ fn ++ "(") ++ post), fn.
    repeat split; trivial.
    rewrite E3. repeat (rewrite <- app_assoc || rewrite <- app_comm_cons).
    reflexivity.
Qed.

Lemma insert_at_app (k : nat) (x : text) (a b : list text) :
  k <= length a -> insert_at k x (a ++ b) = insert_at k x a ++ b.
Proof.
  intros Hk. unfold insert_at.
  rewrite firstn_app, skipn_app.
  replace (k - length a) with 0 by lia. cbn [firstn skipn].
  rewrite app_nil_r, <- app_assoc. reflexivity.
Qed.

Lemma insert_before_comp_insert comp x j near near' j' :
  insert_before_comp comp x j near = Some (near', j') ->
  exists k, k < length near /\ near' = insert_at k x near /\ j' = j + k.
Proof.
  revert j near' j'; induction near as [|l near IH]; intros j near' j' H;
    [discriminate|].
  cbn [insert_before_comp] in H. destruct (contains comp l).
  - injection H as <- <-. exists 0. cbn [length]. repeat split; lia.
  - destruct (insert_before_comp comp x (S j) near) as [[r j2]|] eqn:E;
      [|discriminate].
    injection H as <- <-. destruct (IH _ _ _ E) as (k & Hk & -> & ->).
    exists (S k). cbn [length]. repeat split; lia.
Qed.

Lemma inject_call_lines_next css_var react_var footer_comp call i lines lines' j :
  inject_call_lines css_var react_var footer_comp call i lines
    = Injected lines' (CallNextLine j) ->
  exists k, S k < length lines /\ j = i + S k /\
            lines' = insert_at (S k) (INDENT ++ call) lines.
Proof.
  revert i lines'; induction lines as [|l rest IH]; intros i lines' H;
    [discriminate|].
  cbn [inject_call_lines] in H; cbv zeta in H.
  assert (Hkeep : forall r,
             keep_line l r = Injected lines' (CallNextLine j) ->
             (forall ls, r = Injected ls (CallNextLine j) ->
                exists k, S k < length rest /\ j = S i + S k /\
                          ls = insert_at (S k) (INDENT ++ call) rest) ->
             exists k, S k < length (l :: rest) /\ j = i + S k /\
                       lines' = insert_at (S k) (INDENT ++ call) (l :: rest)).
  { intros r Hr Hrec. destruct r as [ls s'| |]; try discriminate.
    cbn [keep_line] in Hr. apply Injected_inj in Hr as [<- ->].
    destruct (Hrec ls eq_refl) as (k & Hk & -> & ->).
    exists (S k). cbn [length]. repeat split; lia. }
  destruct (_ || _).
  - destruct (contains footer_comp l).
    + destruct (or_else _ _); [|discriminate].
      apply Injected_inj in H as [_ H]. discriminate.
    + destruct (insert_before_comp _ _ _ _) as [[near j2]|] eqn:E.
      * apply Injected_inj in H as [<- H]. injection H as <-.
        apply insert_before_comp_insert in E as (k & Hk & -> & ->).
        exists k. rewrite length_firstn in Hk. cbn [length].
        split; [lia|]. split; [lia|].
        rewrite <- insert_at_app by (rewrite length_firstn; lia).
        now rewrite firstn_skipn.
      * apply (Hkeep _ H). intros ls E'. exact (IH (S i) ls E').
  - apply (Hkeep _ H). intros ls E'. exact (IH (S i) ls E').
Qed.

Lemma inject_call_lines_status css_var react_var footer_comp call i lines lines' s :
  inject_call_lines css_var react_var footer_comp call i lines = Injected lines' s ->
  match s with
  | CallSameLine _ | CallNextLine _ => True
  | _ => False
  end.
Proof.
  revert i lines'; induction lines as [|l rest IH]; intros i lines' H;
    [discriminate|].
  cbn [inject_call_lines] in H; cbv zeta in H.
  assert (Hkeep : forall r,
             keep_line l r = Injected lines' s ->
             (forall ls, r = Injected ls s ->
                match s with
                | CallSameLine _ | CallNextLine _ => True
                | _ => False
                end) ->
             match s with
             | CallSameLine _ | CallNextLine _ => True
             | _ => False
             end).
  { intros r Hr Hrec. destruct r as [ls s'| |]; try discriminate.
    cbn [keep_line] in Hr. apply Injected_inj in Hr as [_ ->].
    exact (Hrec ls eq_refl). }
  destruct (_ || _).
  - destruct (contains footer_comp l).
    + destruct (or_else _ _); [|discriminate].
      apply Injected_inj in H as [_ <-]. exact I.
    + destruct (insert_before_comp _ _ _ _) as [[near j2]|] eqn:E.
      * apply Injected_inj in H as [_ <-]. exact I.
      * apply (Hkeep _ H). intros ls E'. exact (IH (S i) ls E').
  - apply (Hkeep _ H). intros ls E'. exact (IH (S i) ls E').
Qed.

(** X7. The call transform only inserts, except in the same-line split: in a
    minified artifact the call is put right after the first occurrence of
    the container's [return ... {className:CSS.inputFooter},]; in a
    prettified one, when the footer component is on a following line, the
    call is put in as a line of its own after the first line; and when
    the call is already there the text is kept. *)
Theorem inject_call_inserts
        (prettified : bool) (css_var react_var footer_comp c : text) :
  match inject_call prettified css_var react_var footer_comp c with
  | CallDone c' CallMinified =>
      exists pre post,
        c = pre ++ old_return react_var css_var ++ post /\
        find (old_return react_var css_var) c = Some (length pre) /\
        c' = pre ++ old_return react_var css_var
                 ++ metrics_bar_call react_var ++ post
  | CallDone c' (CallNextLine j) =>
      exists pre post,
        c = pre ++ nl :: post /\
        c' = pre ++ nl :: (INDENT ++ metrics_bar_call react_var) ++ nl :: post
  | CallDone c' (CallSameLine _) => True
  | CallDone c' _ => c' = c
  | _ => True
  end.
Proof.
  unfold inject_call; cbv zeta.
  destruct (_ && _).
  - destruct prettified.
    + destruct (inject_call_lines _ _ _ _ _ _) as [ls s| |] eqn:E; trivial.
      pose proof (inject_call_lines_status _ _ _ _ _ _ _ _ E) as Hs.
      destruct s as [n|j| | |]; try contradiction; trivial.
      apply inject_call_lines_next in E as (k & Hk & _ & ->).
      destruct (insert_line_text (INDENT ++ metrics_bar_call react_var)
                  (S k) c Hk) as (pre & post & E1 & E2 & pre' & ->).
      exists pre', post. rewrite E2, E1.
      repeat rewrite <- app_assoc. cbn [app]. auto.
    + destruct (contains (old_return react_var css_var) c) eqn:Ho;
        cbn [negb]; [|exact I].
      destruct (replace1_spec _ (old_return react_var css_var
                                   ++ metrics_bar_call react_var) _ Ho)
        as (pre & post & E1 & E2 & E3).
      exists pre, post. rewrite E3. repeat rewrite <- app_assoc. auto.
  - now destruct (contains CALL_MARKER c).
Qed.

(** ** Runs that pass [verify] *)

Lemma contains_trans (m w s : text) :
  contains m w = true -> contains w s = true -> contains m s = true.
Proof.
  rewrite !contains_iff. intros (a & b & ->) (x & y & ->).
  exists (x ++ a), (b ++ y). now repeat rewrite <- app_assoc.
Qed.

Lemma clear_of_spec (olds : list text) (w old : text) :
  clear_of olds w = true -> In old olds -> overlap old w = false.
Proof.
  induction olds as [|o olds IH]; intros H Hin; [contradiction|].
  cbn [clear_of] in H. destruct (overlap o w) eqn:E; [discriminate|].
  destruct Hin as [<-|Hin]; [exact E|exact (IH H Hin)].
Qed.

Lemma first_such_some (P : text -> bool) (ws : list text) (w : text) :
  first_such P ws = Some w -> P w = true.
Proof.
  induction ws as [|x ws IH]; [discriminate|].
  cbn [first_such]. destruct (P x) eqn:E; [|exact IH].
  now intros [= <-].
Qed.

(** A text of the template that no slot touches is in the definition,
    whatever is written into the slots. *)
Lemma in_template_def (w b64 react_var signal_hook : text) :
  in_template w = true ->
  contains w (metrics_def b64 react_var signal_hook) = true.
Proof.
  unfold in_template.
  destruct (contains w _METRICS_TEMPLATE) eqn:H; [|discriminate]. intros C.
  unfold metrics_def, METRICS_COMPONENT_DEF.
  apply contains_replace_all;
    [discriminate
    |apply (clear_of_spec _ _ _ C); do 2 right; left; reflexivity|].
  apply contains_replace_all;
    [discriminate
    |apply (clear_of_spec _ _ _ C); right; left; reflexivity|].
  apply contains_replace_all;
    [discriminate
    |apply (clear_of_spec _ _ _ C); left; reflexivity|].
  exact H.
Qed.

Record outlasts_facts (w : text) : Prop := {
  ol_nl : has_char nl w = false;
  ol_ne : w <> [];
  ol_tail : suffixes_clash (rev w) (rev FOOTER_TAIL) = false;
  ol_gates : clear_of [GATE_1; GATE_2; GATE_3] w = true
}.

Lemma outlasts_parts (w : text) : outlasts w = true -> outlasts_facts w.
Proof.
  unfold outlasts. destruct (has_char nl w) eqn:H1; [discriminate|].
  destruct w as [|c w]; [discriminate|].
  destruct (suffixes_clash _ _) eqn:H2; [discriminate|].
  intros H3. constructor; trivial. discriminate.
Qed.

(** The definition that [define_component] inserts is in its result. *)
Lemma define_component_has_def (w : text) b64 prettified css_var react_var
      signal_hook c c' s :
  define_component b64 prettified css_var react_var signal_hook c = inr (c', s) ->
  s <> DefSkip ->
  has_char nl w = false -> w <> [] ->
  contains w (metrics_def b64 react_var signal_hook) = true ->
  contains w c' = true.
Proof.
  unfold define_component; cbv zeta. intros H Hs Hnl Hne Hw.
  destruct (contains DEF_MARKER c); cbn [negb] in H.
  - apply inr_pair_inj in H as [_ <-]. now elim Hs.
  - destruct prettified.
    + destruct (or_else _ _) as [i|]; [|discriminate].
      apply inr_pair_inj in H as [<- _].
      rewrite contains_join_nl by assumption. unfold insert_at.
      now rewrite existsb_insert_at, Hw.
    + destruct (truthy _) as [fn|]; [|discriminate].
      destruct (contains ("function " ++ fn ++ "(") c) eqn:Ha;
        cbn [negb] in H; [|discriminate].
      apply inr_pair_inj in H as [<- _].
      destruct (replace1_spec _ (metrics_def b64 react_var signal_hook
                                   ++ nl :: "function " ++ fn ++ "(") _ Ha)
        as (pre & post & _ & _ & ->).
      now apply contains_app_r, contains_app_l, contains_app_l.
Qed.

Lemma late_call (w : text) prettified css_var react_var footer_comp c c' s :
  outlasts_facts w ->
  inject_call prettified css_var react_var footer_comp c = CallDone c' s ->
  (forall n, s <> CallSameLine n) ->
  contains w c = true -> contains w c' = true.
Proof.
  intros S; unfold inject_call; cbv zeta. intros H Hs Hm.
  destruct (_ && _).
  - destruct prettified.
    + destruct (inject_call_lines _ _ _ _ _ _) as [ls s'| |] eqn:E;
        try discriminate.
      apply CallDone_inj in H as [<- <-].
      rewrite contains_join_nl by apply S.
      apply (inject_call_lines_keeps _ _ _ _ _ _ _ _ _ E Hs).
      rewrite <- contains_lines by apply S. exact Hm.
    + destruct (contains (old_return react_var css_var) c) eqn:Ho;
        cbn [negb] in H; [|discriminate].
      apply CallDone_inj in H as [<- _].
      destruct (replace1_spec _ (old_return react_var css_var
                                   ++ metrics_bar_call react_var) _ Ho)
        as (pre & post & E & _ & ->).
      destruct (old_return_tail react_var css_var) as [x Ex].
      rewrite Ex in *. rewrite E in Hm.
      rewrite app_assoc in Hm. rewrite (app_assoc pre x) in Hm.
      destruct (straddle_free_left _ _ _ _ (ol_tail _ S) Hm) as [H1|H1].
      * rewrite <- (app_assoc _ (metrics_bar_call react_var) post).
        rewrite <- (app_assoc x), (app_assoc pre), (app_assoc (pre ++ x)).
        now apply contains_app_l.
      * now apply contains_app_r, contains_app_r.
  - destruct (contains CALL_MARKER c);
      apply CallDone_inj in H as [<- _]; exact Hm.
Qed.

Lemma late_gate (w c : text) :
  outlasts_facts w -> contains w c = true ->
  contains w (fst (remove_gate c)) = true.
Proof.
  intros S H. unfold remove_gate, er0_patterns; cbn [remove_first_gate].
  fold GATE_1 GATE_2 GATE_3 GATE_MARKER_2.
  pose proof (clear_of_spec _ _ GATE_1 (ol_gates _ S)) as G1.
  pose proof (clear_of_spec _ _ GATE_2 (ol_gates _ S)) as G2.
  pose proof (clear_of_spec _ _ GATE_3 (ol_gates _ S)) as G3.
  destruct (contains GATE_1 c);
    [cbn [fst]; apply contains_replace1; trivial; apply G1; left; reflexivity|].
  destruct (contains GATE_2 c);
    [cbn [fst]; apply contains_replace1; trivial;
     apply G2; right; left; reflexivity|].
  destruct (contains GATE_3 c);
    [cbn [fst]; apply contains_replace1; trivial;
     apply G3; do 2 right; left; reflexivity|].
  now destruct (contains GATE_MARKER c).
Qed.

(** What a fresh run leaves in the text it writes. *)
Lemma fresh_run_facts (b64 content out : text) (log : js_log) :
  patch_js b64 content = JsWritten out log ->
  fresh_run log = true ->
  holds_any [M_USAGE_MIN; M_USAGE] out = true /\
  holds_any [M_UPDATE_MIN; M_UPDATE] out = true /\
  holds_any [M_RESULT_MIN; M_RESULT] out = true /\
  holds_any [COMPACT_PATCHED; COMPACT_MIN_PATCHED] out = true /\
  contains CALL_MARKER out = true /\
  (forall m, component_text m = true -> contains m out = true).
Proof.
  intros H Hfresh.
  unfold patch_js, patch_token_fields in H; cbv zeta in H.
  destruct (patch_usage_data content) as [ca sa] eqn:Ea; cbv beta iota in H.
  destruct (patch_update_usage ca) as [cb sb] eqn:Eb; cbv beta iota in H.
  destruct (patch_result_handler cb) as [cc sc] eqn:Ec; cbv beta iota in H.
  destruct (patch_compact cc) as [cd sd] eqn:Ed; cbv beta iota in H.
  destruct (define_component _ _ _ _ _ cd) as [e|[c1 sdef]] eqn:D;
    [discriminate|].
  destruct (inject_call _ _ _ _ c1) as [c2 scall|e|] eqn:I; try discriminate.
  destruct (remove_gate c2) as [c3 sg] eqn:G.
  apply JsWritten_inj in H as [<- <-].
  unfold fresh_run in Hfresh;
    cbn [log_usage_data log_update_usage log_result_handler log_compact
         log_definition log_call] in Hfresh.
  apply andb_prop in Hfresh as [Hfresh Hcall].
  apply andb_prop in Hfresh as [Hfresh Hdef].
  apply andb_prop in Hfresh as [Hfresh Hsd].
  apply andb_prop in Hfresh as [Hfresh Hsc].
  apply andb_prop in Hfresh as [Hsa Hsb].
  assert (Hs : forall n, scall <> CallSameLine n)
    by (intros n ->; discriminate).
  assert (Hd : sdef <> DefSkip) by (intros ->; discriminate).
  assert (Kab : keeps ca cb).
  { intros m Hm Hc. pose proof (keep_update_usage m ca (stable_parts m Hm) Hc) as K.
    now rewrite Eb in K. }
  assert (Kbc : keeps cb cc).
  { intros m Hm Hc. pose proof (keep_result_handler m cb (stable_parts m Hm) Hc) as K.
    now rewrite Ec in K. }
  assert (Kcd : keeps cc cd).
  { intros m Hm Hc. pose proof (keep_compact m cc (stable_parts m Hm) Hc) as K.
    now rewrite Ed in K. }
  assert (Kd1 : keeps cd c1).
  { intros m Hm Hc. exact (keep_definition m _ _ _ _ _ _ _ _ (stable_parts m Hm) D Hc). }
  assert (K12 : keeps c1 c2).
  { intros m Hm Hc. exact (keep_call m _ _ _ _ _ _ _ (stable_parts m Hm) I Hs Hc). }
  assert (K23 : keeps c2 c3).
  { intros m Hm Hc. pose proof (keep_gate m c2 (stable_parts m Hm) Hc) as K.
    now rewrite G in K. }
  pose proof (keeps_trans _ _ _ Kd1 (keeps_trans _ _ _ K12 K23)) as Kd3.
  pose proof (keeps_trans _ _ _ Kcd Kd3) as Kc3.
  pose proof (keeps_trans _ _ _ Kbc Kc3) as Kb3.
  pose proof (keeps_trans _ _ _ Kab Kb3) as Ka3.
  split; [|split; [|split; [|split; [|split]]]].
  - apply (holds_any_keeps _ ca); [exact Ka3|vm_compute; reflexivity|].
    pose proof (est_usage_data content) as P. rewrite Ea in P. apply P.
    cbn [snd]; intros ->; discriminate.
  - apply (holds_any_keeps _ cb); [exact Kb3|vm_compute; reflexivity|].
    pose proof (est_update_usage ca) as P. rewrite Eb in P. apply P.
    cbn [snd]; intros ->; discriminate.
  - apply (holds_any_keeps _ cc); [exact Kc3|vm_compute; reflexivity|].
    pose proof (est_result_handler cb) as P. rewrite Ec in P. apply P.
    cbn [snd]; intros ->; discriminate.
  - apply (holds_any_keeps _ cd); [exact Kd3|vm_compute; reflexivity|].
    pose proof (est_compact cc) as P. rewrite Ed in P. apply P.
    cbn [snd]; intros ->; discriminate.
  - apply (K23 CALL_MARKER); [vm_compute; reflexivity|].
    exact (est_call _ _ _ _ _ _ _ I (define_component_marker _ _ _ _ _ _ _ _ D)).
  - intros m Hm. unfold component_text in Hm.
    destruct (first_such _ _) as [w|] eqn:F; [|discriminate].
    apply first_such_some in F.
    destruct (contains m w) eqn:Hmw; [|discriminate].
    destruct (in_template w) eqn:Ht; [|discriminate].
    apply outlasts_parts in F.
    apply (contains_trans _ _ _ Hmw).
    pose proof (late_gate w c2 F) as K. rewrite G in K. apply K.
    apply (late_call w _ _ _ _ _ _ _ F I Hs).
    apply (define_component_has_def w _ _ _ _ _ _ _ _ D Hd);
      [apply F|apply F|].
    now apply in_template_def.
Qed.

(** A one-line text cannot reach across a line break. *)
Lemma contains_across_nl (m a b : text) :
  has_char nl m = false -> m <> [] ->
  contains m (a ++ nl :: b) = contains m a || contains m b.
Proof.
  intros Hnl Hne.
  change (a ++ nl :: b) with (join_nl [a; b]).
  rewrite contains_join_nl by assumption.
  cbn [existsb]. now rewrite orb_false_r.
Qed.

(** On a stylesheet with neither marker [patch_css] appends both blocks. *)
Lemma css_file_after_fresh (css : text) :
  contains CSS_SELECTOR css = false -> contains ST_MARKER css = false ->
  css_file_after css = css ++ custom_css ++ st_css.
Proof.
  intros H1 H2. rewrite css_file_after_content. unfold patch_css.
  rewrite H1; cbn [negb].
  replace (contains ST_MARKER (css ++ custom_css)) with false.
  - cbn [negb css_content]. now rewrite <- app_assoc.
  - symmetry. destruct custom_css_head as [tc Ec]. rewrite Ec.
    rewrite contains_across_nl by (reflexivity || discriminate).
    rewrite H2. cbn [orb].
    assert (C : contains ST_MARKER custom_css = false) by (vm_compute; reflexivity).
    rewrite Ec in C. rewrite contains_cons in C.
    now apply orb_false_elim in C.
Qed.

(** [patch_css] returns [True] on every stylesheet. *)
Lemma patch_css_returns_true (css : text) : css_ok (patch_css css) = true.
Proof.
  unfold patch_css.
  destruct (contains CSS_SELECTOR css); cbn [negb];
    [destruct (contains ST_MARKER css)
    |destruct (contains ST_MARKER (css ++ custom_css))]; reflexivity.
Qed.

Ltac component_atom Hcomp out :=
  match goal with
  | |- context [contains ?m out] =>
      rewrite (Hcomp m) by (vm_compute; reflexivity)
  end.

(** [verify] passes on the code of a fresh run without gate literal and on
    a stylesheet that got both blocks. *)
Lemma verify_fresh (js css : text) :
  holds_any [M_USAGE_MIN; M_USAGE] js = true ->
  holds_any [M_UPDATE_MIN; M_UPDATE] js = true ->
  holds_any [M_RESULT_MIN; M_RESULT] js = true ->
  holds_any [COMPACT_PATCHED; COMPACT_MIN_PATCHED] js = true ->
  contains CALL_MARKER js = true ->
  (forall m, component_text m = true -> contains m js = true) ->
  gates_gone js = true ->
  verify js (css ++ custom_css ++ st_css) = true.
Proof.
  intros Pa Pb Pc Pd Pcall Hcomp Hg.
  rewrite holds_any_pair in Pa, Pb, Pc, Pd.
  unfold M_USAGE_MIN, M_USAGE in Pa. unfold M_UPDATE_MIN, M_UPDATE in Pb.
  unfold M_RESULT_MIN, M_RESULT in Pc. unfold CALL_MARKER in Pcall.
  assert (Pd' : contains "inputTokens:0,outputTokens:0" js
                || contains "inputTokens: 0, outputTokens: 0" js = true).
  { apply orb_true_iff. apply orb_prop in Pd as [Pd|Pd]; [right|left];
      refine (contains_trans _ _ _ _ Pd); vm_compute; reflexivity. }
  unfold gates_gone, GATE_1, GATE_2, GATE_3 in Hg.
  assert (Css : forall m, contains m custom_css || contains m st_css = true ->
                          contains m (css ++ custom_css ++ st_css) = true).
  { intros m Hm. apply contains_app_r.
    apply orb_prop in Hm as [Hm|Hm];
      [now apply contains_app_l|now apply contains_app_r]. }
  unfold verify, verify_checks; cbn [forallb snd].
  rewrite Pa, Pb, Pc, Pd', Pcall, Hg.
  repeat component_atom Hcomp js.
  repeat match goal with
         | |- context [contains ?m (css ++ custom_css ++ st_css)] =>
             rewrite (Css m) by (vm_compute; reflexivity)
         end.
  reflexivity.
Qed.

(** X8. The success path of [main]: when [patch_js] writes after a fresh run
    (every token-field transform applied or skipped, the definition
    inserted, the call not injected by the same-line split), no gate
    literal is left in what it wrote, and the stylesheet held neither
    marker, then every check of [verify] passes on the two files and the
    process ends with exit status 0. *)
Theorem apply_success (b64 js css out : text) (log : js_log) :
  patch_js b64 js = JsWritten out log ->
  fresh_run log = true -> gates_gone out = true ->
  contains CSS_SELECTOR css = false -> contains ST_MARKER css = false ->
  verify out (css_file_after css) = true /\
  main_apply b64 js css
  = {| js_file := out; css_file := css_file_after css; exit_code := 0 |}.
Proof.
  intros H Hfresh Hg H1 H2.
  destruct (fresh_run_facts _ _ _ _ H Hfresh)
    as (Pa & Pb & Pc & Pd & Pcall & Hcomp).
  assert (V : verify out (css_file_after css) = true).
  { rewrite (css_file_after_fresh _ H1 H2). now apply verify_fresh. }
  split; [exact V|].
  unfold main_apply. rewrite H. cbv beta iota zeta.
  now rewrite V, patch_css_returns_true.
Qed.

Lemma apply_success_witness :
  verify (js_file_after SAMPLE_B64 (minified_artifact gate_fn_2))
         (css_file_after "body{margin:0}") = true /\
  main_apply SAMPLE_B64 (minified_artifact gate_fn_2) "body{margin:0}"
  = {| js_file := js_file_after SAMPLE_B64 (minified_artifact gate_fn_2);
       css_file := css_file_after "body{margin:0}"; exit_code := 0 |}.
Proof.
  apply (apply_success SAMPLE_B64 (minified_artifact gate_fn_2) "body{margin:0}" _
           {| log_usage_data := OkMinified; log_update_usage := OkMinified;
              log_result_handler := OkMinified; log_compact := OkMinified;
              log_definition := DefMinified; log_call := CallMinified;
              log_gate := GateRemoved GATE_2 |});
    vm_compute; reflexivity.
Defined.

(** ** A verified artifact, patched again *)

(** The checks of [verify] that are guards of [patch_js]. *)
Lemma verify_guards (js css : text) :
  verify js css = true ->
  holds_any [M_USAGE_MIN; M_USAGE] js = true /\
  holds_any [M_UPDATE_MIN; M_UPDATE] js = true /\
  holds_any [M_RESULT_MIN; M_RESULT] js = true /\
  contains DEF_MARKER js = true /\ contains CALL_MARKER js = true /\
  gates_gone js = true /\
  is_already_patched js = true /\ contains CSS_SELECTOR css = true.
Proof.
  unfold verify, verify_checks; cbn [forallb snd]; intros H.
  repeat (let A := fresh "A" in apply andb_prop in H as [A H]).
  rewrite !holds_any_pair.
  unfold M_USAGE_MIN, M_USAGE, M_UPDATE_MIN, M_UPDATE, M_RESULT_MIN, M_RESULT,
    DEF_MARKER, CALL_MARKER, gates_gone, GATE_1, GATE_2, GATE_3,
    is_already_patched, CSS_SELECTOR.
  repeat split; assumption.
Qed.

(** PATCH 0d keeps a text that overlaps neither original. *)
Lemma compact_keeps (m c : text) :
  overlap COMPACT_ORIGINAL m = false -> overlap COMPACT_MIN_ORIGINAL m = false ->
  contains m c = true -> contains m (fst (patch_compact c)) = true.
Proof.
  intros O1 O2 H; unfold patch_compact.
  destruct (contains COMPACT_ORIGINAL c);
    [cbn [fst]; now apply contains_replace1|].
  destruct (contains COMPACT_MIN_ORIGINAL c);
    [cbn [fst]; now apply contains_replace1|].
  now destruct (_ || _).
Qed.

(** A replacement brings in no text that overlaps what is written. *)
Lemma replace1_brings (old new m s : text) :
  overlap new m = false ->
  contains m s = false -> contains m (replace1 old new s) = false.
Proof.
  intros Ho H. destruct (contains old s) eqn:Hc.
  - destruct (replace1_spec old new s Hc) as (pre & post & E & _ & ->).
    destruct (contains m (pre ++ new ++ post)) eqn:C; [|reflexivity].
    rewrite E in H.
    destruct (occurrence_apart _ _ _ _ Ho C) as [H1|H1].
    + now rewrite (contains_app_l _ _ _ H1) in H.
    + rewrite (contains_app_r _ _ _ (contains_app_r _ _ _ H1)) in H.
      discriminate.
  - now rewrite replace1_absent.
Qed.

(** PATCH 0d brings in no gate literal. *)
Lemma compact_brings (m c : text) :
  overlap COMPACT_PATCHED m = false -> overlap COMPACT_MIN_PATCHED m = false ->
  contains m c = false -> contains m (fst (patch_compact c)) = false.
Proof.
  intros O1 O2 H; unfold patch_compact.
  destruct (contains COMPACT_ORIGINAL c);
    [cbn [fst]; now apply replace1_brings|].
  destruct (contains COMPACT_MIN_ORIGINAL c);
    [cbn [fst]; now apply replace1_brings|].
  now destruct (_ || _).
Qed.

(** X9. An artifact on which [verify] passes is past every guard of [patch_js]
    but the one of the compact_boundary transform, whose check in [verify]
    is a different one: [is_already_patched] holds on both files, and a
    further run of [patch_js] never fails; it skips the three token-field
    transforms, the definition and the call, removes no gate, and writes
    the text as the compact_boundary transform alone leaves it. *)
Theorem verified_rerun (b64 js css : text) :
  verify js css = true ->
  is_already_patched js = true /\ is_already_patched css = true /\
  patch_js b64 js
  = JsWritten (fst (patch_compact js))
      {| log_usage_data := FieldSkip; log_update_usage := FieldSkip;
         log_result_handler := FieldSkip;
         log_compact := snd (patch_compact js);
         log_definition := DefSkip; log_call := CallSkip;
         log_gate := if contains GATE_MARKER (fst (patch_compact js))
                     then GateSkip else GateWarning |}.
Proof.
  intros V.
  destruct (verify_guards _ _ V)
    as (Pa & Pb & Pc & Pdef & Pcall & Pg & Pjs & Pcss).
  split; [exact Pjs|]. split.
  { unfold is_already_patched.
    refine (contains_trans _ _ _ _ Pcss). vm_compute; reflexivity. }
  unfold gates_gone in Pg.
  apply andb_prop in Pg as [Pg G3]. apply andb_prop in Pg as [G1 G2].
  apply negb_true_iff in G1, G2, G3.
  unfold patch_js, patch_token_fields; cbv zeta.
  rewrite (skip_usage_data _ Pa), (skip_update_usage _ Pb),
    (skip_result_handler _ Pc).
  destruct (patch_compact js) as [cd sd] eqn:Ed.
  assert (Hdef : contains DEF_MARKER cd = true).
  { pose proof (compact_keeps DEF_MARKER js) as K. rewrite Ed in K.
    apply K; trivial; vm_compute; reflexivity. }
  assert (Hcall : contains CALL_MARKER cd = true).
  { pose proof (compact_keeps CALL_MARKER js) as K. rewrite Ed in K.
    apply K; trivial; vm_compute; reflexivity. }
  assert (Hg1 : contains GATE_1 cd = false).
  { pose proof (compact_brings GATE_1 js) as K. rewrite Ed in K.
    apply K; trivial; vm_compute; reflexivity. }
  assert (Hg2 : contains GATE_2 cd = false).
  { pose proof (compact_brings GATE_2 js) as K. rewrite Ed in K.
    apply K; trivial; vm_compute; reflexivity. }
  assert (Hg3 : contains GATE_3 cd = false).
  { pose proof (compact_brings GATE_3 js) as K. rewrite Ed in K.
    apply K; trivial; vm_compute; reflexivity. }
  rewrite (skip_definition _ _ _ _ _ _ Hdef), (skip_call _ _ _ _ _ Hcall).
  cbn [fst snd].
  unfold remove_gate, er0_patterns; cbn [remove_first_gate].
  fold GATE_1 GATE_2 GATE_3 GATE_MARKER_2.
  rewrite Hg1, Hg2, Hg3.
  now destruct (contains GATE_MARKER cd).
Qed.

Lemma verified_rerun_witness :
  is_already_patched (js_file_after SAMPLE_B64 (minified_artifact gate_fn_1))
  = true /\
  is_already_patched (css_file_after "body{margin:0}") = true /\
  patch_js SAMPLE_B64 (js_file_after SAMPLE_B64 (minified_artifact gate_fn_1))
  = JsWritten
      (fst (patch_compact
              (js_file_after SAMPLE_B64 (minified_artifact gate_fn_1))))
      {| log_usage_data := FieldSkip; log_update_usage := FieldSkip;
         log_result_handler := FieldSkip;
         log_compact :=
           snd (patch_compact
                  (js_file_after SAMPLE_B64 (minified_artifact gate_fn_1)));
         log_definition := DefSkip; log_call := CallSkip;
         log_gate :=
           if contains GATE_MARKER
                (fst (patch_compact
                        (js_file_after SAMPLE_B64 (minified_artifact gate_fn_1))))
           then GateSkip else GateWarning |}.
Proof.
  apply (verified_rerun SAMPLE_B64
           (js_file_after SAMPLE_B64 (minified_artifact gate_fn_1))
           (css_file_after "body{margin:0}")).
  vm_compute; reflexivity.
Defined.

(** ** The outcomes of [main] in apply mode *)

(** X10. What [main] leaves behind in apply mode.  When [patch_js] raises,
    nothing is written and the process dies with status 1.  When it fails,
    the code is untouched, yet the stylesheet is patched all the same, and
    the status is 1.  When it writes, the status is 0 exactly when
    [verify] passes on the two files: the result of [patch_css] never
    matters, being [True] always.  Whenever the process gets as far as the
    stylesheet, both of its markers are in it in the end. *)
Theorem main_apply_outcomes (b64 js css : text) :
  match patch_js b64 js with
  | JsRaised =>
      main_apply b64 js css
      = {| js_file := js; css_file := css; exit_code := 1 |}
  | JsFailed _ =>
      main_apply b64 js css
      = {| js_file := js; css_file := css_file_after css; exit_code := 1 |}
      /\ contains CSS_SELECTOR (css_file_after css) = true
      /\ contains ST_MARKER (css_file_after css) = true
  | JsWritten out _ =>
      main_apply b64 js css
      = {| js_file := out; css_file := css_file_after css;
           exit_code := if verify out (css_file_after css) then 0 else 1 |}
      /\ contains CSS_SELECTOR (css_file_after css) = true
      /\ contains ST_MARKER (css_file_after css) = true
  end.
Proof.
  assert (M : contains CSS_SELECTOR (css_file_after css) = true
              /\ contains ST_MARKER (css_file_after css) = true).
  { rewrite css_file_after_content. unfold patch_css.
    destruct (contains CSS_SELECTOR css) eqn:H1; cbn [negb].
    - destruct (contains ST_MARKER css) eqn:H2; cbn [negb css_content].
      + now split.
      + split; [now apply contains_app_l|].
        apply contains_app_r. vm_compute; reflexivity.
    - assert (S1 : contains CSS_SELECTOR (css ++ custom_css) = true)
        by (apply contains_app_r; vm_compute; reflexivity).
      destruct (contains ST_MARKER (css ++ custom_css)) eqn:H2;
        cbn [negb css_content].
      + now split.
      + split; [now apply contains_app_l|].
        apply contains_app_r. vm_compute; reflexivity. }
  unfold main_apply.
  destruct (patch_js b64 js) as [out log|e|]; cbv beta iota zeta.
  - rewrite patch_css_returns_true. cbn [andb]. now split.
  - cbn [andb]. now split.
  - reflexivity.
Qed.

(** ** [clean] on code without the patch *)

(** A successful match is a successful call of the continuation on a tail
    of the text. *)
Lemma rmatch_tail (r : regex) :
  forall s n g k x,
    rmatch r s n g k = Some x ->
    exists p s' n' g', s = p ++ s' /\ k s' n' g' = Some x.
Proof.
  induction r as [l|p|r1 IH1 r2 IH2|gr p|r1 IH1|i r1 IH1|]; intros s n g k x H.
  - cbn [rmatch] in H. destruct (starts_with l s) eqn:E; [|discriminate].
    exists (firstn (length l) s), (skipn (length l) s), (n + length l), g.
    now rewrite firstn_skipn.
  - cbn [rmatch] in H. destruct s as [|c s]; [discriminate|].
    destruct (p c); [|discriminate].
    now exists [c], s, (S n), g.
  - rewrite rmatch_seq in H.
    destruct (IH1 _ _ _ _ _ H) as (p1 & s1 & n1 & g1 & -> & H1).
    destruct (IH2 _ _ _ _ _ H1) as (p2 & s2 & n2 & g2 & -> & H2).
    exists (p1 ++ p2), s2, n2, g2. now rewrite <- app_assoc.
  - destruct gr; cbn [rmatch] in H.
    + apply rep_greedy_some in H as (run & rest & -> & _ & H).
      now exists run, rest, (n + length run), g.
    + apply rep_lazy_some in H as (run & rest & -> & H).
      now exists run, rest, (n + length run), g.
  - cbn [rmatch] in H. destruct (rmatch r1 s n g k) as [y|] eqn:E.
    + injection H as ->. exact (IH1 _ _ _ _ _ E).
    + now exists [], s, n, g.
  - rewrite rmatch_grp in H.
    destruct (IH1 _ _ _ _ _ H) as (p1 & s1 & n1 & g1 & -> & H1).
    now exists p1, s1, n1, ((i, firstn (n1 - n) (p1 ++ s1)) :: g1).
  - cbn [rmatch] in H. exists [], s, n, g. split; [reflexivity|].
    destruct s as [|c [|d s]]; try discriminate; trivial.
    now destruct (Ascii.eqb c nl).
Qed.

(** A text in which a pattern matches holds the literals it needs. *)
Lemma rmatch_needs (l : text) (r : regex) :
  needs l r = true ->
  forall s n g k x, rmatch r s n g k = Some x -> contains l s = true.
Proof.
  induction r as [l'|p|r1 IH1 r2 IH2|gr p|r1 IH1|i r1 IH1|];
    cbn [needs]; intros Hn s n g k x H; try discriminate.
  - cbn [rmatch] in H. destruct (starts_with l' s) eqn:E; [|discriminate].
    apply (contains_trans _ _ _ Hn).
    apply starts_with_iff in E as [rest ->].
    apply contains_iff. now exists [], rest.
  - rewrite rmatch_seq in H. destruct (needs l r1).
    + exact (IH1 eq_refl _ _ _ _ _ H).
    + destruct (rmatch_tail _ _ _ _ _ _ H) as (p1 & s1 & n1 & g1 & -> & H1).
      apply contains_app_r. exact (IH2 Hn _ _ _ _ _ H1).
  - rewrite rmatch_grp in H. exact (IH1 Hn _ _ _ _ _ H).
Qed.

Lemma match_at_needs (l : text) (r : regex) (s : text) :
  needs l r = true -> contains l s = false -> match_at r s = None.
Proof.
  intros Hn Hs. unfold match_at.
  destruct (rmatch r s 0 [] _) as [x|] eqn:E; [|reflexivity].
  now rewrite (rmatch_needs _ _ Hn _ _ _ _ _ E) in Hs.
Qed.

Lemma contains_tail (l : text) (c : ascii) (s : text) :
  contains l (c :: s) = false -> contains l s = false.
Proof.
  rewrite contains_cons; intros H. now apply orb_false_elim in H.
Qed.

Lemma re_search_needs (l : text) (r : regex) (s : text) :
  needs l r = true -> contains l s = false -> re_search r s = None.
Proof.
  intros Hn; induction s as [|c s IH]; intros Hs; cbn [re_search];
    rewrite (match_at_needs _ _ _ Hn Hs); [reflexivity|].
  now rewrite (IH (contains_tail _ _ _ Hs)).
Qed.

(** [re.sub] changes nothing in a text without a literal that the pattern
    needs. *)
Lemma re_sub1_needs (l : text) (r : regex) repl (s : text) :
  needs l r = true -> contains l s = false -> re_sub1 r repl s = s.
Proof. intros Hn Hs. unfold re_sub1. now rewrite (re_search_needs _ _ _ Hn Hs). Qed.

Lemma re_sub_needs (l : text) (r : regex) repl (s : text) :
  needs l r = true -> contains l s = false -> re_sub r repl s = s.
Proof.
  intros Hn; unfold re_sub; induction s as [|c s IH]; intros Hs;
    cbn [re_sub_from]; rewrite (match_at_needs _ _ _ Hn Hs); [reflexivity|].
  now rewrite (IH (contains_tail _ _ _ Hs)).
Qed.

(** [replace] changes nothing in a text without the old string. *)
Lemma replace_all_absent (old new s : text) :
  contains old s = false -> replace_all old new s = s.
Proof.
  induction s as [|c s IH]; intros Hs; [reflexivity|].
  rewrite contains_cons in Hs. apply orb_false_elim in Hs as [H1 H2].
  now rewrite replace_all_miss, IH.
Qed.

Lemma replace_all_needs (l old new s : text) :
  contains l old = true -> contains l s = false -> replace_all old new s = s.
Proof.
  intros Hl Hs. apply replace_all_absent.
  destruct (contains old s) eqn:E; [|reflexivity].
  now rewrite (contains_trans _ _ _ Hl E) in Hs.
Qed.

Ltac untouched js l Hl :=
  match goal with
  | |- context [re_sub1 ?r ?f js] =>
      rewrite (re_sub1_needs l r f js) by (reflexivity || exact Hl)
  | |- context [re_sub ?r ?f js] =>
      rewrite (re_sub_needs l r f js) by (reflexivity || exact Hl)
  | |- context [replace_all ?old ?new js] =>
      rewrite (replace_all_needs l old new js) by (reflexivity || exact Hl)
  end.

(** X11. [clean] leaves code alone that mentions none of the names of the
    patch: without [_cc], [CC_MetricsBar], [inputTokens] and the two gate
    markers in it, the text is written back as it was read. *)
Theorem clean_js_untouched (js : text) :
  contains "_cc" js = false -> contains CC_MetricsBar js = false ->
  contains "inputTokens" js = false ->
  contains GATE_MARKER_2 js = false -> contains GATE_MARKER js = false ->
  clean_js js = js.
Proof.
  intros H1 H2 H3 H4 H5. unfold clean_js; cbv zeta.
  replace (contains "var _ccSessionStart" js) with false.
  2:{ symmetry. destruct (contains "var _ccSessionStart" js) eqn:E; [|reflexivity].
      assert (C : contains "_cc" "var _ccSessionStart" = true) by reflexivity.
      rewrite (contains_trans _ _ _ C E) in H1. discriminate. }
  rewrite andb_false_r.
  repeat untouched js ("_cc" : text) H1.
  repeat untouched js CC_MetricsBar H2.
  repeat untouched js ("inputTokens" : text) H3.
  repeat untouched js GATE_MARKER_2 H4.
  repeat untouched js GATE_MARKER H5.
  reflexivity.
Qed.

Lemma clean_js_untouched_witness :
  clean_js (minified_artifact gate_fn_1) = minified_artifact gate_fn_1.
Proof.
  apply (clean_js_untouched (minified_artifact gate_fn_1));
    vm_compute; reflexivity.
Defined.

(** ** Resolvers without a footer *)

Lemma needs_seq_l (l : text) (r1 r2 : regex) :
  needs l r1 = true -> needs l (Seq r1 r2) = true.
Proof. cbn [needs]; now intros ->. Qed.

Lemma needs_seq_r (l : text) (r1 r2 : regex) :
  needs l r2 = true -> needs l (Seq r1 r2) = true.
Proof. cbn [needs]; intros ->. now destruct (needs l r1). Qed.

Lemma contains_cons_r (l : text) (c : ascii) (s : text) :
  contains l s = true -> contains l (c :: s) = true.
Proof. intros H. rewrite contains_cons, H. apply orb_true_r. Qed.

Lemma contains_absent (l p s : text) :
  contains l p = true -> contains l s = false -> contains p s = false.
Proof.
  intros Hl Hs. destruct (contains p s) eqn:E; [|reflexivity].
  now rewrite (contains_trans _ _ _ Hl E) in Hs.
Qed.

Lemma find_absent (p s : text) : contains p s = false -> find p s = None.
Proof. unfold contains. now destruct (find p s). Qed.

Lemma find_footer_pos_absent (content css_var : text) :
  contains ".inputFooter" content = false ->
  find_footer_pos content css_var = None.
Proof.
  intros H. unfold find_footer_pos.
  rewrite (find_absent ("className:" ++ css_var ++ ".inputFooter")).
  - apply find_absent. refine (contains_absent _ _ _ _ H).
    now apply contains_app_r, contains_app_r.
  - refine (contains_absent _ _ _ _ H).
    now apply contains_app_r, contains_app_r.
Qed.

(** X12. Without any [.inputFooter] in the text the five resolvers give their
    fallbacks: the handles [WJ], [n4], [dP1] and [_Z] of one historical
    build, and no enclosing function. *)
Theorem resolvers_fall_back (content css_var : text) :
  contains ".inputFooter" content = false ->
  detect_css_module_var content = "WJ" /\
  detect_react_var content css_var = "n4" /\
  detect_footer_component content css_var = "dP1" /\
  detect_signal_hook content css_var = "_Z" /\
  detect_footer_function content css_var = None.
Proof.
  intros H. split; [|split; [|split; [|split]]].
  - unfold detect_css_module_var.
    now rewrite (re_search_needs ".inputFooter") by (reflexivity || exact H).
  - unfold detect_react_var; cbv zeta.
    rewrite (re_search_needs ".inputFooter"); [| |exact H].
    + now rewrite (re_search_needs ".inputFooter") by (reflexivity || exact H).
    + cbn [seq]. apply needs_seq_r, needs_seq_r. cbn [needs].
      apply contains_app_r, contains_cons_r, contains_app_r, contains_cons_r,
        contains_app_r, contains_app_r.
      reflexivity.
  - unfold detect_footer_component; cbv zeta.
    rewrite (re_search_needs ".inputFooter"); [reflexivity| |exact H].
    cbn [seq]. apply needs_seq_l. cbn [needs].
    apply contains_app_r, contains_app_r. reflexivity.
  - unfold detect_signal_hook. now rewrite find_footer_pos_absent.
  - unfold detect_footer_function. now rewrite find_footer_pos_absent.
Qed.

Lemma resolvers_fall_back_witness :
  detect_css_module_var "var a=1;if(U>=50)return null;" = "WJ" /\
  detect_react_var "var a=1;if(U>=50)return null;" "WJ" = "n4" /\
  detect_footer_component "var a=1;if(U>=50)return null;" "WJ" = "dP1" /\
  detect_signal_hook "var a=1;if(U>=50)return null;" "WJ" = "_Z" /\
  detect_footer_function "var a=1;if(U>=50)return null;" "WJ" = None.
Proof.
  apply (resolvers_fall_back "var a=1;if(U>=50)return null;" "WJ").
  vm_compute; reflexivity.
Defined.

(** ** The uncaught [ValueError] of the call injection *)

Lemma inject_call_lines_raises css_var react_var footer_comp call i lines :
  inject_call_lines css_var react_var footer_comp call i lines = RaisedValueError ->
  exists line,
    In line lines /\
    (contains ("{ className: " ++ css_var ++ ".inputFooter },") (strip line)
     || contains ("{className:" ++ css_var ++ ".inputFooter},") (strip line)) = true /\
    contains footer_comp line = true /\
    find (react_var ++ ".default.createElement(" ++ footer_comp) line = None /\
    find (".default.createElement(" ++ footer_comp) line = None.
Proof.
  revert i; induction lines as [|l rest IH]; intros i H; [discriminate|].
  cbn [inject_call_lines] in H; cbv zeta in H.
  assert (Hkeep : forall r,
             keep_line l r = RaisedValueError -> r = RaisedValueError).
  { intros r Hr. now destruct r. }
  assert (Hrec : inject_call_lines css_var react_var footer_comp call (S i) rest
                 = RaisedValueError ->
                 exists line, In line (l :: rest) /\
                   (contains ("{ className: " ++ css_var ++ ".inputFooter },") (strip line)
                    || contains ("{className:" ++ css_var ++ ".inputFooter},") (strip line)) = true /\
                   contains footer_comp line = true /\
                   find (react_var ++ ".default.createElement(" ++ footer_comp) line = None /\
                   find (".default.createElement(" ++ footer_comp) line = None).
  { intros E. destruct (IH _ E) as (line & Hin & Hrest).
    exists line. split; [now right|exact Hrest]. }
  destruct (_ || _) eqn:Hc.
  - destruct (contains footer_comp l) eqn:Hf.
    + destruct (find (react_var ++ ".default.createElement(" ++ footer_comp) l)
        eqn:F1; cbn [or_else] in H; [discriminate|].
      destruct (find (".default.createElement(" ++ footer_comp) l) eqn:F2;
        [discriminate|].
      exists l. split; [now left|]. now rewrite Hc.
    + destruct (insert_before_comp _ _ _ _) as [[near j]|]; [discriminate|].
      exact (Hrec (Hkeep _ H)).
  - exact (Hrec (Hkeep _ H)).
Qed.

(** X13. PATCH 1b can die of an uncaught [ValueError], and only in one way: the
    artifact is prettified, the component is defined and not yet called,
    and a line that holds the footer container also holds the name of the
    footer component, but no [.default.createElement(] before that name:
    both [old_line.index] calls fail, and the second is outside the
    [try]. *)
Theorem inject_call_raises (prettified : bool)
        (css_var react_var footer_comp c : text) :
  inject_call prettified css_var react_var footer_comp c = CallRaised ->
  prettified = true /\
  contains CC_MetricsBar c = true /\ contains CALL_MARKER c = false /\
  exists line,
    In line (split_nl c) /\
    (contains ("{ className: " ++ css_var ++ ".inputFooter },") (strip line)
     || contains ("{className:" ++ css_var ++ ".inputFooter},") (strip line)) = true /\
    contains footer_comp line = true /\
    find (react_var ++ ".default.createElement(" ++ footer_comp) line = None /\
    find (".default.createElement(" ++ footer_comp) line = None.
Proof.
  unfold inject_call; cbv zeta. intros H.
  destruct (contains CC_MetricsBar c) eqn:H1; cbn [andb] in H.
  - destruct (contains CALL_MARKER c) eqn:H2; cbn [negb] in H; [discriminate|].
    destruct prettified.
    + destruct (inject_call_lines _ _ _ _ _ _) eqn:E; try discriminate.
      repeat split; trivial.
      exact (inject_call_lines_raises _ _ _ _ _ _ E).
    + now destruct (negb _).
  - now destruct (contains CALL_MARKER c).
Qed.

(** A footer container whose first child is named without a call. *)
Lemma inject_call_raises_witness :
  true = true /\
  contains CC_MetricsBar
    ("function CC_MetricsBar(){}" ++ nl :: "h(p, { className: WJ.inputFooter }, dP1)")
  = true /\
  contains CALL_MARKER
    ("function CC_MetricsBar(){}" ++ nl :: "h(p, { className: WJ.inputFooter }, dP1)")
  = false /\
  exists line,
    In line (split_nl ("function CC_MetricsBar(){}" ++ nl
                       :: "h(p, { className: WJ.inputFooter }, dP1)")) /\
    (contains ("{ className: " ++ "WJ" ++ ".inputFooter },") (strip line)
     || contains ("{className:" ++ "WJ" ++ ".inputFooter},") (strip line)) = true /\
    contains "dP1" line = true /\
    find ("n4" ++ ".default.createElement(" ++ "dP1") line = None /\
    find (".default.createElement(" ++ "dP1") line = None.
Proof.
  apply (inject_call_raises true "WJ" "n4" "dP1"
           ("function CC_MetricsBar(){}" ++ nl
            :: "h(p, { className: WJ.inputFooter }, dP1)")).
  vm_compute; reflexivity.
Defined.
